(** * ACE framework, hello-layers demo: the [Resource] base class

    A shallow embedding of [ace/framework/resource.py]: the topology
    resolver (queue and exchange names), the consumer-local queues, the
    retry loops around the bus channel, the bus teardown and the message
    envelope with the [json] text it is sent as.  The model comes first,
    the properties the specification states about it follow. *)

From Stdlib Require Import ZArith NArith Lia Ascii String.
From Stdlib.Strings Require Import Byte.
From Stdlib Require Import Decimal DecimalN.
From stdpp Require Import base option list strings gmap.
From Stdlib Require Import SpecFloat.

Local Open Scope Z_scope.
Local Open Scope string_scope.

(** ** The [ace.constants] module *)

Module constants.

(** Modelled from the spec: [constants.LAYER_ORIENTATIONS] is imported by
    [resource.py] but the module that defines it is not part of the
    sources at hand.  The specification fixes the closed set of directions
    to southbound and northbound, enumerated in that order. *)
Definition LAYER_ORIENTATIONS : list string := ["southbound"; "northbound"].

End constants.

(** ** Python truthiness and formatting helpers *)

(** [if s:] on a [str]: every string but the empty one is true. *)
Definition str_truthy (s : string) : bool :=
  match s with
  | EmptyString => false
  | String _ _ => true
  end.

(** [x in seq] on a tuple of strings. *)
Definition str_in (x : string) (seq : list string) : bool :=
  existsb (String.eqb x) seq.

(** [len(seq)] as a Python integer. *)
Definition len {A} (l : list A) : Z := Z.of_nat (length l).

(** [enumerate(seq)]: the elements paired with their index, counted from
    [start]. *)
Fixpoint enumerate_from {A} (start : Z) (l : list A) : list (Z * A) :=
  match l with
  | [] => []
  | x :: l' => (start, x) :: enumerate_from (start + 1) l'
  end.

Definition enumerate {A} (l : list A) : list (Z * A) := enumerate_from 0 l.

(** ** Exceptions and the ways a call can end *)

(** Exceptions.  [ChannelClosed] stands for
    [aio_pika.exceptions.ChannelClosed] (and its subclasses, which an
    [except] clause naming it catches as well); every other exception is an
    [OtherFailure] with the name of its class. *)
Inductive exn : Type :=
| ChannelClosed (text : string)
| OtherFailure (kind text : string).

(** What a call with a loop in it can do: come back with a value, raise,
    block for ever on an empty [Queue.get()], or still be looping when the
    fuel given to the model is spent. *)
Inductive run (A : Type) : Type :=
| Returned (a : A)
| Raised (e : exn)
| Blocked
| OutOfFuel.
Arguments Returned {A} a.
Arguments Raised {A} e.
Arguments Blocked {A}.
Arguments OutOfFuel {A}.

(** ** Settings (the part the topology reads) *)

Record Settings := {
  name : string;
  label : string;
  layers : list string
}.

(** ** Topology resolver *)

Section Topology.

Variable settings : Settings.

(** [build_queue_name]: [None] unless the layer is non-empty and the
    direction is a known orientation. *)
Definition build_queue_name (direction layer : string) : option string :=
  let queue := None in
  if str_truthy layer && str_in direction constants.LAYER_ORIENTATIONS
  then Some (direction ++ "." ++ layer)
  else queue.

(** [build_exchange_name]: the queue name behind the prefix, when there is
    a (truthy) queue name. *)
Definition build_exchange_name (direction layer : string) : option string :=
  let exchange := None in
  match build_queue_name direction layer with
  | Some queue =>
      if str_truthy queue then Some ("exchange." ++ queue) else exchange
  | None => exchange
  end.

(** [is_existant_layer_queue]: queue names are
    [direction].[destination_layer], so there is no southbound queue to
    the first layer and no northbound queue to the last one. *)
Definition is_existant_layer_queue (orientation : string) (idx : Z) : bool :=
  if (String.eqb orientation "southbound" && Z.eqb idx 0)
     || (String.eqb orientation "northbound"
         && Z.eqb idx (len (layers settings) - 1))
  then false
  else true.

(** The inner [for idx, layer in enumerate(...)] loop of
    [build_all_layer_queue_names], appending to [queue_names]. *)
Fixpoint layer_loop (orientation : string) (todo : list (Z * string))
    (queue_names : list (option string)) : list (option string) :=
  match todo with
  | [] => queue_names
  | (idx, layer) :: todo' =>
      layer_loop orientation todo'
        (if is_existant_layer_queue orientation idx
         then queue_names ++ [build_queue_name orientation layer]
         else queue_names)
  end.

(** The outer [for orientation in constants.LAYER_ORIENTATIONS] loop. *)
Fixpoint orientation_loop (todo : list string)
    (queue_names : list (option string)) : list (option string) :=
  match todo with
  | [] => queue_names
  | orientation :: todo' =>
      orientation_loop todo'
        (layer_loop orientation (enumerate (layers settings)) queue_names)
  end.

Definition build_all_layer_queue_names : list (option string) :=
  orientation_loop constants.LAYER_ORIENTATIONS [].

End Topology.

(** The settings of a resource over the three layers of the example. *)
Definition three_layers : Settings :=
  {| name := "R"; label := "demo"; layers := ["L0"; "L1"; "L2"] |}.

(** ** Consumer-local queues

    [self.consumer_local_queues] is a dict from queue names to
    [queue.Queue] objects.  A [Queue] is kept as the list of the messages it
    holds, oldest first; the dict owns the queue objects, so an operation on
    a queue fetched from the dict is written back under its name. *)

Section LocalQueues.

Context {Message : Type}.

(** [Queue.put(message)] on an unbounded queue. *)
Definition queue_put (queue : list Message) (message : Message)
  : list Message :=
  (queue ++ [message])%list.

(** [Queue.empty()]. *)
Definition queue_empty (queue : list Message) : bool :=
  match queue with
  | [] => true
  | _ :: _ => false
  end.

(** [Queue.get()]: the oldest message; [None] when the caller would block
    on an empty queue. *)
Definition queue_get (queue : list Message)
  : option (Message * list Message) :=
  match queue with
  | [] => None
  | message :: queue' => Some (message, queue')
  end.

(** [get_consumer_local_queue]: the queue under [queue_name], created
    empty on first use. *)
Definition get_consumer_local_queue (queue_name : string)
    (consumer_local_queues : gmap string (list Message))
  : list Message * gmap string (list Message) :=
  match consumer_local_queues !! queue_name with
  | None => ([], <[queue_name := []]> consumer_local_queues)
  | Some queue => (queue, consumer_local_queues)
  end.

Definition push_message_to_consumer_local_queue (queue_name : string)
    (message : Message) (consumer_local_queues : gmap string (list Message))
  : gmap string (list Message) :=
  let '(queue, consumer_local_queues) :=
    get_consumer_local_queue queue_name consumer_local_queues in
  <[queue_name := queue_put queue message]> consumer_local_queues.

(** [while not queue.empty(): messages.append(queue.get())]. *)
Fixpoint drain_loop (fuel : nat) (queue messages : list Message)
  : run (list Message * list Message) :=
  match fuel with
  | O => OutOfFuel
  | S fuel' =>
      if negb (queue_empty queue)
      then match queue_get queue with
           | None => Blocked
           | Some (message, queue') =>
               drain_loop fuel' queue' (messages ++ [message])%list
           end
      else Returned (messages, queue)
  end.

Definition get_messages_from_consumer_local_queue (fuel : nat)
    (queue_name : string)
    (consumer_local_queues : gmap string (list Message))
  : run (list Message * gmap string (list Message)) :=
  let messages := [] in
  let '(queue, consumer_local_queues) :=
    get_consumer_local_queue queue_name consumer_local_queues in
  match drain_loop fuel queue messages with
  | Returned (messages, queue) =>
      Returned (messages, <[queue_name := queue]> consumer_local_queues)
  | Raised e => Raised e
  | Blocked => Blocked
  | OutOfFuel => OutOfFuel
  end.

(** [N] calls of [push_message_to_consumer_local_queue] on one name. *)
Definition push_all (queue_name : string) (messages : list Message)
    (consumer_local_queues : gmap string (list Message))
  : gmap string (list Message) :=
  fold_left
    (fun queues message =>
       push_message_to_consumer_local_queue queue_name message queues)
    messages consumer_local_queues.

(** The messages waiting under a name (none when there is no queue yet). *)
Definition pending (queue_name : string)
    (consumer_local_queues : gmap string (list Message)) : list Message :=
  default [] (consumer_local_queues !! queue_name).

End LocalQueues.

(** ** The bus: connection, channel, event loop

    The broker and the [aio_pika] library are outside the program; what
    they answer is given to the model as data.  The resource keeps a
    journal of what it did on the bus, in order, so that the order of its
    effects can be stated. *)

(** [isinstance(e, (ChannelClosed, ChannelClosed))], the filter of the
    [except] clauses. *)
Definition caught_by_retry (e : exn) : bool :=
  match e with
  | ChannelClosed _ => true
  | OtherFailure _ _ => false
  end.

(** What an awaited broker call does. *)
Inductive answer : Type :=
| Succeeds
| Fails (e : exn).

Inductive level : Type := DEBUG | INFO | WARNING.

(** The coroutines [disconnect_busses] runs to completion. *)
Inductive coroutine : Type :=
| pre_disconnect
| channel_close
| connection_close.

(** Callbacks waiting on the loop's ready list: [loop.stop], handed to
    the loop with [call_soon_threadsafe], and the done-callback of a
    [run_until_complete] that a stop cut short, which is left behind on
    the list and stops the loop in its turn. *)
Inductive handle : Type :=
| loop_stop
| run_until_complete_cb.

Inductive event : Type :=
| Logged (lvl : level)
| ChannelOpened (number : nat)
| QueueFound (queue_name : string) (number : nat)
| ConsumerAttached (queue_name callback : string) (number : nat)
| ExchangeFound (exchange_name : string) (number : nat)
| Slept (seconds : Z)
| Started (c : coroutine)
| Completed (c : coroutine)
| Posted (h : handle).

Record Channel := {
  number : nat;
  is_closed : bool
}.

Record Connection := {
  connection_is_closed : bool;
  channels_opened : nat
}.

(** The event loop: whether it is running (in the bus thread), whether it
    has been told to stop ([_stopping]), and the callbacks posted to it
    that it has not run yet ([_ready]). *)
Record EventLoop := {
  is_running : bool;
  stopping : bool;
  ready : list handle
}.

Record Resource := {
  bus_loop : EventLoop;
  connection : Connection;
  channel : Channel;
  journal : list event
}.

Definition set_bus_loop (l : EventLoop) (self : Resource) : Resource :=
  {| bus_loop := l; connection := connection self;
     channel := channel self; journal := journal self |}.

Definition set_connection (c : Connection) (self : Resource) : Resource :=
  {| bus_loop := bus_loop self; connection := c;
     channel := channel self; journal := journal self |}.

Definition set_channel (c : Channel) (self : Resource) : Resource :=
  {| bus_loop := bus_loop self; connection := connection self;
     channel := c; journal := journal self |}.

Definition record (ev : event) (self : Resource) : Resource :=
  {| bus_loop := bus_loop self; connection := connection self;
     channel := channel self; journal := (journal self ++ [ev])%list |}.

(** *** A state-and-exception monad over the resource *)

Inductive result (A : Type) : Type :=
| Ok (a : A)
| Raise (e : exn).
Arguments Ok {A} a.
Arguments Raise {A} e.

Definition M (A : Type) : Type := Resource -> result A * Resource.

Definition ret {A} (a : A) : M A := fun self => (Ok a, self).

Definition raise {A} (e : exn) : M A := fun self => (Raise e, self).

Definition bind {A B} (m : M A) (k : A -> M B) : M B :=
  fun self =>
    match m self with
    | (Ok a, self') => k a self'
    | (Raise e, self') => (Raise e, self')
    end.

Declare Scope resource_scope.
Delimit Scope resource_scope with M.
Notation "x <- m ;; k" := (bind m (fun x => k))
  (at level 100, m at next level, right associativity) : resource_scope.
Notation "m ;;; k" := (bind m (fun _ => k))
  (at level 100, right associativity) : resource_scope.
Local Open Scope resource_scope.

Definition get : M Resource := fun self => (Ok self, self).

Definition modify (f : Resource -> Resource) : M unit :=
  fun self => (Ok tt, f self).

Definition log (lvl : level) : M unit := modify (record (Logged lvl)).

Definition await (a : answer) : M unit :=
  match a with
  | Succeeds => ret tt
  | Fails e => raise e
  end.

(** *** The retry loops

    The broker's behaviour is a script with one entry per attempt: what
    each awaited call of that attempt answers, and whether the channel is
    closed once the attempt has failed.  An attempt that does not reach a
    call does not look at its answer. *)

Record attempt := {
  on_channel : answer;    (* [connection.channel()] *)
  on_lookup : answer;     (* [channel.get_queue(..)], [channel.get_exchange(..)] *)
  on_consume : answer;    (* [queue.consume(callback)] *)
  closed_after : bool     (* [channel.is_closed] after a failed attempt *)
}.

Record Queue := {
  queue_name_of : string;
  queue_channel : nat
}.

Record Exchange := {
  exchange_name_of : string;
  exchange_channel : nat
}.

(** [await self.connection.channel()]: a new, open channel with the next
    number. *)
Definition connection_channel (a : answer) : M Channel :=
  await a ;;;
  self <- get ;;
  let n := S (channels_opened (connection self)) in
  modify (set_connection
            {| connection_is_closed := connection_is_closed (connection self);
               channels_opened := n |}) ;;;
  modify (record (ChannelOpened n)) ;;;
  ret {| number := n; is_closed := false |}.

(** [await self.channel.get_queue(queue_name)]. *)
Definition channel_get_queue (a : answer) (queue_name : string) : M Queue :=
  await a ;;;
  self <- get ;;
  modify (record (QueueFound queue_name (number (channel self)))) ;;;
  ret {| queue_name_of := queue_name;
         queue_channel := number (channel self) |}.

(** [await queue.consume(callback)]. *)
Definition queue_consume (a : answer) (queue : Queue) (callback : string)
  : M unit :=
  await a ;;;
  modify (record (ConsumerAttached (queue_name_of queue) callback
                    (queue_channel queue))).

(** [await self.channel.get_exchange(exchange_name)]. *)
Definition channel_get_exchange (a : answer) (exchange_name : string)
  : M Exchange :=
  await a ;;;
  self <- get ;;
  modify (record (ExchangeFound exchange_name (number (channel self)))) ;;;
  ret {| exchange_name_of := exchange_name;
         exchange_channel := number (channel self) |}.

(** [await asyncio.sleep(seconds)]. *)
Definition sleep (seconds : Z) : M unit := modify (record (Slept seconds)).

(** The broker's side of a failed attempt: the state it leaves the
    resource's channel in. *)
Definition broker_leaves (a : attempt) (self : Resource) : Resource :=
  set_channel {| number := number (channel self);
                 is_closed := closed_after a |} self.

Section Retry.

(** [constants.QUEUE_SUBSCRIBE_RETRY_SECONDS]: defined in a module that
    is not part of the sources at hand, and left open here. *)
Variable QUEUE_SUBSCRIBE_RETRY_SECONDS : Z.

(** The [if self.channel.is_closed:] statement both loops start with. *)
Definition reopen_if_closed (a : attempt) : M unit :=
  self <- get ;;
  if is_closed (channel self)
  then
    log INFO ;;;
    c <- connection_channel (on_channel a) ;;
    modify (set_channel c)
  else ret tt.

(** The [try] block of [try_queue_subscribe]. *)
Definition subscribe_attempt (a : attempt) (queue_name callback : string)
  : M unit :=
  reopen_if_closed a ;;;
  queue <- channel_get_queue (on_lookup a) queue_name ;;
  queue_consume (on_consume a) queue callback ;;;
  log INFO.

(** The [except] handler of both loops. *)
Definition backoff : M unit :=
  log WARNING ;;;
  sleep QUEUE_SUBSCRIBE_RETRY_SECONDS.

(** [try_queue_subscribe]: [while True], one entry of the script per
    turn. *)
Fixpoint try_queue_subscribe (script : list attempt)
    (queue_name callback : string) (self : Resource)
  : run unit * Resource :=
  match script with
  | [] => (OutOfFuel, self)
  | a :: script' =>
      match (log DEBUG ;;; subscribe_attempt a queue_name callback) self with
      | (Ok _, self) => (Returned tt, self)
      | (Raise e, self) =>
          let self := broker_leaves a self in
          if caught_by_retry e
          then try_queue_subscribe script' queue_name callback
                 (snd (backoff self))
          else (Raised e, self)
      end
  end.

(** The [try] block of [try_get_exchange]. *)
Definition exchange_attempt (a : attempt) (exchange_name : string)
  : M Exchange :=
  reopen_if_closed a ;;;
  exchange <- channel_get_exchange (on_lookup a) exchange_name ;;
  ret exchange.

(** [try_get_exchange]. *)
Fixpoint try_get_exchange (script : list attempt) (exchange_name : string)
    (self : Resource) : run Exchange * Resource :=
  match script with
  | [] => (OutOfFuel, self)
  | a :: script' =>
      match (log DEBUG ;;; exchange_attempt a exchange_name) self with
      | (Ok exchange, self) => (Returned exchange, self)
      | (Raise e, self) =>
          let self := broker_leaves a self in
          if caught_by_retry e
          then try_get_exchange script' exchange_name (snd (backoff self))
          else (Raised e, self)
      end
  end.

End Retry.

(** *** Reading the journal *)

(** The channels opened in a stretch of the journal: one [ChannelOpened]
    for every [self.channel = await self.connection.channel()]. *)
Definition recreations (j : list event) : nat :=
  length (List.filter
            (fun ev => match ev with ChannelOpened _ => true | _ => false end)
            j).

(** The failures a retry loop caught: each one logs one warning. *)
Definition caught_failures (j : list event) : nat :=
  length (List.filter
            (fun ev => match ev with Logged WARNING => true | _ => false end)
            j).

(** The consumers attached, with the queue, the callback and the channel. *)
Definition attachments (j : list event) : list (string * string * nat) :=
  omap (fun ev => match ev with
                  | ConsumerAttached q cb n => Some (q, cb, n)
                  | _ => None
                  end) j.

(** The pauses taken, in seconds. *)
Definition pauses (j : list event) : list Z :=
  omap (fun ev => match ev with Slept s => Some s | _ => None end) j.

(** An attempt on which the broker closes the channel under the queue:
    the lookup fails with a channel-closed failure, or the lookup succeeds
    and attaching the consumer fails with one. *)
Definition queue_closed_failure (a : attempt) : bool :=
  match on_lookup a with
  | Fails (ChannelClosed _) => true
  | Fails (OtherFailure _ _) => false
  | Succeeds =>
      match on_consume a with
      | Fails (ChannelClosed _) => true
      | _ => false
      end
  end.

(** A resource whose channel number 1 is open. *)
Definition connected : Resource :=
  {| bus_loop := {| is_running := false; stopping := false; ready := [] |};
     connection := {| connection_is_closed := false; channels_opened := 1 |};
     channel := {| number := 1; is_closed := false |};
     journal := [] |}.

(** The same resource once its channel has been closed. *)
Definition connected_channel_closed : Resource :=
  set_channel {| number := 1; is_closed := true |} connected.

(** The broker refuses the queue lookup with a channel-closed failure and
    closes the channel. *)
Definition lookup_closes_channel : attempt :=
  {| on_channel := Succeeds;
     on_lookup := Fails (ChannelClosed "NOT_FOUND");
     on_consume := Succeeds;
     closed_after := true |}.

(** The broker answers every call. *)
Definition all_succeed : attempt :=
  {| on_channel := Succeeds; on_lookup := Succeeds; on_consume := Succeeds;
     closed_after := false |}.

(** The broker refuses the queue lookup with a failure of another class. *)
Definition lookup_denied : attempt :=
  {| on_channel := Succeeds;
     on_lookup := Fails (OtherFailure "AuthenticationError" "denied");
     on_consume := Succeeds;
     closed_after := false |}.

(** *** Teardown

    What the three coroutines of [disconnect_busses] do is the broker's and
    the subclass's business: [outcome_of c] says whether coroutine [c]
    raises, [suspends c] whether it waits for something (the broker, a
    timer) before it is done, rather than running to its end in its first
    step. *)

(** Every callback on the ready list calls [loop.stop]. *)
Definition calls_stop (h : handle) : bool :=
  match h with
  | loop_stop => true
  | run_until_complete_cb => true
  end.

(** Whether the next run of the loop ends after its first turn: the
    stopping flag is set already, or a callback that is ready sets it. *)
Definition stop_pending (l : EventLoop) : bool :=
  stopping l || existsb calls_stop (ready l).

(** A loop at rest with [h] on its ready list. *)
Definition at_rest (h : list handle) : EventLoop :=
  {| is_running := false; stopping := false; ready := h |}.

Section Teardown.

Variable outcome_of : coroutine -> answer.
Variable suspends : coroutine -> bool.

(** The effect of a coroutine once it has run to its end. *)
Definition effect_of (c : coroutine) (self : Resource) : Resource :=
  match c with
  | pre_disconnect => self
  | channel_close =>
      set_channel {| number := number (channel self); is_closed := true |}
        self
  | connection_close =>
      set_connection
        {| connection_is_closed := true;
           channels_opened := channels_opened (connection self) |} self
  end.

(** The coroutine runs to its end: it raises, or it has its effect. *)
Definition run_to_end (c : coroutine) : M unit :=
  await (outcome_of c) ;;;
  modify (effect_of c) ;;;
  modify (record (Completed c)).

(** [self.bus_loop.run_until_complete(c)], as [asyncio] defines it.  A
    loop that is already running is refused ([RuntimeError]) before the
    coroutine is scheduled.  Otherwise the loop is run with the first step
    of the coroutine behind the callbacks that were ready.  When none of
    them stops the loop, it runs until the coroutine is done, the
    done-callback stops it, and the call returns the coroutine's result or
    raises its exception.  When a stop was pending, the loop ends after
    that one turn: a coroutine that is done by then leaves its
    done-callback on the ready list and the call returns or raises as
    before; a coroutine that is still waiting stays behind, started and
    not completed, and the call raises [RuntimeError]. *)
Definition run_until_complete (c : coroutine) : M unit :=
  self <- get ;;
  if is_running (bus_loop self)
  then raise (OtherFailure "RuntimeError" "This event loop is already running")
  else
    modify (record (Started c)) ;;;
    if stop_pending (bus_loop self)
    then
      if suspends c
      then
        modify (set_bus_loop (at_rest [])) ;;;
        raise (OtherFailure "RuntimeError"
                 "Event loop stopped before Future completed.")
      else
        modify (set_bus_loop (at_rest [run_until_complete_cb])) ;;;
        run_to_end c
    else
      modify (set_bus_loop (at_rest [])) ;;;
      run_to_end c.

(** [self.bus_loop.call_soon_threadsafe(h)]: the callback is put on the
    loop's ready list; nothing runs it here. *)
Definition call_soon_threadsafe (h : handle) : M unit :=
  self <- get ;;
  modify (set_bus_loop
            {| is_running := is_running (bus_loop self);
               stopping := stopping (bus_loop self);
               ready := (ready (bus_loop self) ++ [h])%list |}) ;;;
  modify (record (Posted h)).

Definition disconnect_busses : M unit :=
  log DEBUG ;;;
  run_until_complete pre_disconnect ;;;
  run_until_complete channel_close ;;;
  run_until_complete connection_close ;;;
  call_soon_threadsafe loop_stop ;;;
  log INFO.

End Teardown.

(** A teardown in which the hook and both closes go through. *)
Definition all_complete : coroutine -> answer := fun _ => Succeeds.

(** The hook of the base class does nothing and is done in its first
    step; closing the channel and the connection waits for the broker. *)
Definition broker_io : coroutine -> bool :=
  fun c =>
    match c with
    | pre_disconnect => false
    | channel_close => true
    | connection_close => true
    end.

(** The resource as [connect_busses] leaves it: connection and channel
    open, the loop running for ever in the bus thread. *)
Definition bus_running : Resource :=
  set_bus_loop {| is_running := true; stopping := false; ready := [] |}
    connected.

(** The resource once [disconnect_busses] has gone through on a loop at
    rest, the stop still waiting on the ready list. *)
Definition torn_down : Resource :=
  {| bus_loop := at_rest [loop_stop];
     connection := {| connection_is_closed := true; channels_opened := 1 |};
     channel := {| number := 1; is_closed := true |};
     journal := [] |}.
(** ** Python values and the [json] module

    The values a message can carry are the ones [json.dumps] has an
    encoding for: [None], booleans, integers, floats, strings, lists,
    tuples and dicts whose keys are strings, integers, floats, booleans or
    [None].  (For any other value or key [json.dumps] raises [TypeError],
    and [build_message] with it, having made its two assignments; such
    values are not modelled.)

    A [str] is kept as the UTF-8 bytes of its code points, a lone
    surrogate as the three bytes the same scheme gives it, so that a
    string literal of this file is the [str] it shows.  A float is an
    IEEE binary64 number.  A dict keeps its keys in insertion order. *)

(** *** Strings *)

(** The low six bits of a continuation byte. *)
Definition low6 (b : ascii) : N := N.modulo (N_of_ascii b) 64.

(** The code points of a [str]. *)
Fixpoint code_points (s : string) : list N :=
  match s with
  | EmptyString => []
  | String b0 s1 =>
      let n0 := N_of_ascii b0 in
      if N.ltb n0 192 then n0 :: code_points s1
      else if N.ltb n0 224 then
        match s1 with
        | String b1 s2 => ((n0 - 192) * 64 + low6 b1)%N :: code_points s2
        | EmptyString => [n0]
        end
      else if N.ltb n0 240 then
        match s1 with
        | String b1 (String b2 s3) =>
            ((n0 - 224) * 4096 + low6 b1 * 64 + low6 b2)%N :: code_points s3
        | _ => n0 :: code_points s1
        end
      else
        match s1 with
        | String b1 (String b2 (String b3 s4)) =>
            ((n0 - 240) * 262144 + low6 b1 * 4096 + low6 b2 * 64 + low6 b3)%N
            :: code_points s4
        | _ => n0 :: code_points s1
        end
  end.

(** The bytes of a code point, in front of [rest]. *)
Definition utf8 (n : N) (rest : string) : string :=
  if N.ltb n 128 then String (ascii_of_N n) rest
  else if N.ltb n 2048 then
    String (ascii_of_N (192 + n / 64))
      (String (ascii_of_N (128 + n mod 64)) rest)
  else if N.ltb n 65536 then
    String (ascii_of_N (224 + n / 4096))
      (String (ascii_of_N (128 + (n / 64) mod 64))
         (String (ascii_of_N (128 + n mod 64)) rest))
  else
    String (ascii_of_N (240 + n / 262144))
      (String (ascii_of_N (128 + (n / 4096) mod 64))
         (String (ascii_of_N (128 + (n / 64) mod 64))
            (String (ascii_of_N (128 + n mod 64)) rest))).

Definition str_of_code_points (l : list N) : string :=
  fold_right utf8 EmptyString l.

(** The surrogates: code points that stand for half a character of the
    planes above the first. *)
Definition high_surrogate (n : N) : bool := N.leb 55296 n && N.leb n 56319.

Definition low_surrogate (n : N) : bool := N.leb 56320 n && N.leb n 57343.

(** What a [str] always is: the bytes of code points up to [0x10FFFF],
    each written the one way [utf8] writes it. *)
Definition valid_str (s : string) : bool :=
  String.eqb (str_of_code_points (code_points s)) s
  && forallb (fun n => N.ltb n 1114112) (code_points s).

(** Whether a high surrogate is followed at once by a low one. *)
Fixpoint surrogate_pair (l : list N) : bool :=
  match l with
  | n :: l' =>
      match l' with
      | n' :: _ => (high_surrogate n && low_surrogate n') || surrogate_pair l'
      | [] => false
      end
  | [] => false
  end.

(** *** Floats *)

(** A Python [float]: an IEEE binary64 number. *)
Definition valid_float (f : spec_float) : bool := valid_binary 53 1024 f.

Definition float_beq (f f' : spec_float) : bool :=
  match f, f' with
  | S754_zero s, S754_zero s' => Bool.eqb s s'
  | S754_infinity s, S754_infinity s' => Bool.eqb s s'
  | S754_nan, S754_nan => true
  | S754_finite s m e, S754_finite s' m' e' =>
      Bool.eqb s s' && Pos.eqb m m' && Z.eqb e e'
  | _, _ => false
  end.

(** The float nearest to [p / q], ties to the even one, for positive [p]
    and [q]. *)
Definition float_of_ratio (negative : bool) (p q : Z) : spec_float :=
  let '(m, e, l) := SFdiv_core_binary 53 1024 p 0 q 0 in
  binary_round_aux 53 1024 negative m e l.

(** [float(text)] for a decimal numeral: the float nearest to
    [digits * 10 ^ exponent].  Beyond [10 ^ 400] that is infinity, below
    [10 ^ -400] zero. *)
Definition float_of_decimal (negative : bool) (digits : N) (exponent : Z)
  : spec_float :=
  match digits with
  | N0 => S754_zero negative
  | Npos d =>
      if Z.ltb 400 exponent then S754_infinity negative
      else if Z.ltb (exponent + Z.of_nat (nb_digits (N.to_uint digits)))
                (- 400)
      then S754_zero negative
      else if Z.leb 0 exponent
      then float_of_ratio negative (Zpos d * 10 ^ exponent) 1
      else float_of_ratio negative (Zpos d) (10 ^ (- exponent))
  end.

(** The value [m * 2 ^ e] as a fraction. *)
Definition float_ratio (m : positive) (e : Z) : Z * Z :=
  if Z.leb 0 e then (Zpos m * 2 ^ e, 1) else (Zpos m, 2 ^ (- e)).

(** A fraction divided by [10 ^ k]. *)
Definition scale10 (x : Z * Z) (k : Z) : Z * Z :=
  let '(p, q) := x in
  if Z.leb 0 k then (p, q * 10 ^ k) else (p * 10 ^ (- k), q).

(** The least [d] from [d] on with [x < 10 ^ d]. *)
Fixpoint decimal_point_from (fuel : nat) (x : Z * Z) (d : Z) : Z :=
  match fuel with
  | O => d
  | S fuel' =>
      let '(p, q) := scale10 x d in
      if Z.ltb p q then d else decimal_point_from fuel' x (d + 1)
  end.

(** The position of the decimal point: the least [d] with
    [m * 2 ^ e < 10 ^ d]. *)
Definition decimal_point (m : positive) (e : Z) : Z :=
  let bits := Zpos (digits2_pos m) + e in
  decimal_point_from 8 (float_ratio m e) ((bits - 1) * 30102 / 100000 - 1).

Definition float_is (m : positive) (e : Z) (f : spec_float) : bool :=
  float_beq f (S754_finite false m e).

(** The shortest decimal numeral that [float] reads as [m * 2 ^ e], and
    of those the one nearest to it: numerals of [n] digits are tried for
    [n] from 1 on, the two next to the value each time.  Seventeen digits
    are enough. *)
Fixpoint shortest_from (fuel : nat) (m : positive) (e : Z) (point : Z)
    (n : Z) : N * Z :=
  let k := point - n in
  let '(p, q) := scale10 (float_ratio m e) k in
  let below := p / q in
  let above := below + 1 in
  let nearest := if Z.leb (2 * (p mod q)) q then below else above in
  match fuel with
  | O => (Z.to_N nearest, k)
  | S fuel' =>
      let below_reads :=
        float_is m e (float_of_decimal false (Z.to_N below) k) in
      let above_reads :=
        float_is m e (float_of_decimal false (Z.to_N above) k) in
      if below_reads && above_reads then (Z.to_N nearest, k)
      else if below_reads then (Z.to_N below, k)
      else if above_reads then (Z.to_N above, k)
      else shortest_from fuel' m e point (n + 1)
  end.

(** Zeros at the end of the digits go into the exponent. *)
Fixpoint strip_zeros (fuel : nat) (digits : N) (k : Z) : N * Z :=
  match fuel with
  | O => (digits, k)
  | S fuel' =>
      if N.ltb 0 digits && N.eqb (digits mod 10) 0
      then strip_zeros fuel' (digits / 10) (k + 1)
      else (digits, k)
  end.

Definition shortest_digits (m : positive) (e : Z) : N * Z :=
  let '(digits, k) := shortest_from 17 m e (decimal_point m e) 1 in
  strip_zeros 20 digits k.

(** *** Numerals *)

Fixpoint print_uint (d : uint) (rest : string) : string :=
  match d with
  | Nil => rest
  | D0 d' => String "0" (print_uint d' rest)
  | D1 d' => String "1" (print_uint d' rest)
  | D2 d' => String "2" (print_uint d' rest)
  | D3 d' => String "3" (print_uint d' rest)
  | D4 d' => String "4" (print_uint d' rest)
  | D5 d' => String "5" (print_uint d' rest)
  | D6 d' => String "6" (print_uint d' rest)
  | D7 d' => String "7" (print_uint d' rest)
  | D8 d' => String "8" (print_uint d' rest)
  | D9 d' => String "9" (print_uint d' rest)
  end.

(** [int.__repr__]. *)
Definition print_int (z : Z) (rest : string) : string :=
  if Z.ltb z 0
  then String "-" (print_uint (N.to_uint (Z.abs_N z)) rest)
  else print_uint (N.to_uint (Z.abs_N z)) rest.

Fixpoint zeros (n : nat) (rest : string) : string :=
  match n with
  | O => rest
  | S n' => String "0" (zeros n' rest)
  end.

(** The exponent of a float in scientific notation: a sign and two digits
    at least. *)
Definition print_exponent (x : Z) (rest : string) : string :=
  String "e"
    (String (if Z.ltb x 0 then "-" else "+")
       (if Z.ltb (Z.abs x) 10
        then String "0" (print_uint (N.to_uint (Z.abs_N x)) rest)
        else print_uint (N.to_uint (Z.abs_N x)) rest)).

(** The digits [ds] with the decimal point after the first [point] of
    them, as [float.__repr__] lays them out: in scientific notation when
    the point is more than sixteen places to the right or more than three
    to the left of the first digit, and with [.0] behind a whole
    number. *)
Definition print_digits (ds : string) (point : Z) (rest : string) : string :=
  let nd := Z.of_nat (String.length ds) in
  if Z.leb point (- 4) || Z.ltb 16 point then
    match ds with
    | String d0 EmptyString => String d0 (print_exponent (point - 1) rest)
    | String d0 ds' =>
        String d0 (String "." (ds' ++ print_exponent (point - 1) rest))
    | EmptyString => print_exponent (point - 1) rest
    end
  else if Z.leb point 0 then
    String "0" (String "." (zeros (Z.to_nat (- point)) (ds ++ rest)))
  else if Z.leb nd point then
    ds ++ zeros (Z.to_nat (point - nd)) (String "." (String "0" rest))
  else
    substring 0 (Z.to_nat point) ds
    ++ String "." (substring (Z.to_nat point) (Z.to_nat (nd - point)) ds
                   ++ rest).

(** The text of the absolute value of a zero or finite float. *)
Definition print_magnitude (f : spec_float) (rest : string) : string :=
  match f with
  | S754_finite _ m e =>
      let '(digits, k) := shortest_digits m e in
      let ds := print_uint (N.to_uint digits) EmptyString in
      print_digits ds (k + Z.of_nat (String.length ds)) rest
  | _ => String "0" (String "." (String "0" rest))
  end.

Definition float_sign (f : spec_float) : bool :=
  match f with
  | S754_zero s | S754_infinity s | S754_finite s _ _ => s
  | S754_nan => false
  end.

(** [float.__repr__]. *)
Definition float_repr (f : spec_float) (rest : string) : string :=
  match f with
  | S754_nan => "nan" ++ rest
  | S754_infinity false => "inf" ++ rest
  | S754_infinity true => "-inf" ++ rest
  | _ =>
      if float_sign f then String "-" (print_magnitude f rest)
      else print_magnitude f rest
  end.

(** [floatstr] of [json.encoder], with [allow_nan] as it is by
    default. *)
Definition print_float (f : spec_float) (rest : string) : string :=
  match f with
  | S754_nan => "NaN" ++ rest
  | S754_infinity false => "Infinity" ++ rest
  | S754_infinity true => "-Infinity" ++ rest
  | _ => float_repr f rest
  end.

(** *** Keys and values *)

(** The keys [json.dumps] accepts. *)
Inductive pykey : Type :=
| KStr (s : string)
| KInt (z : Z)
| KFloat (f : spec_float)
| KBool (b : bool)
| KNone.

Coercion KStr : string >-> pykey.

Inductive pyvalue : Type :=
| PNone
| PBool (b : bool)
| PInt (z : Z)
| PFloat (f : spec_float)
| PStr (s : string)
| PList (l : pylist)
| PTuple (l : pylist)
| PDict (d : pydict)
with pylist : Type :=
| LNil
| LCons (v : pyvalue) (l : pylist)
with pydict : Type :=
| DNil
| DCons (k : pykey) (v : pyvalue) (d : pydict).

Scheme pyvalue_mut := Induction for pyvalue Sort Prop
  with pylist_mut := Induction for pylist Sort Prop
  with pydict_mut := Induction for pydict Sort Prop.
Combined Scheme pyvalue_pylist_pydict_ind
  from pyvalue_mut, pylist_mut, pydict_mut.

(** The number a key is, when it is one: [mantissa * 2 ^ exponent], or an
    infinity; [None] for a string, for [None] and for a float that is not
    a number. *)
Inductive numeric : Type :=
| Finite (mantissa exponent : Z)
| Infinite (negative : bool).

Definition key_number (k : pykey) : option numeric :=
  match k with
  | KInt z => Some (Finite z 0)
  | KBool b => Some (Finite (if b then 1 else 0) 0)
  | KFloat (S754_zero _) => Some (Finite 0 0)
  | KFloat (S754_finite s m e) => Some (Finite (if s then Zneg m else Zpos m) e)
  | KFloat (S754_infinity s) => Some (Infinite s)
  | KFloat S754_nan => None
  | KStr _ => None
  | KNone => None
  end.

Definition number_eqb (a b : numeric) : bool :=
  match a, b with
  | Finite m e, Finite m' e' =>
      if Z.leb e e' then Z.eqb m (m' * 2 ^ (e' - e))
      else Z.eqb (m * 2 ^ (e - e')) m'
  | Infinite s, Infinite s' => Bool.eqb s s'
  | _, _ => false
  end.

(** [k == k'] on keys: strings by their characters, numbers of whatever
    type by their value ([1 == 1.0 == True]), and a float that is not a
    number equals no key.  (A dict finds the very object it was given as
    a key again, a float that is not a number too; numbers have no
    identity here, so that such a key is never found.) *)
Definition key_eqb (k k' : pykey) : bool :=
  match k, k' with
  | KStr s, KStr s' => String.eqb s s'
  | KNone, KNone => true
  | _, _ =>
      match key_number k, key_number k' with
      | Some a, Some b => number_eqb a b
      | _, _ => false
      end
  end.

(** *** Dict operations *)

(** [k in d]. *)
Fixpoint dict_has (k : pykey) (d : pydict) : bool :=
  match d with
  | DNil => false
  | DCons k' _ d' => key_eqb k k' || dict_has k d'
  end.

(** [d.get(k)]. *)
Fixpoint dict_get (k : pykey) (d : pydict) : option pyvalue :=
  match d with
  | DNil => None
  | DCons k' v d' => if key_eqb k k' then Some v else dict_get k d'
  end.

(** [d[k] = v]: the value of an existing key is replaced where it stands,
    under the key as it stands there; a new key goes to the end. *)
Fixpoint dict_set (k : pykey) (v : pyvalue) (d : pydict) : pydict :=
  match d with
  | DNil => DCons k v DNil
  | DCons k' v' d' =>
      if key_eqb k k' then DCons k' v d' else DCons k' v' (dict_set k v d')
  end.

(** [list(d.keys())]. *)
Fixpoint dict_keys (d : pydict) : list pykey :=
  match d with
  | DNil => []
  | DCons k _ d' => k :: dict_keys d'
  end.

(** [bool(d)]: only the empty dict is false. *)
Definition dict_truthy (d : pydict) : bool :=
  match d with
  | DNil => false
  | DCons _ _ _ => true
  end.

(** [dict(pairs)]: the pairs are entered one after the other. *)
Fixpoint dict_update (d pairs : pydict) : pydict :=
  match pairs with
  | DNil => d
  | DCons k v pairs' => dict_update (dict_set k v d) pairs'
  end.

Definition dict_of_pairs (pairs : pydict) : pydict := dict_update DNil pairs.

Definition valid_key (k : pykey) : bool :=
  match k with
  | KStr s => valid_str s
  | KFloat f => valid_float f
  | _ => true
  end.

(** What a Python value always is: every [str] in it is one, every float
    is a binary64 number, and no dict has a key twice, here and in every
    value nested below. *)
Fixpoint valid_value (v : pyvalue) : bool :=
  match v with
  | PStr s => valid_str s
  | PFloat f => valid_float f
  | PList l => valid_list l
  | PTuple l => valid_list l
  | PDict d => valid_dict d
  | _ => true
  end
with valid_list (l : pylist) : bool :=
  match l with
  | LNil => true
  | LCons v l' => valid_value v && valid_list l'
  end
with valid_dict (d : pydict) : bool :=
  match d with
  | DNil => true
  | DCons k v d' =>
      negb (dict_has k d') && valid_key k && valid_value v && valid_dict d'
  end.

(** *** [json.dumps]

    The encoder with its defaults: [ensure_ascii=True], [allow_nan=True],
    item separator [", "], key separator [": "].  Each printer puts its
    text in front of [rest]. *)

(** The double quote character. *)
Definition quote : ascii := Ascii false true false false false true false false.

Definition hex_digit (n : N) : ascii :=
  match n with
  | 0 => "0" | 1 => "1" | 2 => "2" | 3 => "3" | 4 => "4" | 5 => "5"
  | 6 => "6" | 7 => "7" | 8 => "8" | 9 => "9" | 10 => "a" | 11 => "b"
  | 12 => "c" | 13 => "d" | 14 => "e" | _ => "f"
  end%N%char.

(** [\uXXXX]. *)
Definition print_escape (n : N) (rest : string) : string :=
  String "\" (String "u"
    (String (hex_digit (n / 4096))
       (String (hex_digit ((n / 256) mod 16))
          (String (hex_digit ((n / 16) mod 16))
             (String (hex_digit (n mod 16)) rest))))).

(** One character of a string, as [encode_basestring_ascii] writes it: a
    character from the space to the tilde as it is, but for the quote and
    the backslash; the short escapes; [\uXXXX] for any other character of
    the first plane, and the escapes of its two surrogates for a
    character above. *)
Definition print_char (n : N) (rest : string) : string :=
  if N.eqb n 34 then String "\" (String quote rest)
  else if N.eqb n 92 then String "\" (String "\" rest)
  else if N.eqb n 8 then String "\" (String "b" rest)
  else if N.eqb n 12 then String "\" (String "f" rest)
  else if N.eqb n 10 then String "\" (String "n" rest)
  else if N.eqb n 13 then String "\" (String "r" rest)
  else if N.eqb n 9 then String "\" (String "t" rest)
  else if N.leb 32 n && N.leb n 126 then String (ascii_of_N n) rest
  else if N.ltb n 65536 then print_escape n rest
  else
    print_escape (55296 + (n - 65536) / 1024)
      (print_escape (56320 + (n - 65536) mod 1024) rest).

Fixpoint print_chars (l : list N) (rest : string) : string :=
  match l with
  | [] => rest
  | n :: l' => print_char n (print_chars l' rest)
  end.

Definition print_str (s : string) (rest : string) : string :=
  String quote (print_chars (code_points s) (String quote rest)).

(** The string a key is written as. *)
Definition key_text (k : pykey) : string :=
  match k with
  | KStr s => s
  | KFloat f => print_float f EmptyString
  | KBool true => "true"
  | KBool false => "false"
  | KNone => "null"
  | KInt z => print_int z EmptyString
  end.

Fixpoint print_value (v : pyvalue) (rest : string) : string :=
  match v with
  | PNone => "null" ++ rest
  | PBool true => "true" ++ rest
  | PBool false => "false" ++ rest
  | PInt z => print_int z rest
  | PFloat f => print_float f rest
  | PStr s => print_str s rest
  | PList l => String "[" (print_items l (String "]" rest))
  | PTuple l => String "[" (print_items l (String "]" rest))
  | PDict d => String "{" (print_members d (String "}" rest))
  end
with print_items (l : pylist) (rest : string) : string :=
  match l with
  | LNil => rest
  | LCons v LNil => print_value v rest
  | LCons v l' => print_value v (", " ++ print_items l' rest)
  end
with print_members (d : pydict) (rest : string) : string :=
  match d with
  | DNil => rest
  | DCons k v DNil => print_str (key_text k) (": " ++ print_value v rest)
  | DCons k v d' =>
      print_str (key_text k)
        (": " ++ print_value v (", " ++ print_members d' rest))
  end.

Definition json_dumps (v : pyvalue) : string := print_value v EmptyString.

(** *** [str.encode()] and [bytes.decode()] *)

(** [s.encode()] for a [str] without surrogates, which every text of
    [json.dumps] is: its UTF-8 bytes, the bytes it is kept as. *)
Definition str_encode (s : string) : list byte := list_byte_of_string s.

(** [b.decode()]: the [str] the bytes are UTF-8 for; [None] for bytes
    that are not UTF-8, among them the bytes of a surrogate. *)
Definition bytes_decode (b : list byte) : option string :=
  let s := string_of_list_byte b in
  if valid_str s
     && forallb (fun n => negb (high_surrogate n || low_surrogate n))
          (code_points s)
  then Some s
  else None.

(** *** [json.loads]

    The decoder with its defaults ([strict=True]): white space is skipped
    around values and separators, a string may not hold a raw control
    character, a number may not start with a superfluous zero. *)

Fixpoint skip_ws (s : string) : string :=
  match s with
  | String c s' =>
      let n := N_of_ascii c in
      if N.eqb n 32 || N.eqb n 9 || N.eqb n 10 || N.eqb n 13
      then skip_ws s'
      else s
  | EmptyString => s
  end.

Definition hex_value (c : ascii) : option N :=
  let n := N_of_ascii c in
  if N.leb 48 n && N.leb n 57 then Some (n - 48)%N
  else if N.leb 97 n && N.leb n 102 then Some (n - 87)%N
  else if N.leb 65 n && N.leb n 70 then Some (n - 55)%N
  else None.

(** The number [\uXXXX] names. *)
Definition parse_hex4 (h1 h2 h3 h4 : ascii) : option N :=
  match hex_value h1, hex_value h2, hex_value h3, hex_value h4 with
  | Some a, Some b, Some c, Some d => Some (((a * 16 + b) * 16 + c) * 16 + d)%N
  | _, _, _, _ => None
  end.

Definition cons_byte (c : ascii) (r : option (string * string))
  : option (string * string) :=
  match r with
  | Some (s, rest) => Some (String c s, rest)
  | None => None
  end.

Definition cons_char (n : N) (r : option (string * string))
  : option (string * string) :=
  match r with
  | Some (s, rest) => Some (utf8 n s, rest)
  | None => None
  end.

(** The character two surrogates stand for. *)
Definition join_surrogates (high low : N) : N :=
  (65536 + (high - 55296) * 1024 + (low - 56320))%N.

(** The characters of a string up to its closing quote ([scanstring]).  A
    [\uXXXX] that names a high surrogate takes a [\uXXXX] right behind
    it, when that names a low one, as the other half of one character. *)
Fixpoint parse_chars (s : string) : option (string * string) :=
  match s with
  | EmptyString => None
  | String c s' =>
      if Ascii.eqb c quote then Some (EmptyString, s')
      else if Ascii.eqb c "\" then
        match s' with
        | String e s'' =>
            if Ascii.eqb e quote then cons_byte quote (parse_chars s'')
            else if Ascii.eqb e "\" then cons_byte "\" (parse_chars s'')
            else if Ascii.eqb e "/" then cons_byte "/" (parse_chars s'')
            else if Ascii.eqb e "b" then
              cons_byte (ascii_of_N 8) (parse_chars s'')
            else if Ascii.eqb e "f" then
              cons_byte (ascii_of_N 12) (parse_chars s'')
            else if Ascii.eqb e "n" then
              cons_byte (ascii_of_N 10) (parse_chars s'')
            else if Ascii.eqb e "r" then
              cons_byte (ascii_of_N 13) (parse_chars s'')
            else if Ascii.eqb e "t" then
              cons_byte (ascii_of_N 9) (parse_chars s'')
            else if Ascii.eqb e "u" then
              match s'' with
              | String h1 (String h2 (String h3 (String h4 s3))) =>
                  match parse_hex4 h1 h2 h3 h4 with
                  | Some n =>
                      if high_surrogate n
                      then
                        match s3 with
                        | String b (String u
                            (String g1 (String g2 (String g3 (String g4 s4))))) =>
                            if Ascii.eqb b "\" && Ascii.eqb u "u"
                            then
                              match parse_hex4 g1 g2 g3 g4 with
                              | Some n' =>
                                  if low_surrogate n'
                                  then cons_char (join_surrogates n n')
                                         (parse_chars s4)
                                  else cons_char n (parse_chars s3)
                              | None => None
                              end
                            else cons_char n (parse_chars s3)
                        | _ => cons_char n (parse_chars s3)
                        end
                      else cons_char n (parse_chars s3)
                  | None => None
                  end
              | _ => None
              end
            else None
        | EmptyString => None
        end
      else if N.ltb (N_of_ascii c) 32 then None
      else cons_byte c (parse_chars s')
  end.

Definition digit_of (c : ascii) : option (uint -> uint) :=
  match c with
  | "0" => Some D0 | "1" => Some D1 | "2" => Some D2 | "3" => Some D3
  | "4" => Some D4 | "5" => Some D5 | "6" => Some D6 | "7" => Some D7
  | "8" => Some D8 | "9" => Some D9 | _ => None
  end%char.

Definition is_digit (c : ascii) : bool :=
  match digit_of c with
  | Some _ => true
  | None => false
  end.

(** The longest run of digits at the head of [s]. *)
Fixpoint parse_digits (s : string) : uint * string :=
  match s with
  | String c s' =>
      match digit_of c with
      | Some digit => let '(d, rest) := parse_digits s' in (digit d, rest)
      | None => (Nil, s)
      end
  | EmptyString => (Nil, s)
  end.

(** A fraction: a point and one digit at least. *)
Definition parse_fraction (s : string) : option (uint * string) :=
  match s with
  | String c s' =>
      if Ascii.eqb c "."
      then
        let '(d, rest) := parse_digits s' in
        match d with
        | Nil => None
        | _ => Some (d, rest)
        end
      else None
  | EmptyString => None
  end.

(** Whether [s] begins with the character [c]. *)
Definition starts_with (c : ascii) (s : string) : bool :=
  match s with
  | String c' _ => Ascii.eqb c' c
  | EmptyString => false
  end.

(** [s] without its first character. *)
Definition behead (s : string) : string :=
  match s with
  | String _ s' => s'
  | EmptyString => s
  end.

(** An exponent: [e] or [E], a sign or none, and one digit at least. *)
Definition parse_exponent (s : string) : option (Z * string) :=
  match s with
  | String c s' =>
      if Ascii.eqb c "e" || Ascii.eqb c "E"
      then
        let '(d, rest) :=
          parse_digits (if starts_with "-" s' || starts_with "+" s'
                        then behead s' else s') in
        match d with
        | Nil => None
        | _ =>
            Some (if starts_with "-" s' then - Z.of_N (N.of_uint d)
                  else Z.of_N (N.of_uint d), rest)
        end
      else None
  | EmptyString => None
  end.

(** A number, after its sign: an integer, or with a fraction or an
    exponent behind the integer a float ([float] of the numeral).  The
    integer part is [0] or starts with another digit. *)
Definition parse_number (negative : bool) (s : string)
  : option (pyvalue * string) :=
  let '(d, rest) := parse_digits s in
  match d with
  | Nil => None
  | _ =>
      if negb (uint_beq (unorm d) d) then None
      else
        let fraction := parse_fraction rest in
        let rest1 :=
          match fraction with
          | Some (_, r) => r
          | None => rest
          end in
        let exponent := parse_exponent rest1 in
        let rest2 :=
          match exponent with
          | Some (_, r) => r
          | None => rest1
          end in
        match fraction, exponent with
        | None, None =>
            Some (PInt (if negative then - Z.of_N (N.of_uint d)
                        else Z.of_N (N.of_uint d)), rest)
        | _, _ =>
            let fd :=
              match fraction with
              | Some (fd, _) => fd
              | None => Nil
              end in
            let x :=
              match exponent with
              | Some (x, _) => x
              | None => 0
              end in
            Some (PFloat
                    (float_of_decimal negative
                       (N.of_uint d * 10 ^ N.of_nat (nb_digits fd)
                        + N.of_uint fd)
                       (x - Z.of_nat (nb_digits fd))),
                  rest2)
        end
  end.

(** [s] behind the text [p], when it begins with it. *)
Fixpoint strip_prefix (p s : string) : option string :=
  match p with
  | EmptyString => Some s
  | String c p' =>
      match s with
      | String c' s' => if Ascii.eqb c c' then strip_prefix p' s' else None
      | EmptyString => None
      end
  end.

Fixpoint parse_value (fuel : nat) (s : string) : option (pyvalue * string) :=
  match fuel with
  | O => None
  | S fuel =>
      match s with
      | EmptyString => None
      | String c s' =>
          if is_digit c then parse_number false s
          else if Ascii.eqb c "-" then
            match strip_prefix "Infinity" s' with
            | Some rest => Some (PFloat (S754_infinity true), rest)
            | None => parse_number true s'
            end
          else if Ascii.eqb c quote then
            match parse_chars s' with
            | Some (str, rest) => Some (PStr str, rest)
            | None => None
            end
          else if Ascii.eqb c "[" then
            if starts_with "]" (skip_ws s')
            then Some (PList LNil, behead (skip_ws s'))
            else
              match parse_items fuel (skip_ws s') with
              | Some (l, rest) => Some (PList l, rest)
              | None => None
              end
          else if Ascii.eqb c "{" then
            if starts_with "}" (skip_ws s')
            then Some (PDict DNil, behead (skip_ws s'))
            else
              match parse_members fuel (skip_ws s') with
              | Some (pairs, rest) => Some (PDict (dict_of_pairs pairs), rest)
              | None => None
              end
          else
            match strip_prefix "null" s with
            | Some rest => Some (PNone, rest)
            | None =>
            match strip_prefix "true" s with
            | Some rest => Some (PBool true, rest)
            | None =>
            match strip_prefix "false" s with
            | Some rest => Some (PBool false, rest)
            | None =>
            match strip_prefix "NaN" s with
            | Some rest => Some (PFloat S754_nan, rest)
            | None =>
            match strip_prefix "Infinity" s with
            | Some rest => Some (PFloat (S754_infinity false), rest)
            | None => None
            end end end end end
      end
  end
with parse_items (fuel : nat) (s : string) : option (pylist * string) :=
  match fuel with
  | O => None
  | S fuel =>
      match parse_value fuel s with
      | Some (v, rest) =>
          match skip_ws rest with
          | String "," rest' =>
              match parse_items fuel (skip_ws rest') with
              | Some (l, rest'') => Some (LCons v l, rest'')
              | None => None
              end
          | String "]" rest' => Some (LCons v LNil, rest')
          | _ => None
          end
      | None => None
      end
  end
with parse_members (fuel : nat) (s : string) : option (pydict * string) :=
  match fuel with
  | O => None
  | S fuel =>
      match s with
      | String c s' =>
          if Ascii.eqb c quote then
            match parse_chars s' with
            | Some (k, rest) =>
                match skip_ws rest with
                | String ":" rest' =>
                    match parse_value fuel (skip_ws rest') with
                    | Some (v, rest'') =>
                        match skip_ws rest'' with
                        | String "," rest3 =>
                            match parse_members fuel (skip_ws rest3) with
                            | Some (d, rest4) =>
                                Some (DCons (KStr k) v d, rest4)
                            | None => None
                            end
                        | String "}" rest3 =>
                            Some (DCons (KStr k) v DNil, rest3)
                        | _ => None
                        end
                    | None => None
                    end
                | _ => None
                end
            | None => None
            end
          else None
      | EmptyString => None
      end
  end.

(** [json.loads(s)]: one value, with nothing but white space around it. *)
Definition json_loads (s : string) : option pyvalue :=
  match parse_value (S (String.length s)) (skip_ws s) with
  | Some (v, rest) =>
      match skip_ws rest with
      | EmptyString => Some v
      | String _ _ => None
      end
  | None => None
  end.

(** The entries of [d] followed by those of [d']. *)
Fixpoint dict_app (d d' : pydict) : pydict :=
  match d with
  | DNil => d'
  | DCons k v d0 => DCons k v (dict_app d0 d')
  end.

(** How deep the decoder has to go for a value: the fuel [parse_value]
    needs to read it back. *)
Fixpoint need_value (v : pyvalue) : nat :=
  match v with
  | PList l => S (need_items l)
  | PTuple l => S (need_items l)
  | PDict d => S (need_members d)
  | _ => 1
  end
with need_items (l : pylist) : nat :=
  match l with
  | LNil => 0
  | LCons v l' => S (Nat.max (need_value v) (need_items l'))
  end
with need_members (d : pydict) : nat :=
  match d with
  | DNil => 0
  | DCons _ v d' => S (Nat.max (need_value v) (need_members d'))
  end.

(** Text in front of which a number can stand: it does not go on with a
    digit, a point, an exponent or a sign. *)
Definition number_end (s : string) : bool :=
  match s with
  | String c _ =>
      negb (is_digit c || Ascii.eqb c "." || Ascii.eqb c "e"
            || Ascii.eqb c "E" || Ascii.eqb c "+" || Ascii.eqb c "-")
  | EmptyString => true
  end.

(** *** What is read back as it was written *)

(** Whether [float] reads the text [float.__repr__] gives for [f] back
    as [f], a check by evaluation; that it does for every float is what
    [float.__repr__] is made for.  [NaN], [Infinity] and [-Infinity] are
    words of their own, read back as the floats they name. *)
Definition float_reads_back (f : spec_float) : bool :=
  match f with
  | S754_nan => true
  | S754_infinity _ => true
  | _ =>
      match print_magnitude f EmptyString with
      | String c _ => is_digit c
      | EmptyString => false
      end
      && match parse_number (float_sign f) (print_magnitude f EmptyString) with
         | Some (PFloat f', EmptyString) => float_beq f' f
         | _ => false
         end
  end.

(** Whether [json.loads] reads a [str] back from the text [json.dumps]
    gives for it: the two escapes of a high surrogate followed by a low
    one are read as one character. *)
Definition str_reads_back (s : string) : bool :=
  negb (surrogate_pair (code_points s)).

(** Whether [json.loads] gives a value back from the text of
    [json.dumps]: its keys are strings, there is no tuple in it, and its
    strings and floats are read back. *)
Fixpoint reads_back (v : pyvalue) : bool :=
  match v with
  | PFloat f => float_reads_back f
  | PStr s => str_reads_back s
  | PList l => reads_back_list l
  | PTuple _ => false
  | PDict d => reads_back_dict d
  | _ => true
  end
with reads_back_list (l : pylist) : bool :=
  match l with
  | LNil => true
  | LCons v l' => reads_back v && reads_back_list l'
  end
with reads_back_dict (d : pydict) : bool :=
  match d with
  | DNil => true
  | DCons k v d' =>
      match k with
      | KStr s => str_reads_back s
      | _ => false
      end
      && reads_back v && reads_back_dict d'
  end.

(** ** The message envelope

    Dicts are objects: a caller and [build_message] can hold the same one.
    The heap maps the address of each dict object to its content. *)

(** The dict object at an address. *)
Definition deref (heap : gmap nat pydict) (address : nat) : pydict :=
  default DNil (heap !! address).

(** [{}]: a new dict object at an address not in use. *)
Definition new_dict (heap : gmap nat pydict) : nat * gmap nat pydict :=
  let address := fresh (dom heap) in
  (address, <[address := DNil]> heap).

(** [message[k] = v] on the object at [message]. *)
Definition setitem (message : nat) (k : pykey) (v : pyvalue)
    (heap : gmap nat pydict) : gmap nat pydict :=
  <[message := dict_set k v (deref heap message)]> heap.

(** [message or {}]: the object passed, unless there is none or it is
    empty. *)
Definition or_new_dict (message : option nat) (heap : gmap nat pydict)
  : nat * gmap nat pydict :=
  match message with
  | Some address =>
      if dict_truthy (deref heap address)
      then (address, heap)
      else new_dict heap
  | None => new_dict heap
  end.

(** [build_message(message, message_type)]: the bytes, and the heap it
    leaves. *)
Definition build_message (settings : Settings) (message : option nat)
    (message_type : string) (heap : gmap nat pydict)
  : list byte * gmap nat pydict :=
  let '(message, heap) := or_new_dict message heap in
  let heap := setitem message "type" (PStr message_type) heap in
  let heap := setitem message "resource" (PStr (name settings)) heap in
  (str_encode (json_dumps (PDict (deref heap message))), heap).

(** What the two assignments of [build_message] make of a dict. *)
Definition envelope (settings : Settings) (message_type : string)
    (payload : pydict) : pydict :=
  dict_set "resource" (PStr (name settings))
    (dict_set "type" (PStr message_type) payload).

(** Modelled from the spec: [decode(bytes)], which is not in the sources
    at hand, is the inverse of the encoding; it fails when the bytes are
    not a serialized object or when the top-level value is not a mapping
    ([None] stands for that failure). *)
Definition decode (b : list byte) : option pydict :=
  match bytes_decode b with
  | Some s =>
      match json_loads s with
      | Some (PDict d) => Some d
      | _ => None
      end
  | None => None
  end.

(** 1.5 and 0.1 as floats. *)
Definition one_and_a_half : spec_float :=
  S754_finite false 6755399441055744 (- 52).

Definition one_tenth : spec_float :=
  S754_finite false 7205759403792794 (- 56).

(** Decimal numerals, digits and exponent, for floats of every kind: small
    whole numbers, fractions that are no binary fraction, the powers of
    ten around which [float.__repr__] changes its layout, the least
    subnormal float and the least normal one, the largest float, and whole
    numbers beyond 53 bits. *)
Definition float_samples : list (Z * Z) :=
  [(1, 0); (1, -1); (3, -1); (1, 22); (1, 23); (1, 16); (1, 17);
   (5, -324); (22250738585072014, -324);
   (17976931348623157, 292); (9007199254740993, 0);
   (123456789, -4); (1, -5); (1, -4); (314159265358979, -14);
   (12345678901234567890, 0); (72057594037927945, 0)].

(** A caller's payload with a nested mapping and its own [type] entry. *)
Definition sample_payload : pydict :=
  DCons "text" (PStr "hello")
    (DCons "type" (PStr "note")
       (DCons "meta" (PDict (DCons "seq" (PInt 7) DNil)) DNil)).

(** Text beyond ASCII, by its code points: a word with an accented
    letter (two bytes), and the euro sign (three bytes), a space and a
    character of a plane above the first (four bytes, written as two
    escapes). *)
Definition accented : string := str_of_code_points [99; 97; 102; 233]%N.

Definition wide_text : string := str_of_code_points [8364; 32; 128512]%N.

(** Two surrogates that are two characters of a [str], one after the
    other. *)
Definition two_surrogates : string := str_of_code_points [55357; 56832]%N.

(** A payload with floats and with text beyond ASCII. *)
Definition wide_payload : pydict :=
  DCons "ratio" (PFloat one_and_a_half)
    (DCons "tenth" (PFloat one_tenth)
       (DCons accented (PStr wide_text)
          (DCons "items" (PList (LCons (PInt (- 3)) (LCons PNone LNil)))
             DNil))).

(** A payload with an integer for a key, one with a tuple for a value,
    and one with those two surrogates for a value. *)
Definition int_key_payload : pydict := DCons (KInt 3) (PStr "int key") DNil.

Definition tuple_payload : pydict :=
  DCons "pair" (PTuple (LCons (PInt 1) (LCons (PInt 2) LNil))) DNil.

Definition surrogates_payload : pydict :=
  DCons "text" (PStr two_surrogates) DNil.

(** The settings of a resource named R. *)
Definition resource_R : Settings :=
  {| name := "R"; label := "demo"; layers := ["L0"; "L1"; "L2"] |}.

(** A heap with that payload at address 0, and one with an empty dict
    there. *)
Definition sample_heap : gmap nat pydict := {[ 0%nat := sample_payload ]}.

Definition empty_payload_heap : gmap nat pydict := {[ 0%nat := DNil ]}.

Definition wide_heap : gmap nat pydict := {[ 0%nat := wide_payload ]}.

Definition int_key_heap : gmap nat pydict := {[ 0%nat := int_key_payload ]}.

Definition tuple_heap : gmap nat pydict := {[ 0%nat := tuple_payload ]}.

Definition surrogates_heap : gmap nat pydict :=
  {[ 0%nat := surrogates_payload ]}.

(** *** Text *)

(** Whether [s] begins with the escape of a low surrogate, or with a
    [\u] that four hexadecimal digits do not follow. *)
Definition low_escape_ahead (s : string) : bool :=
  match s with
  | String b s1 =>
      Ascii.eqb b "\"
      && match s1 with
         | String u s2 =>
             Ascii.eqb u "u"
             && match s2 with
                | String g1 (String g2 (String g3 (String g4 _))) =>
                    match parse_hex4 g1 g2 g3 g4 with
                    | Some n => low_surrogate n
                    | None => true
                    end
                | _ => false
                end
         | EmptyString => false
         end
  | EmptyString => false
  end.

(** Whether every character of [s] is below 128. *)
Fixpoint ascii_text (s : string) : bool :=
  match s with
  | EmptyString => true
  | String c s' => N.ltb (N_of_ascii c) 128 && ascii_text s'
  end.

(** ** Pushes under several names *)

Section LocalQueueTraffic.

Context {Message : Type}.

(** Calls of [push_message_to_consumer_local_queue], each with its queue
    name, one after the other. *)
Definition push_each (pushes : list (string * Message))
    (consumer_local_queues : gmap string (list Message))
  : gmap string (list Message) :=
  fold_left
    (fun queues push =>
       push_message_to_consumer_local_queue (fst push) (snd push) queues)
    pushes consumer_local_queues.

(** The messages of those calls that went under [queue_name], in call
    order. *)
Definition pushed_under (queue_name : string)
    (pushes : list (string * Message)) : list Message :=
  omap (fun push =>
          if String.eqb (fst push) queue_name then Some (snd push) else None)
    pushes.

End LocalQueueTraffic.

(** ** The retry loops, once more *)

(** Whether attempt [a] of [try_queue_subscribe], begun with the channel
    closed or open, ends with a channel-closed failure: of
    [connection.channel()] when the channel has to be opened, else of
    [get_queue], else of [queue.consume]. *)
Definition subscribe_ends_channel_closed (a : attempt) (closed : bool)
  : bool :=
  match (if closed then on_channel a else Succeeds) with
  | Fails e => caught_by_retry e
  | Succeeds => queue_closed_failure a
  end.

(** The same for an attempt of [try_get_exchange]: of
    [connection.channel()], else of [get_exchange]. *)
Definition exchange_ends_channel_closed (a : attempt) (closed : bool)
  : bool :=
  match (if closed then on_channel a else Succeeds) with
  | Fails e => caught_by_retry e
  | Succeeds =>
      match on_lookup a with
      | Fails e => caught_by_retry e
      | Succeeds => false
      end
  end.

(** Whether every attempt of the script ends that way, the first begun
    with the channel as the call finds it, each later one with the
    channel as the failure before it has left it. *)
Fixpoint every_attempt (ends : attempt -> bool -> bool)
    (script : list attempt) (closed : bool) : bool :=
  match script with
  | [] => true
  | a :: script' =>
      ends a closed && every_attempt ends script' (closed_after a)
  end.

(** The broker finds the queue, refuses the consumer with a channel-closed
    failure and closes the channel. *)
Definition consume_closes_channel : attempt :=
  {| on_channel := Succeeds;
     on_lookup := Succeeds;
     on_consume := Fails (ChannelClosed "RESOURCE_LOCKED");
     closed_after := true |}.

(** An attempt on which opening a channel succeeds and after whose
    failure the channel is closed. *)
Definition reopens_and_closes (a : attempt) : bool :=
  match on_channel a with
  | Succeeds => closed_after a
  | Fails _ => false
  end.

(** The channels one attempt opens: one when it finds the channel closed
    and the connection gives a new one, none otherwise. *)
Definition opened_by (a : attempt) (self : Resource) : nat :=
  if is_closed (channel self)
  then match on_channel a with Succeeds => 1 | Fails _ => 0 end
  else 0.

(** An attempt on which every call succeeds, and after which the broker
    would have closed the channel had it failed. *)
Definition all_succeed_once : attempt :=
  {| on_channel := Succeeds; on_lookup := Succeeds; on_consume := Succeeds;
     closed_after := true |}.

(** ** Publishing *)

(** [aio_pika.DeliveryMode]: [NOT_PERSISTENT] is 1, [PERSISTENT] is 2. *)
Inductive DeliveryMode : Type :=
| NOT_PERSISTENT
| PERSISTENT.

(** An [aio_pika.Message], as far as [publish_message] sets it. *)
Record AmqpMessage := {
  body : list byte;
  delivery_mode : DeliveryMode
}.

(** [aio_pika.Message(body=..., delivery_mode=...)].  The constructor
    takes [DeliveryMode(int(delivery_mode))] when [delivery_mode] is true
    and [NOT_PERSISTENT] when it is [None] or zero; an integer that is no
    delivery mode makes it raise [ValueError]. *)
Definition Message (body : list byte) (delivery_mode : option Z)
  : result AmqpMessage :=
  match delivery_mode with
  | None | Some 0 =>
      Ok {| body := body; delivery_mode := NOT_PERSISTENT |}
  | Some 1 => Ok {| body := body; delivery_mode := NOT_PERSISTENT |}
  | Some 2 => Ok {| body := body; delivery_mode := PERSISTENT |}
  | Some mode =>
      Raise (OtherFailure "ValueError"
               (print_int mode " is not a valid DeliveryMode"))
  end.

(** A call of [exchange.publish]: the exchange, the message and the
    routing key it is called with. *)
Record publication := {
  via : Exchange;
  sent : AmqpMessage;
  routing_key : string
}.

Section Publish.

Variable QUEUE_SUBSCRIBE_RETRY_SECONDS : Z.

(** [publish_message(exchange_name, message, delivery_mode)], with the
    broker's answers to the resolution of the exchange ([script]) and to
    [exchange.publish] ([on_publish]); [outbox] holds the calls of
    [exchange.publish] made so far, whatever they were answered. *)
Definition publish_message (script : list attempt) (on_publish : answer)
    (exchange_name : string) (message : list byte) (delivery_mode : option Z)
    (self : Resource) (outbox : list publication)
  : run unit * Resource * list publication :=
  match try_get_exchange QUEUE_SUBSCRIBE_RETRY_SECONDS script exchange_name
          self with
  | (Returned exchange, self) =>
      match Message message delivery_mode with
      | Ok message =>
          let outbox :=
            (outbox ++ [{| via := exchange; sent := message;
                           routing_key := EmptyString |}])%list in
          match on_publish with
          | Succeeds => (Returned tt, self, outbox)
          | Fails e => (Raised e, self, outbox)
          end
      | Raise e => (Raised e, self, outbox)
      end
  | (Raised e, self) => (Raised e, self, outbox)
  | (Blocked, self) => (Blocked, self, outbox)
  | (OutOfFuel, self) => (OutOfFuel, self, outbox)
  end.

End Publish.

(** The default of [delivery_mode]: persistent. *)
Definition default_delivery_mode : option Z := Some 2.

(** ** The service around the bus *)

(** Modelled from the spec: [self.api_endpoint] is an [ApiEndpoint], which
    is not part of the sources at hand; the spec has it as an external
    collaborator that [stop] stops after the bus is disconnected.  All
    that is kept of it is how often its [stop_endpoint] has been called;
    what a call answers is given to the model. *)
Record Service := {
  resource : Resource;
  endpoint_stops : nat
}.

Definition SM (A : Type) : Type := Service -> result A * Service.

Definition sbind {A B} (m : SM A) (k : A -> SM B) : SM B :=
  fun service =>
    match m service with
    | (Ok a, service') => k a service'
    | (Raise e, service') => (Raise e, service')
    end.

(** A step of the resource, within the service. *)
Definition on_resource {A} (m : M A) : SM A :=
  fun service =>
    let '(r, self) := m (resource service) in
    (r, {| resource := self; endpoint_stops := endpoint_stops service |}).

(** Modelled from the spec: [self.api_endpoint.stop_endpoint()]; the call
    is counted, and returns or raises as the answer says. *)
Definition stop_endpoint (a : answer) : SM unit :=
  fun service =>
    let service :=
      {| resource := resource service;
         endpoint_stops := S (endpoint_stops service) |} in
    match a with
    | Succeeds => (Ok tt, service)
    | Fails e => (Raise e, service)
    end.

Section Shutdown.

Variable outcome_of : coroutine -> answer.
Variable suspends : coroutine -> bool.
Variable on_stop : answer.

Definition shutdown_service : SM unit :=
  sbind (on_resource (log DEBUG)) (fun _ =>
  sbind (on_resource (disconnect_busses outcome_of suspends)) (fun _ =>
  stop_endpoint on_stop)).

Definition stop_resource : SM unit :=
  sbind (on_resource (log INFO)) (fun _ =>
  sbind shutdown_service (fun _ =>
  on_resource (log INFO))).

End Shutdown.

(** The service after [start_resource]: the bus loop is running. *)
Definition running_service : Service :=
  {| resource := bus_running; endpoint_stops := 0 |}.

(** A service whose bus loop has come to rest with the connection still
    up. *)
Definition resting_service : Service :=
  {| resource := connected; endpoint_stops := 0 |}.

(** A teardown in which closing the channel fails. *)
Definition channel_close_fails : coroutine -> answer :=
  fun c =>
    match c with
    | channel_close => Fails (OtherFailure "ConnectionError" "reset")
    | _ => Succeeds
    end.

(** ** The status mapping *)

(** [return_status(up, data)]: the address of the mapping returned, and
    the heap the call leaves. *)
Definition return_status (up : pyvalue) (data : option nat)
    (heap : gmap nat pydict) : nat * gmap nat pydict :=
  let '(data, heap) := or_new_dict data heap in
  let heap := setitem data "up" up heap in
  (data, heap).

(** The mapping [return_status] starts from: the one passed, or none. *)
Definition status_data (data : option nat) (heap : gmap nat pydict) : pydict :=
  match data with
  | Some address => deref heap address
  | None => DNil
  end.

(** A status payload, in a heap of its own. *)
Definition status_heap : gmap nat pydict :=
  {[ 0%nat := DCons "queue_depth" (PInt 3) (DCons "up" (PBool false) DNil) ]}.

(** * Properties *)

(** ** Topology resolver *)

Lemma str_truthy_true (s : string) : str_truthy s = true <-> s <> EmptyString.
Proof. destruct s; simpl; split; congruence. Qed.

Lemma str_in_orientations (direction : string) :
  str_in direction constants.LAYER_ORIENTATIONS = true
  <-> direction = "southbound" \/ direction = "northbound".
Proof.
  unfold str_in, constants.LAYER_ORIENTATIONS. simpl.
  rewrite !orb_true_iff, !String.eqb_eq. intuition congruence.
Qed.

(** C5. [is_existant_layer_queue] answers [False] exactly for the
    southbound queue of index 0 and for the northbound queue of the last
    index [len(layers) - 1], and [True] for every other direction and
    index. *)
Theorem is_existant_layer_queue_spec (settings : Settings)
    (orientation : string) (idx : Z) :
  (is_existant_layer_queue settings orientation idx = false
   <-> (orientation = "southbound" /\ idx = 0)
       \/ (orientation = "northbound" /\ idx = len (layers settings) - 1))
  /\ (is_existant_layer_queue settings orientation idx = true
      <-> ~ ((orientation = "southbound" /\ idx = 0)
             \/ (orientation = "northbound"
                 /\ idx = len (layers settings) - 1))).
Proof.
  unfold is_existant_layer_queue.
  destruct (String.eqb_spec orientation "southbound") as [Hs | Hs];
    destruct (String.eqb_spec orientation "northbound") as [Hn | Hn];
    destruct (Z.eqb_spec idx 0) as [H0 | H0];
    destruct (Z.eqb_spec idx (len (layers settings) - 1)) as [Hl | Hl];
    simpl; (split; split); try intuition congruence.
Qed.

(** C6. [build_queue_name] gives [direction.layer] when the layer is not
    empty and the direction is southbound or northbound, and [None] in
    every other case; [build_exchange_name] is that name behind
    [exchange.] when there is one, and [None] exactly when there is
    none.  Both are total: no input makes them raise. *)
Theorem build_names_spec (direction layer : string) :
  (layer <> EmptyString /\ (direction = "southbound" \/ direction = "northbound")
   -> build_queue_name direction layer = Some (direction ++ "." ++ layer))
  /\ (~ (layer <> EmptyString /\ (direction = "southbound" \/ direction = "northbound"))
      -> build_queue_name direction layer = None)
  /\ (forall queue, build_queue_name direction layer = Some queue
      -> build_exchange_name direction layer = Some ("exchange." ++ queue))
  /\ (build_exchange_name direction layer = None
      <-> build_queue_name direction layer = None).
Proof.
  unfold build_exchange_name, build_queue_name.
  destruct (str_truthy layer) eqn:Hl;
    destruct (str_in direction constants.LAYER_ORIENTATIONS) eqn:Hd; simpl.
  - apply str_truthy_true in Hl. apply str_in_orientations in Hd.
    assert (Ht : str_truthy (direction ++ "." ++ layer) = true)
      by (destruct direction; reflexivity).
    repeat split; intros; try tauto.
    + match goal with H : Some _ = Some _ |- _ => injection H as <- end.
      now rewrite Ht.
    + rewrite Ht in *. congruence.
    + congruence.
  - apply not_true_iff_false in Hd. rewrite str_in_orientations in Hd.
    repeat split; intros; try congruence; tauto.
  - apply not_true_iff_false in Hl. rewrite str_truthy_true in Hl.
    repeat split; intros; try congruence; tauto.
  - apply not_true_iff_false in Hl. rewrite str_truthy_true in Hl.
    repeat split; intros; try congruence; tauto.
Qed.

Lemma is_existant_layer_queue_spec_witness :
  is_existant_layer_queue three_layers "northbound" 2 = false
  /\ is_existant_layer_queue three_layers "southbound" 2 = true.
Proof.
  split.
  - apply (proj1 (is_existant_layer_queue_spec three_layers "northbound" 2)).
    right. split; reflexivity.
  - apply (proj2 (is_existant_layer_queue_spec three_layers "southbound" 2)).
    intros [[_ H] | [H _]]; discriminate.
Defined.

Lemma build_names_spec_witness :
  build_queue_name "southbound" "L1" = Some "southbound.L1"
  /\ build_exchange_name "southbound" "L1" = Some "exchange.southbound.L1"
  /\ build_queue_name "eastbound" "L1" = None.
Proof.
  destruct (build_names_spec "southbound" "L1") as (Hq & _ & Hx & _).
  destruct (build_names_spec "eastbound" "L1") as (_ & Hnone & _).
  split; [| split].
  - apply Hq. split; [discriminate | now left].
  - apply (Hx "southbound.L1"). apply Hq. split; [discriminate | now left].
  - apply Hnone. intros [_ [H | H]]; discriminate.
Defined.

(** C4. Over the layers L0, L1, L2 [build_all_layer_queue_names] yields
    southbound.L1, southbound.L2, northbound.L0, northbound.L1, in that
    order and nothing else. *)
Theorem build_all_layer_queue_names_three :
  build_all_layer_queue_names three_layers
  = [Some "southbound.L1"; Some "southbound.L2";
     Some "northbound.L0"; Some "northbound.L1"].
Proof. reflexivity. Qed.

Lemma southbound_exists (settings : Settings) (idx : Z) :
  is_existant_layer_queue settings "southbound" idx = negb (Z.eqb idx 0).
Proof. unfold is_existant_layer_queue. simpl. now destruct (Z.eqb idx 0). Qed.

Lemma northbound_exists (settings : Settings) (idx : Z) :
  is_existant_layer_queue settings "northbound" idx
  = negb (Z.eqb idx (len (layers settings) - 1)).
Proof.
  unfold is_existant_layer_queue. simpl.
  now destruct (Z.eqb idx (len (layers settings) - 1)).
Qed.

(** Southbound: every layer past index 0 adds its queue. *)
Lemma layer_loop_southbound (settings : Settings) (l : list string) :
  forall (k : Z) (acc : list (option string)),
    0 <= k ->
    layer_loop settings "southbound" (enumerate_from k l) acc
    = (acc ++ map (build_queue_name "southbound")
                (if Z.eqb k 0 then tail l else l))%list.
Proof.
  induction l as [| x l IH]; intros k acc Hk; simpl.
  - destruct (Z.eqb k 0); simpl; now rewrite app_nil_r.
  - rewrite southbound_exists, IH by lia.
    destruct (Z.eqb_spec (k + 1) 0) as [E | _]; [lia |].
    destruct (Z.eqb k 0); simpl; [reflexivity |].
    now rewrite <- app_assoc.
Qed.

(** Northbound: every layer before the last index adds its queue. *)
Lemma layer_loop_northbound (settings : Settings) (l : list string) :
  forall (k : Z) (acc : list (option string)),
    k + len l = len (layers settings) ->
    layer_loop settings "northbound" (enumerate_from k l) acc
    = (acc ++ map (build_queue_name "northbound") (removelast l))%list.
Proof.
  unfold len.
  induction l as [| x l IH]; intros k acc Hk.
  - simpl. now rewrite app_nil_r.
  - cbn [enumerate_from layer_loop]. rewrite northbound_exists.
    destruct l as [| y l].
    + cbn [enumerate_from layer_loop removelast map].
      unfold len. simpl length in Hk.
      destruct (Z.eqb_spec k (Z.of_nat (length (layers settings)) - 1));
        [| lia].
      cbn [negb]. now rewrite app_nil_r.
    + rewrite IH by (simpl length in *; lia).
      unfold len. simpl length in Hk.
      destruct (Z.eqb_spec k (Z.of_nat (length (layers settings)) - 1));
        [lia |].
      cbn [negb removelast map]. now rewrite <- app_assoc.
Qed.

(** The queue names in closed form: the southbound queues of all layers
    but the first, then the northbound queues of all layers but the
    last. *)
Lemma build_all_layer_queue_names_closed (settings : Settings) :
  build_all_layer_queue_names settings
  = (map (build_queue_name "southbound") (tail (layers settings))
     ++ map (build_queue_name "northbound") (removelast (layers settings)))%list.
Proof.
  unfold build_all_layer_queue_names, constants.LAYER_ORIENTATIONS.
  cbn [orientation_loop]. unfold enumerate.
  rewrite layer_loop_southbound by lia.
  rewrite layer_loop_northbound by lia.
  reflexivity.
Qed.

Lemma length_removelast {A} (l : list A) :
  length (removelast l) = pred (length l).
Proof.
  induction l as [| x [| y l] IH]; [reflexivity | reflexivity |].
  change (removelast (x :: y :: l)) with (x :: removelast (y :: l)).
  simpl length in *. now rewrite IH.
Qed.

Lemma length_tail {A} (l : list A) : length (tail l) = pred (length l).
Proof. now destruct l. Qed.

Lemma build_queue_name_known (direction layer : string) :
  layer <> EmptyString ->
  direction = "southbound" \/ direction = "northbound" ->
  build_queue_name direction layer = Some (direction ++ "." ++ layer).
Proof.
  intros Hl Hd. unfold build_queue_name.
  apply str_truthy_true in Hl. apply str_in_orientations in Hd.
  now rewrite Hl, Hd.
Qed.

(** C9. Over [n >= 1] layers with non-empty names,
    [build_all_layer_queue_names] returns [2 * (n - 1)] names: the [n - 1]
    southbound ones followed by the [n - 1] northbound ones, each a proper
    name; over a single layer it returns the empty list. *)
Theorem build_all_layer_queue_names_count (settings : Settings) :
  1 <= len (layers settings) ->
  Forall (fun layer => layer <> EmptyString) (layers settings) ->
  exists southbound northbound : list string,
    build_all_layer_queue_names settings
    = (map Some southbound ++ map Some northbound)%list
    /\ southbound = map (fun layer => "southbound." ++ layer)
                      (tail (layers settings))
    /\ northbound = map (fun layer => "northbound." ++ layer)
                      (removelast (layers settings))
    /\ len southbound = len (layers settings) - 1
    /\ len northbound = len (layers settings) - 1
    /\ len (build_all_layer_queue_names settings)
       = 2 * (len (layers settings) - 1)
    /\ (len (layers settings) = 1
        -> build_all_layer_queue_names settings = []).
Proof.
  intros Hn Hne.
  assert (Hs : map (build_queue_name "southbound") (tail (layers settings))
               = map Some (map (fun layer => "southbound." ++ layer)
                             (tail (layers settings)))).
  { rewrite map_map. apply map_ext_in. intros layer Hin.
    apply build_queue_name_known; [| now left].
    rewrite Forall_forall in Hne. apply Hne, list_elem_of_In.
    destruct (layers settings); [destruct Hin | now right]. }
  assert (Hnb : map (build_queue_name "northbound")
                  (removelast (layers settings))
                = map Some (map (fun layer => "northbound." ++ layer)
                              (removelast (layers settings)))).
  { rewrite map_map. apply map_ext_in. intros layer Hin.
    apply build_queue_name_known; [| now right].
    rewrite Forall_forall in Hne. apply Hne, list_elem_of_In.
    clear - Hin. induction (layers settings) as [| x [| y l] IH];
      [destruct Hin | destruct Hin |].
    change (removelast (x :: y :: l)) with (x :: removelast (y :: l)) in Hin.
    destruct Hin as [<- | Hin]; [now left | right; auto]. }
  exists (map (fun layer => "southbound." ++ layer) (tail (layers settings))),
    (map (fun layer => "northbound." ++ layer) (removelast (layers settings))).
  rewrite build_all_layer_queue_names_closed, Hs, Hnb.
  unfold len in *.
  rewrite length_app, !length_map, length_tail, length_removelast.
  repeat split; try lia.
  intros H1. destruct (layers settings) as [| x [| y l]];
    simpl length in *; try lia. reflexivity.
Qed.

Lemma build_all_layer_queue_names_count_witness :
  exists southbound northbound : list string,
    build_all_layer_queue_names three_layers
    = (map Some southbound ++ map Some northbound)%list
    /\ southbound = map (fun layer => "southbound." ++ layer)
                      (tail (layers three_layers))
    /\ northbound = map (fun layer => "northbound." ++ layer)
                      (removelast (layers three_layers))
    /\ len southbound = len (layers three_layers) - 1
    /\ len northbound = len (layers three_layers) - 1
    /\ len (build_all_layer_queue_names three_layers)
       = 2 * (len (layers three_layers) - 1)
    /\ (len (layers three_layers) = 1
        -> build_all_layer_queue_names three_layers = []).
Proof.
  apply (build_all_layer_queue_names_count three_layers).
  - vm_compute. congruence.
  - repeat constructor; discriminate.
Defined.

(** ** Consumer-local queues *)

Section LocalQueueFacts.

Context {Message : Type}.
Implicit Types (queues : gmap string (list Message)).
Implicit Types (messages queue : list Message).

Lemma pending_push (queue_name : string) (message : Message) queues :
  pending queue_name
    (push_message_to_consumer_local_queue queue_name message queues)
  = (pending queue_name queues ++ [message])%list.
Proof.
  unfold pending, push_message_to_consumer_local_queue,
    get_consumer_local_queue, queue_put.
  destruct (queues !! queue_name) as [queue |] eqn:Hq; simpl;
    now rewrite lookup_insert_eq.
Qed.

Lemma pending_push_all (queue_name : string) messages :
  forall queues,
    pending queue_name (push_all queue_name messages queues)
    = (pending queue_name queues ++ messages)%list.
Proof.
  unfold push_all.
  induction messages as [| message messages IH]; intros queues; simpl.
  - now rewrite app_nil_r.
  - rewrite IH, pending_push, <- app_assoc. reflexivity.
Qed.

(** With more fuel than messages the loop empties the queue and never
    reaches a blocking [get]. *)
Lemma drain_loop_returns (fuel : nat) :
  forall queue messages,
    (length queue < fuel)%nat ->
    drain_loop fuel queue messages = Returned ((messages ++ queue)%list, []).
Proof.
  induction fuel as [| fuel IH]; intros queue messages Hfuel; [lia |].
  destruct queue as [| message queue]; simpl.
  - now rewrite app_nil_r.
  - rewrite IH by (simpl in Hfuel; lia). now rewrite <- app_assoc.
Qed.

Lemma get_messages_returns (fuel : nat) (queue_name : string) queues :
  (length (pending queue_name queues) < fuel)%nat ->
  get_messages_from_consumer_local_queue fuel queue_name queues
  = Returned (pending queue_name queues, <[queue_name := []]> queues).
Proof.
  unfold get_messages_from_consumer_local_queue, get_consumer_local_queue,
    pending.
  destruct (queues !! queue_name) as [queue |] eqn:Hq; simpl; intros Hfuel.
  - now rewrite drain_loop_returns.
  - rewrite drain_loop_returns by assumption. simpl.
    now rewrite insert_insert_eq.
Qed.

(** C8. After [N] pushes under a name that had nothing waiting, one call
    of [get_messages_from_consumer_local_queue] returns those [N]
    messages in the order they were pushed, and the next call on the
    same name returns the empty list; neither call blocks, and the loop
    of each ends. *)
Theorem drain_returns_pushed_in_order (queue_name : string) messages queues
    (fuel : nat) :
  pending queue_name queues = [] ->
  (length messages < fuel)%nat ->
  exists drained,
    get_messages_from_consumer_local_queue fuel queue_name
      (push_all queue_name messages queues)
    = Returned (messages, drained)
    /\ exists drained',
        get_messages_from_consumer_local_queue fuel queue_name drained
        = Returned ([], drained').
Proof.
  intros Hempty Hfuel.
  eexists. split.
  - rewrite get_messages_returns.
    + rewrite pending_push_all, Hempty. reflexivity.
    + rewrite pending_push_all, Hempty. simpl. assumption.
  - eexists. rewrite get_messages_returns.
    + unfold pending. rewrite lookup_insert_eq. reflexivity.
    + unfold pending. rewrite lookup_insert_eq. simpl. lia.
Qed.

End LocalQueueFacts.

Lemma drain_returns_pushed_in_order_witness :
  exists drained,
    get_messages_from_consumer_local_queue 4 "northbound.L0"
      (push_all "northbound.L0" ["a"; "b"; "c"] (∅ : gmap string (list string)))
    = Returned (["a"; "b"; "c"], drained)
    /\ exists drained',
        get_messages_from_consumer_local_queue 4 "northbound.L0" drained
        = Returned ([], drained').
Proof.
  apply (drain_returns_pushed_in_order "northbound.L0" ["a"; "b"; "c"] ∅ 4).
  - reflexivity.
  - simpl. lia.
Defined.

(** ** The retry loops *)

Example subscribe_twice_closed_then_ok :
  let '(o, self) :=
    try_queue_subscribe 5 [lookup_closes_channel; lookup_closes_channel; all_succeed]
      "southbound.L1" "on_message" connected in
  o = Returned tt
  /\ journal self
     = [Logged DEBUG; Logged WARNING; Slept 5;
        Logged DEBUG; Logged INFO; ChannelOpened 2; Logged WARNING; Slept 5;
        Logged DEBUG; Logged INFO; ChannelOpened 3;
        QueueFound "southbound.L1" 3;
        ConsumerAttached "southbound.L1" "on_message" 3; Logged INFO].
Proof. vm_compute. split; reflexivity. Qed.

(** C1, as the specification words it, fails when the channel is already
    closed at the call: the subscription raises a channel-closed failure
    twice and then succeeds, no error reaches the caller, and three
    channels have been opened, one at each attempt. *)
Lemma subscribe_closed_at_call_opens_three :
  exists self,
    try_queue_subscribe 5
      [lookup_closes_channel; lookup_closes_channel; all_succeed]
      "southbound.L1" "on_message" connected_channel_closed
    = (Returned tt, self)
    /\ caught_failures (journal self) = 2%nat
    /\ recreations (journal self) = 3%nat
    /\ recreations (journal self) <> 2%nat.
Proof. eexists. vm_compute. repeat split. discriminate. Qed.

Section RetryFacts.

Variable QUEUE_SUBSCRIBE_RETRY_SECONDS : Z.

(** What an attempt writes to the journal: no warning and no pause. *)
Lemma subscribe_attempt_journal (a : attempt) (queue_name callback : string)
    (self : Resource) :
  exists new,
    journal (snd ((log DEBUG ;;; subscribe_attempt a queue_name callback) self))
    = (journal self ++ new)%list
    /\ caught_failures new = 0%nat /\ pauses new = [].
Proof.
  destruct self as [loop [cc opened] [n closed] j], a as [c l s k].
  unfold subscribe_attempt, reopen_if_closed.
  destruct closed, c as [| e1], l as [| e2], s as [| e3]; simpl.
  all: eexists; rewrite <- ?app_assoc; split; [reflexivity |]; now split.
Qed.

Lemma exchange_attempt_journal (a : attempt) (exchange_name : string)
    (self : Resource) :
  exists new,
    journal (snd ((log DEBUG ;;; exchange_attempt a exchange_name) self))
    = (journal self ++ new)%list
    /\ caught_failures new = 0%nat /\ pauses new = [].
Proof.
  destruct self as [loop [cc opened] [n closed] j], a as [c l s k].
  unfold exchange_attempt, reopen_if_closed.
  destruct closed, c as [| e1], l as [| e2]; simpl.
  all: eexists; rewrite <- ?app_assoc; split; [reflexivity |]; now split.
Qed.

Lemma caught_failures_app (j1 j2 : list event) :
  caught_failures (j1 ++ j2) = (caught_failures j1 + caught_failures j2)%nat.
Proof. unfold caught_failures. now rewrite List.filter_app, length_app. Qed.

Lemma pauses_app (j1 j2 : list event) :
  pauses (j1 ++ j2) = (pauses j1 ++ pauses j2)%list.
Proof. apply omap_app. Qed.

(** Every failure caught by [try_queue_subscribe] is followed by one pause
    of the configured length, and nothing else pauses. *)
Lemma subscribe_pauses (script : list attempt) (queue_name callback : string) :
  forall self : Resource,
  exists new,
    journal (snd (try_queue_subscribe QUEUE_SUBSCRIBE_RETRY_SECONDS script
                    queue_name callback self))
    = (journal self ++ new)%list
    /\ pauses new
       = replicate (caught_failures new) QUEUE_SUBSCRIBE_RETRY_SECONDS.
Proof.
  induction script as [| a script IH]; intros self.
  - exists []. simpl. now rewrite app_nil_r.
  - destruct (subscribe_attempt_journal a queue_name callback self)
      as (new1 & Hj & Hc & Hp).
    cbn [try_queue_subscribe].
    destruct ((log DEBUG;;; subscribe_attempt a queue_name callback) self)
      as [[[] | e] self1]; cbn [snd] in *.
    + exists new1. now rewrite Hc, Hp.
    + destruct (caught_by_retry e).
      * destruct (IH (snd (backoff QUEUE_SUBSCRIBE_RETRY_SECONDS
                             (broker_leaves a self1))))
          as (new2 & Hj2 & Hp2).
        exists (new1 ++ [Logged WARNING; Slept QUEUE_SUBSCRIBE_RETRY_SECONDS]
                ++ new2)%list.
        rewrite Hj2. cbn [backoff journal snd]. simpl. rewrite Hj.
        rewrite <- !app_assoc. split; [reflexivity |].
        rewrite !pauses_app, !caught_failures_app, Hp, Hc.
        change (pauses (Logged WARNING
                        :: Slept QUEUE_SUBSCRIBE_RETRY_SECONDS :: new2))
          with (QUEUE_SUBSCRIBE_RETRY_SECONDS :: pauses new2).
        change (caught_failures (Logged WARNING
                        :: Slept QUEUE_SUBSCRIBE_RETRY_SECONDS :: new2))
          with (S (caught_failures new2)).
        rewrite Hp2. reflexivity.
      * exists new1. simpl. now rewrite Hc, Hp.
Qed.

Lemma exchange_pauses (script : list attempt) (exchange_name : string) :
  forall self : Resource,
  exists new,
    journal (snd (try_get_exchange QUEUE_SUBSCRIBE_RETRY_SECONDS script
                    exchange_name self))
    = (journal self ++ new)%list
    /\ pauses new
       = replicate (caught_failures new) QUEUE_SUBSCRIBE_RETRY_SECONDS.
Proof.
  induction script as [| a script IH]; intros self.
  - exists []. simpl. now rewrite app_nil_r.
  - destruct (exchange_attempt_journal a exchange_name self)
      as (new1 & Hj & Hc & Hp).
    cbn [try_get_exchange].
    destruct ((log DEBUG;;; exchange_attempt a exchange_name) self)
      as [[x | e] self1]; cbn [snd] in *.
    + exists new1. now rewrite Hc, Hp.
    + destruct (caught_by_retry e).
      * destruct (IH (snd (backoff QUEUE_SUBSCRIBE_RETRY_SECONDS
                             (broker_leaves a self1))))
          as (new2 & Hj2 & Hp2).
        exists (new1 ++ [Logged WARNING; Slept QUEUE_SUBSCRIBE_RETRY_SECONDS]
                ++ new2)%list.
        rewrite Hj2. cbn [backoff journal snd]. simpl. rewrite Hj.
        rewrite <- !app_assoc. split; [reflexivity |].
        rewrite !pauses_app, !caught_failures_app, Hp, Hc.
        change (pauses (Logged WARNING
                        :: Slept QUEUE_SUBSCRIBE_RETRY_SECONDS :: new2))
          with (QUEUE_SUBSCRIBE_RETRY_SECONDS :: pauses new2).
        change (caught_failures (Logged WARNING
                        :: Slept QUEUE_SUBSCRIBE_RETRY_SECONDS :: new2))
          with (S (caught_failures new2)).
        rewrite Hp2. reflexivity.
      * exists new1. simpl. now rewrite Hc, Hp.
Qed.

(** A channel-closed failure never leaves the loops. *)
Lemma subscribe_raises_uncaught (script : list attempt)
    (queue_name callback : string) :
  forall (self self' : Resource) (e : exn),
    try_queue_subscribe QUEUE_SUBSCRIBE_RETRY_SECONDS script queue_name
      callback self = (Raised e, self') ->
    caught_by_retry e = false.
Proof.
  induction script as [| a script IH]; intros self self' e; [discriminate |].
  cbn [try_queue_subscribe].
  destruct ((log DEBUG;;; subscribe_attempt a queue_name callback) self)
    as [[[] | e1] self1]; [discriminate |].
  destruct (caught_by_retry e1) eqn:He1.
  - apply IH.
  - now intros [= <- _].
Qed.

Lemma exchange_raises_uncaught (script : list attempt)
    (exchange_name : string) :
  forall (self self' : Resource) (e : exn),
    try_get_exchange QUEUE_SUBSCRIBE_RETRY_SECONDS script exchange_name self
    = (Raised e, self') ->
    caught_by_retry e = false.
Proof.
  induction script as [| a script IH]; intros self self' e; [discriminate |].
  cbn [try_get_exchange].
  destruct ((log DEBUG;;; exchange_attempt a exchange_name) self)
    as [[x | e1] self1]; [discriminate |].
  destruct (caught_by_retry e1) eqn:He1.
  - apply IH.
  - now intros [= <- _].
Qed.

Lemma recreations_app (j1 j2 : list event) :
  recreations (j1 ++ j2) = (recreations j1 + recreations j2)%nat.
Proof. unfold recreations. now rewrite List.filter_app, length_app. Qed.

Lemma attachments_app (j1 j2 : list event) :
  attachments (j1 ++ j2) = (attachments j1 ++ attachments j2)%list.
Proof. apply omap_app. Qed.

(** One turn of [try_queue_subscribe] on which the broker closes the
    channel under the queue: a channel is opened first when the channel
    was closed, the failure is caught, and the loop goes on after one
    pause, with the channel closed. *)
Lemma subscribe_retry_step (a : attempt) (script : list attempt)
    (queue_name callback : string) (self : Resource) :
  queue_closed_failure a = true ->
  (is_closed (channel self) = true -> on_channel a = Succeeds) ->
  closed_after a = true ->
  exists (self' : Resource) (new : list event),
    try_queue_subscribe QUEUE_SUBSCRIBE_RETRY_SECONDS (a :: script)
      queue_name callback self
    = try_queue_subscribe QUEUE_SUBSCRIBE_RETRY_SECONDS script
        queue_name callback self'
    /\ is_closed (channel self') = true
    /\ channels_opened (connection self')
       = (if is_closed (channel self)
          then S (channels_opened (connection self))
          else channels_opened (connection self))
    /\ journal self' = (journal self ++ new)%list
    /\ caught_failures new = 1%nat
    /\ pauses new = [QUEUE_SUBSCRIBE_RETRY_SECONDS]
    /\ attachments new = []
    /\ recreations new = (if is_closed (channel self) then 1 else 0)%nat.
Proof.
  destruct self as [loop [cc opened] [n closed] j], a as [c l s k].
  unfold queue_closed_failure.
  cbn [is_closed channel on_channel on_lookup on_consume closed_after].
  intros Hfail Hchannel ->.
  destruct closed; [rewrite (Hchannel eq_refl) |];
    (destruct l as [| [t | ? ?]]; [| | discriminate]);
    try (destruct s as [| [u | ? ?]]; try discriminate).
  all: eexists; eexists; split; [reflexivity |].
  all: simpl; rewrite <- ?app_assoc.
  all: repeat split.
Qed.

(** The turn on which everything succeeds, from a closed channel: a
    channel is opened, the callback is attached on it, and the call
    returns. *)
Lemma subscribe_success_step (a : attempt) (script : list attempt)
    (queue_name callback : string) (self : Resource) :
  is_closed (channel self) = true ->
  on_channel a = Succeeds -> on_lookup a = Succeeds ->
  on_consume a = Succeeds ->
  exists (self' : Resource) (new : list event),
    try_queue_subscribe QUEUE_SUBSCRIBE_RETRY_SECONDS (a :: script)
      queue_name callback self
    = (Returned tt, self')
    /\ channel self'
       = {| number := S (channels_opened (connection self));
            is_closed := false |}
    /\ journal self' = (journal self ++ new)%list
    /\ caught_failures new = 0%nat
    /\ pauses new = []
    /\ attachments new
       = [(queue_name, callback, S (channels_opened (connection self)))]
    /\ recreations new = 1%nat.
Proof.
  destruct self as [loop [cc opened] [n closed] j], a as [c l s k].
  cbn [is_closed channel on_channel on_lookup on_consume].
  intros -> -> -> ->.
  eexists; eexists; split; [reflexivity |].
  simpl; rewrite <- ?app_assoc. repeat split.
Qed.

(** C1. When the channel is open at the call, the first two attempts
    fail on the queue with a channel-closed failure that leaves the
    channel closed, and the third attempt succeeds, then
    [try_queue_subscribe] returns normally, having caught two failures,
    paused twice, opened exactly two channels and attached the callback
    once, on the channel opened by the third attempt. *)
Theorem subscribe_two_closures_two_recreations
    (a1 a2 a3 : attempt) (rest : list attempt)
    (queue_name callback : string) (self : Resource) :
  is_closed (channel self) = false ->
  queue_closed_failure a1 = true -> closed_after a1 = true ->
  on_channel a2 = Succeeds ->
  queue_closed_failure a2 = true -> closed_after a2 = true ->
  on_channel a3 = Succeeds ->
  on_lookup a3 = Succeeds -> on_consume a3 = Succeeds ->
  exists (self' : Resource) (new : list event),
    try_queue_subscribe QUEUE_SUBSCRIBE_RETRY_SECONDS
      (a1 :: a2 :: a3 :: rest) queue_name callback self
    = (Returned tt, self')
    /\ journal self' = (journal self ++ new)%list
    /\ caught_failures new = 2%nat
    /\ recreations new = 2%nat
    /\ pauses new
       = [QUEUE_SUBSCRIBE_RETRY_SECONDS; QUEUE_SUBSCRIBE_RETRY_SECONDS]
    /\ channel self'
       = {| number := S (S (channels_opened (connection self)));
            is_closed := false |}
    /\ attachments new
       = [(queue_name, callback, S (S (channels_opened (connection self))))].
Proof.
  intros Hopen Hf1 Hc1 Hch2 Hf2 Hc2 Hch3 Hl3 Hs3.
  assert (Hch1 : is_closed (channel self) = true -> on_channel a1 = Succeeds)
    by congruence.
  destruct (subscribe_retry_step a1 (a2 :: a3 :: rest) queue_name callback
              self Hf1 Hch1 Hc1)
    as (self1 & new1 & Hrun1 & Hclosed1 & Hopened1 & Hj1 & Hcf1 & Hp1 & Hat1
        & Hre1).
  destruct (subscribe_retry_step a2 (a3 :: rest) queue_name callback
              self1 Hf2 (fun _ => Hch2) Hc2)
    as (self2 & new2 & Hrun2 & Hclosed2 & Hopened2 & Hj2 & Hcf2 & Hp2 & Hat2
        & Hre2).
  destruct (subscribe_success_step a3 rest queue_name callback self2
              Hclosed2 Hch3 Hl3 Hs3)
    as (self3 & new3 & Hrun3 & Hchan3 & Hj3 & Hcf3 & Hp3 & Hat3 & Hre3).
  rewrite Hopen in *. rewrite Hclosed1 in *.
  exists self3, (new1 ++ new2 ++ new3)%list.
  rewrite Hrun1, Hrun2, Hrun3, Hj3, Hj2, Hj1, Hchan3, Hopened2, Hopened1.
  rewrite !caught_failures_app, !recreations_app, !pauses_app,
    !attachments_app, <- !app_assoc.
  rewrite Hcf1, Hcf2, Hcf3, Hre1, Hre2, Hre3, Hp1, Hp2, Hp3, Hat1, Hat2, Hat3.
  rewrite Hopened2, Hopened1.
  repeat split.
Qed.

(** C2. In [try_queue_subscribe] and in [try_get_exchange] alike: an
    attempt that raises a channel-closed failure is followed by one
    warning and one pause of the configured length, and then by the next
    attempt; an attempt that raises anything else ends the call at once
    with that exception, without warning, pause or further attempt; so no
    channel-closed failure ever reaches the caller, and the pauses in the
    journal are exactly one of the configured length per caught
    failure. *)
Theorem retry_catches_only_channel_closed :
  (forall (a : attempt) (script : list attempt) (queue_name callback : string)
          (self self1 : Resource) (e : exn),
      (log DEBUG ;;; subscribe_attempt a queue_name callback) self
      = (Raise e, self1) ->
      (caught_by_retry e = true ->
       try_queue_subscribe QUEUE_SUBSCRIBE_RETRY_SECONDS (a :: script)
         queue_name callback self
       = try_queue_subscribe QUEUE_SUBSCRIBE_RETRY_SECONDS script
           queue_name callback
           (record (Slept QUEUE_SUBSCRIBE_RETRY_SECONDS)
              (record (Logged WARNING) (broker_leaves a self1))))
      /\ (caught_by_retry e = false ->
          try_queue_subscribe QUEUE_SUBSCRIBE_RETRY_SECONDS (a :: script)
            queue_name callback self
          = (Raised e, broker_leaves a self1)))
  /\ (forall (a : attempt) (script : list attempt) (exchange_name : string)
             (self self1 : Resource) (e : exn),
         (log DEBUG ;;; exchange_attempt a exchange_name) self
         = (Raise e, self1) ->
         (caught_by_retry e = true ->
          try_get_exchange QUEUE_SUBSCRIBE_RETRY_SECONDS (a :: script)
            exchange_name self
          = try_get_exchange QUEUE_SUBSCRIBE_RETRY_SECONDS script
              exchange_name
              (record (Slept QUEUE_SUBSCRIBE_RETRY_SECONDS)
                 (record (Logged WARNING) (broker_leaves a self1))))
         /\ (caught_by_retry e = false ->
             try_get_exchange QUEUE_SUBSCRIBE_RETRY_SECONDS (a :: script)
               exchange_name self
             = (Raised e, broker_leaves a self1)))
  /\ (forall (script : list attempt) (queue_name callback : string)
             (self : Resource),
         (forall e self',
             try_queue_subscribe QUEUE_SUBSCRIBE_RETRY_SECONDS script
               queue_name callback self = (Raised e, self') ->
             caught_by_retry e = false)
         /\ exists new,
             journal (snd (try_queue_subscribe QUEUE_SUBSCRIBE_RETRY_SECONDS
                             script queue_name callback self))
             = (journal self ++ new)%list
             /\ pauses new
                = replicate (caught_failures new)
                    QUEUE_SUBSCRIBE_RETRY_SECONDS)
  /\ (forall (script : list attempt) (exchange_name : string)
             (self : Resource),
         (forall e self',
             try_get_exchange QUEUE_SUBSCRIBE_RETRY_SECONDS script
               exchange_name self = (Raised e, self') ->
             caught_by_retry e = false)
         /\ exists new,
             journal (snd (try_get_exchange QUEUE_SUBSCRIBE_RETRY_SECONDS
                             script exchange_name self))
             = (journal self ++ new)%list
             /\ pauses new
                = replicate (caught_failures new)
                    QUEUE_SUBSCRIBE_RETRY_SECONDS).
Proof.
  repeat apply conj.
  - intros a script queue_name callback self self1 e Hbody.
    cbn [try_queue_subscribe]. rewrite Hbody.
    split; intros ->; reflexivity.
  - intros a script exchange_name self self1 e Hbody.
    cbn [try_get_exchange]. rewrite Hbody.
    split; intros ->; reflexivity.
  - intros script queue_name callback self. split.
    + intros e self'. apply subscribe_raises_uncaught.
    + apply subscribe_pauses.
  - intros script exchange_name self. split.
    + intros e self'. apply exchange_raises_uncaught.
    + apply exchange_pauses.
Qed.

End RetryFacts.

Lemma subscribe_two_closures_two_recreations_witness :
  exists (self' : Resource) (new : list event),
    try_queue_subscribe 5
      [lookup_closes_channel; lookup_closes_channel; all_succeed]
      "southbound.L1" "on_message" connected
    = (Returned tt, self')
    /\ journal self' = (journal connected ++ new)%list
    /\ caught_failures new = 2%nat
    /\ recreations new = 2%nat
    /\ pauses new = [5; 5]
    /\ channel self' = {| number := 3; is_closed := false |}
    /\ attachments new = [("southbound.L1", "on_message", 3%nat)].
Proof.
  apply (subscribe_two_closures_two_recreations 5
           lookup_closes_channel lookup_closes_channel all_succeed []
           "southbound.L1" "on_message" connected); reflexivity.
Defined.

Lemma retry_catches_only_channel_closed_witness :
  try_queue_subscribe 5 [lookup_denied; all_succeed]
    "southbound.L1" "on_message" connected
  = (Raised (OtherFailure "AuthenticationError" "denied"),
     record (Logged DEBUG) connected)
  /\ try_get_exchange 5 [lookup_closes_channel; lookup_denied]
       "exchange.southbound.L1" connected
     = try_get_exchange 5 [lookup_denied] "exchange.southbound.L1"
         (record (Slept 5)
            (record (Logged WARNING)
               (broker_leaves lookup_closes_channel
                  (record (Logged DEBUG) connected)))).
Proof.
  split.
  - apply (proj1 (retry_catches_only_channel_closed 5) lookup_denied
             [all_succeed] "southbound.L1" "on_message" connected
             (record (Logged DEBUG) connected)
             (OtherFailure "AuthenticationError" "denied"));
      reflexivity.
  - apply (proj1 (proj2 (retry_catches_only_channel_closed 5))
             lookup_closes_channel [lookup_denied] "exchange.southbound.L1"
             connected (record (Logged DEBUG) connected)
             (ChannelClosed "NOT_FOUND"));
      reflexivity.
Defined.

(** ** Teardown *)

Example disconnect_connected :
  disconnect_busses all_complete broker_io connected
  = (Ok tt,
     {| bus_loop := {| is_running := false; stopping := false;
                       ready := [loop_stop] |};
        connection := {| connection_is_closed := true; channels_opened := 1 |};
        channel := {| number := 1; is_closed := true |};
        journal := [Logged DEBUG;
                    Started pre_disconnect; Completed pre_disconnect;
                    Started channel_close; Completed channel_close;
                    Started connection_close; Completed connection_close;
                    Posted loop_stop; Logged INFO] |}).
Proof. reflexivity. Qed.

(** A second [disconnect_busses] finds the stop of the first one on the
    ready list: the hook still runs to its end, closing the channel is cut
    short. *)
Example disconnect_twice :
  disconnect_busses all_complete broker_io torn_down
  = (Raise (OtherFailure "RuntimeError"
              "Event loop stopped before Future completed."),
     {| bus_loop := {| is_running := false; stopping := false; ready := [] |};
        connection := {| connection_is_closed := true; channels_opened := 1 |};
        channel := {| number := 1; is_closed := true |};
        journal := [Logged DEBUG;
                    Started pre_disconnect; Completed pre_disconnect;
                    Started channel_close] |}).
Proof. reflexivity. Qed.

(** What one [run_until_complete] that returns has done. *)
Lemma run_until_complete_returned (outcome_of : coroutine -> answer)
    (suspends : coroutine -> bool) (c : coroutine) (self self' : Resource) :
  run_until_complete outcome_of suspends c self = (Ok tt, self') ->
  is_running (bus_loop self) = false
  /\ outcome_of c = Succeeds
  /\ (stop_pending (bus_loop self) = true -> suspends c = false)
  /\ self'
     = record (Completed c)
         (effect_of c
            (set_bus_loop
               (at_rest (if stop_pending (bus_loop self)
                         then [run_until_complete_cb] else []))
               (record (Started c) self))).
Proof.
  unfold run_until_complete, run_to_end, bind, get.
  destruct (is_running (bus_loop self)) eqn:Hrun; [discriminate |].
  cbn [modify record bus_loop].
  destruct (stop_pending (bus_loop self)) eqn:Hstop.
  - destruct (suspends c); [discriminate |].
    cbn. destruct (outcome_of c); [| discriminate].
    cbn. intros [= <-]. repeat split.
  - cbn. destruct (outcome_of c); [| discriminate].
    cbn. intros [= <-]. repeat split. discriminate.
Qed.

(** A [run_until_complete] that has cut a stop short leaves the next one
    a stop to find. *)
Lemma stop_pending_after (c : coroutine) (self : Resource) (ev ev' : event) :
  stop_pending
    (bus_loop (record ev
                 (effect_of c
                    (set_bus_loop (at_rest [run_until_complete_cb])
                       (record ev' self)))))
  = true.
Proof. now destruct c. Qed.

Lemma stop_pending_at_rest (c : coroutine) (self : Resource) (ev ev' : event) :
  stop_pending
    (bus_loop (record ev
                 (effect_of c (set_bus_loop (at_rest []) (record ev' self)))))
  = false.
Proof. now destruct c. Qed.

Lemma is_running_after (c : coroutine) (self : Resource) (ev ev' : event)
    (h : list handle) :
  is_running
    (bus_loop (record ev
                 (effect_of c (set_bus_loop (at_rest h) (record ev' self)))))
  = false.
Proof. now destruct c. Qed.

(** When [disconnect_busses] returns, and what it has done by then: the
    loop was not running, the hook has run to its end, then the channel
    has been closed, then the connection, each started after the one
    before it was done, and the stop of the loop has only been posted: it
    is the last callback on the ready list of a loop that is not
    running. *)
Lemma disconnect_busses_returned (outcome_of : coroutine -> answer)
    (suspends : coroutine -> bool) (self self' : Resource) :
  disconnect_busses outcome_of suspends self = (Ok tt, self') ->
  is_running (bus_loop self) = false
  /\ journal self'
     = (journal self
        ++ [Logged DEBUG;
            Started pre_disconnect; Completed pre_disconnect;
            Started channel_close; Completed channel_close;
            Started connection_close; Completed connection_close;
            Posted loop_stop; Logged INFO])%list
  /\ is_closed (channel self') = true
  /\ connection_is_closed (connection self') = true
  /\ bus_loop self'
     = at_rest ((if stop_pending (bus_loop self)
                 then [run_until_complete_cb] else []) ++ [loop_stop])
  /\ (forall c, outcome_of c = Succeeds)
  /\ (stop_pending (bus_loop self) = true -> forall c, suspends c = false).
Proof.
  unfold disconnect_busses, bind at 1. cbn [log modify].
  unfold bind at 1.
  destruct (run_until_complete outcome_of suspends pre_disconnect
              (record (Logged DEBUG) self)) as [[[] | e] s1] eqn:H1;
    [| discriminate].
  unfold bind at 1.
  destruct (run_until_complete outcome_of suspends channel_close s1)
    as [[[] | e] s2] eqn:H2; [| discriminate].
  unfold bind at 1.
  destruct (run_until_complete outcome_of suspends connection_close s2)
    as [[[] | e] s3] eqn:H3; [| discriminate].
  apply run_until_complete_returned in H1 as (Hr1 & Ho1 & Hs1 & ->).
  apply run_until_complete_returned in H2 as (Hr2 & Ho2 & Hs2 & ->).
  apply run_until_complete_returned in H3 as (Hr3 & Ho3 & Hs3 & ->).
  cbn [bus_loop record] in Hr1, Hs1.
  unfold call_soon_threadsafe, bind, get, log. cbn [modify].
  intros [= <-].
  destruct self as [[running stop rdy] [cc opened] [n closed] j].
  cbn [bus_loop is_running] in Hr1. subst running.
  destruct (stop_pending {| is_running := false; stopping := stop;
                            ready := rdy |}) eqn:Hstop.
  - cbn in Hs1, Hs2, Hs3 |- *. rewrite Hstop in *. cbn in Hs2, Hs3 |- *.
    rewrite <- !app_assoc. repeat split.
    + intros []; assumption.
    + intros _ []; auto.
  - cbn in Hs1, Hs2, Hs3 |- *. rewrite Hstop in *. cbn in Hs2, Hs3 |- *.
    rewrite <- !app_assoc. repeat split.
    + intros []; assumption.
    + discriminate.
Qed.

(** [disconnect_busses] returns exactly when the loop is not running, no
    coroutine raises and, where a stop is pending on the loop, no
    coroutine has to wait. *)
Lemma disconnect_busses_returns (outcome_of : coroutine -> answer)
    (suspends : coroutine -> bool) (self : Resource) :
  (exists self', disconnect_busses outcome_of suspends self = (Ok tt, self'))
  <-> is_running (bus_loop self) = false
      /\ (forall c, outcome_of c = Succeeds)
      /\ (stop_pending (bus_loop self) = true -> forall c, suspends c = false).
Proof.
  split.
  - intros [self' Hrun].
    apply disconnect_busses_returned in Hrun
      as (Hr & _ & _ & _ & _ & Ho & Hs).
    auto.
  - intros (Hr & Ho & Hs).
    destruct self as [[running stop rdy] [cc opened] [n closed] j].
    cbn [bus_loop is_running] in Hr. subst running.
    unfold disconnect_busses, run_until_complete, run_to_end,
      call_soon_threadsafe, bind, get, log.
    destruct stop, rdy as [| [] rdy]; cbn in Hs |- *;
      rewrite ?(Hs eq_refl), ?Ho; cbn; rewrite ?(Hs eq_refl), ?Ho; cbn;
      rewrite ?(Hs eq_refl), ?Ho; cbn; eexists; reflexivity.
Qed.

(** C3. On a resource whose bus loop is running in the bus thread, which
    is how [connect_busses] leaves it, [disconnect_busses] raises the
    [RuntimeError] of its first [run_until_complete], whatever the hook
    and the two closes would have done: no coroutine has been started,
    channel and connection are open as before, and the stop of the loop
    has not been posted. *)
Theorem disconnect_after_connect_raises (outcome_of : coroutine -> answer)
    (suspends : coroutine -> bool) :
  disconnect_busses outcome_of suspends bus_running
  = (Raise (OtherFailure "RuntimeError" "This event loop is already running"),
     {| bus_loop := {| is_running := true; stopping := false; ready := [] |};
        connection := {| connection_is_closed := false;
                         channels_opened := 1 |};
        channel := {| number := 1; is_closed := false |};
        journal := [Logged DEBUG] |}).
Proof. reflexivity. Qed.

(** ** The [json] module: what is written is read back *)

(** *** Characters *)

Lemma hex_value_digit (n : N) :
  (n < 16)%N -> hex_value (hex_digit n) = Some n.
Proof.
  intros Hn.
  destruct n as [| [[[[p | p |] | [p | p |] |] | [[p | p |] | [p | p |] |] |]
                   | [[[p | p |] | [p | p |] |] | [[p | p |] | [p | p |] |] |]
                   |]]; try reflexivity; lia.
Qed.

Lemma parse_hex4_digits (n : N) :
  (n < 65536)%N ->
  parse_hex4 (hex_digit (n / 4096)) (hex_digit ((n / 256) mod 16))
    (hex_digit ((n / 16) mod 16)) (hex_digit (n mod 16))
  = Some n.
Proof.
  intros Hn. unfold parse_hex4.
  rewrite !hex_value_digit;
    try (apply N.mod_lt; discriminate);
    [| apply N.Div0.div_lt_upper_bound; lia].
  f_equal.
  pose proof (N.div_mod n 16 ltac:(discriminate)).
  pose proof (N.div_mod (n / 16) 16 ltac:(discriminate)).
  pose proof (N.div_mod (n / 16 / 16) 16 ltac:(discriminate)).
  rewrite !N.Div0.div_div in *.
  change (16 * 16)%N with 256%N in *. change (256 * 16)%N with 4096%N in *.
  lia.
Qed.

(** A character below 128 is the one byte of its code. *)
Lemma cons_char_byte (n : N) (r : option (string * string)) :
  (n < 128)%N -> cons_char n r = cons_byte (ascii_of_N n) r.
Proof.
  intros Hn. unfold cons_char, cons_byte, utf8.
  apply N.ltb_lt in Hn. now rewrite Hn.
Qed.

(** Behind the escape of a character that is no high surrogate, or that
    is one with no escape of a low surrogate behind it, the reading goes
    on with the next character. *)
Lemma parse_print_escape (n : N) (rest : string) :
  (n < 65536)%N ->
  (high_surrogate n = true -> low_escape_ahead rest = false) ->
  parse_chars (print_escape n rest) = cons_char n (parse_chars rest).
Proof.
  intros Hn Hahead. unfold print_escape.
  cbn [parse_chars Ascii.eqb Bool.eqb andb].
  rewrite (parse_hex4_digits n Hn).
  destruct (high_surrogate n); [| reflexivity].
  specialize (Hahead eq_refl).
  destruct rest as [| b [| u [| g1 [| g2 [| g3 [| g4 s4]]]]]];
    try reflexivity.
  cbn [low_escape_ahead] in Hahead.
  destruct (Ascii.eqb b "\"); [| reflexivity].
  destruct (Ascii.eqb u "u"); [| reflexivity].
  cbn [andb] in *.
  destruct (parse_hex4 g1 g2 g3 g4) as [n' |]; [| discriminate].
  now rewrite Hahead.
Qed.

(** The escapes of the two surrogates of a character above the first
    plane are read as that character. *)
Lemma parse_print_pair (n : N) (rest : string) :
  (65536 <= n < 1114112)%N ->
  parse_chars
    (print_escape (55296 + (n - 65536) / 1024)
       (print_escape (56320 + (n - 65536) mod 1024) rest))
  = cons_char n (parse_chars rest).
Proof.
  intros Hn.
  assert (Hq : ((n - 65536) / 1024 < 1024)%N)
    by (apply N.Div0.div_lt_upper_bound; lia).
  assert (Hr : ((n - 65536) mod 1024 < 1024)%N)
    by (apply N.mod_lt; discriminate).
  pose proof (N.div_mod (n - 65536) 1024 ltac:(discriminate)) as Hdm.
  remember ((n - 65536) / 1024)%N as q eqn:Eq.
  remember ((n - 65536) mod 1024)%N as r eqn:Er.
  unfold print_escape at 1.
  cbn [parse_chars Ascii.eqb Bool.eqb andb].
  rewrite (parse_hex4_digits (55296 + q)) by lia.
  assert (high_surrogate (55296 + q) = true) as ->.
  { unfold high_surrogate. apply andb_true_iff.
    split; apply N.leb_le; lia. }
  unfold print_escape. cbn [Ascii.eqb Bool.eqb andb].
  rewrite (parse_hex4_digits (56320 + r)) by lia.
  assert (low_surrogate (56320 + r) = true) as ->.
  { unfold low_surrogate. apply andb_true_iff.
    split; apply N.leb_le; lia. }
  f_equal. unfold join_surrogates. lia.
Qed.

(** One character: from its text the reading goes on behind it. *)
Lemma parse_print_char (n : N) (rest : string) :
  (n < 1114112)%N ->
  (high_surrogate n = true -> low_escape_ahead rest = false) ->
  parse_chars (print_char n rest) = cons_char n (parse_chars rest).
Proof.
  intros Hn Hahead. unfold print_char.
  destruct (N.eqb_spec n 34) as [-> | H34]; [reflexivity |].
  destruct (N.eqb_spec n 92) as [-> | H92]; [reflexivity |].
  destruct (N.eqb_spec n 8) as [-> | H8]; [reflexivity |].
  destruct (N.eqb_spec n 12) as [-> | H12]; [reflexivity |].
  destruct (N.eqb_spec n 10) as [-> | H10]; [reflexivity |].
  destruct (N.eqb_spec n 13) as [-> | H13]; [reflexivity |].
  destruct (N.eqb_spec n 9) as [-> | H9]; [reflexivity |].
  destruct (N.leb 32 n && N.leb n 126) eqn:Hplain.
  - apply andb_true_iff in Hplain as [Hlo%N.leb_le Hhi%N.leb_le].
    rewrite cons_char_byte by lia.
    cbn [parse_chars].
    assert (Ascii.eqb (ascii_of_N n) quote = false) as ->.
    { apply Ascii.eqb_neq. intros H%(f_equal N_of_ascii).
      rewrite N_ascii_embedding in H by lia. now apply H34. }
    assert (Ascii.eqb (ascii_of_N n) "\" = false) as ->.
    { apply Ascii.eqb_neq. intros H%(f_equal N_of_ascii).
      rewrite N_ascii_embedding in H by lia. now apply H92. }
    rewrite N_ascii_embedding by lia.
    assert (N.ltb n 32 = false) as -> by (apply N.ltb_ge; lia).
    reflexivity.
  - destruct (N.ltb_spec n 65536) as [Hbmp | Hhigh].
    + now apply parse_print_escape.
    + apply parse_print_pair. lia.
Qed.

(** What [print_char] writes does not begin like the escape of a low
    surrogate, unless the character is one. *)
Lemma low_escape_ahead_print_char (n : N) (rest : string) :
  (n < 1114112)%N -> low_surrogate n = false ->
  low_escape_ahead (print_char n rest) = false.
Proof.
  intros Hn Hlow. unfold print_char.
  destruct (N.eqb n 34); [reflexivity |].
  destruct (N.eqb_spec n 92) as [-> | H92]; [reflexivity |].
  destruct (N.eqb n 8); [reflexivity |].
  destruct (N.eqb n 12); [reflexivity |].
  destruct (N.eqb n 10); [reflexivity |].
  destruct (N.eqb n 13); [reflexivity |].
  destruct (N.eqb n 9); [reflexivity |].
  destruct (N.leb 32 n && N.leb n 126) eqn:Hplain.
  - apply andb_true_iff in Hplain as [Hlo%N.leb_le Hhi%N.leb_le].
    cbn [low_escape_ahead].
    assert (Ascii.eqb (ascii_of_N n) "\" = false) as ->; [| reflexivity].
    apply Ascii.eqb_neq. intros H%(f_equal N_of_ascii).
    rewrite N_ascii_embedding in H by lia. now apply H92.
  - destruct (N.ltb_spec n 65536) as [Hbmp | Hhigh].
    + unfold print_escape. cbn [low_escape_ahead Ascii.eqb Bool.eqb andb].
      now rewrite (parse_hex4_digits n Hbmp).
    + unfold print_escape. cbn [low_escape_ahead Ascii.eqb Bool.eqb andb].
      assert (Hq : ((n - 65536) / 1024 < 1024)%N)
        by (apply N.Div0.div_lt_upper_bound; lia).
      remember ((n - 65536) / 1024)%N as q eqn:Eq.
      rewrite (parse_hex4_digits (55296 + q)) by lia.
      unfold low_surrogate. apply andb_false_iff. left.
      apply N.leb_gt. lia.
Qed.

Lemma parse_print_chars (l : list N) (rest : string) :
  forallb (fun n => N.ltb n 1114112) l = true ->
  surrogate_pair l = false ->
  parse_chars (print_chars l (String quote rest))
  = Some (str_of_code_points l, rest).
Proof.
  induction l as [| n l IH]; [reflexivity |].
  cbn [forallb]. intros [Hn%N.ltb_lt Hl]%andb_true_iff Hpair.
  cbn [print_chars str_of_code_points fold_right].
  rewrite parse_print_char; [| assumption |].
  - rewrite IH; [reflexivity | assumption |].
    cbn [surrogate_pair] in Hpair. destruct l as [| n' l']; [reflexivity |].
    now apply orb_false_iff in Hpair as [_ ?].
  - intros Hhigh. destruct l as [| n' l']; [reflexivity |].
    cbn [surrogate_pair] in Hpair. rewrite Hhigh in Hpair.
    apply orb_false_iff in Hpair as [Hlow _]. cbn [andb] in Hlow.
    cbn [print_chars]. cbn [forallb] in Hl.
    apply andb_true_iff in Hl as [Hn'%N.ltb_lt _].
    now apply low_escape_ahead_print_char.
Qed.

(** A [str] is read back from its text. *)
Lemma parse_print_str (s rest : string) :
  valid_str s = true -> str_reads_back s = true ->
  parse_chars (print_chars (code_points s) (String quote rest))
  = Some (s, rest).
Proof.
  unfold valid_str, str_reads_back.
  intros [Hsame%String.eqb_eq Hrange]%andb_true_iff Hpair%negb_true_iff.
  rewrite parse_print_chars by assumption. now rewrite Hsame.
Qed.

(** *** Text put together *)

Lemma append_cons (x : ascii) (a b : string) :
  String x a ++ b = String x (a ++ b).
Proof. reflexivity. Qed.

Lemma append_nil (b : string) : EmptyString ++ b = b.
Proof. reflexivity. Qed.

Lemma append_assoc (a b c : string) : (a ++ b) ++ c = a ++ (b ++ c).
Proof.
  induction a as [| x a IH]; [reflexivity |].
  rewrite !append_cons. now rewrite IH.
Qed.

Lemma length_append (a b : string) :
  String.length (a ++ b) = (String.length a + String.length b)%nat.
Proof.
  induction a as [| x a IH]; [reflexivity |].
  rewrite append_cons. cbn [String.length]. now rewrite IH.
Qed.

Lemma print_uint_append (d : uint) (rest : string) :
  print_uint d rest = print_uint d EmptyString ++ rest.
Proof.
  induction d; cbn [print_uint]; rewrite ?append_cons, ?append_nil;
    congruence.
Qed.

Lemma zeros_append (n : nat) (rest : string) :
  zeros n rest = zeros n EmptyString ++ rest.
Proof.
  induction n as [| n IH]; cbn [zeros]; rewrite ?append_cons, ?append_nil;
    congruence.
Qed.

Lemma print_exponent_append (x : Z) (rest : string) :
  print_exponent x rest = print_exponent x EmptyString ++ rest.
Proof.
  unfold print_exponent. rewrite !append_cons.
  destruct (Z.ltb (Z.abs x) 10); rewrite ?append_cons;
    now rewrite print_uint_append.
Qed.

Lemma print_digits_append (ds : string) (point : Z) (rest : string) :
  print_digits ds point rest = print_digits ds point EmptyString ++ rest.
Proof.
  unfold print_digits.
  destruct (Z.leb point (- 4) || Z.ltb 16 point).
  - destruct ds as [| d0 [| d1 ds]]; rewrite ?append_cons.
    + apply print_exponent_append.
    + now rewrite print_exponent_append.
    + rewrite (print_exponent_append _ rest). now rewrite append_assoc.
  - destruct (Z.leb point 0).
    + rewrite !append_cons.
      rewrite (zeros_append _ (ds ++ rest)), (zeros_append _ (ds ++ _)).
      now rewrite !append_assoc.
    + destruct (Z.leb (Z.of_nat (String.length ds)) point).
      * rewrite (zeros_append _ (String "." _)),
          (zeros_append _ (String "." (String "0" EmptyString))).
        now rewrite !append_assoc.
      * rewrite !append_assoc, !append_cons.
        now rewrite !append_assoc.
Qed.

Lemma print_magnitude_append (f : spec_float) (rest : string) :
  print_magnitude f rest = print_magnitude f EmptyString ++ rest.
Proof.
  destruct f as [s | s | | s m e]; try reflexivity.
  unfold print_magnitude. destruct (shortest_digits m e) as [digits k].
  apply print_digits_append.
Qed.

(** *** Numerals *)

Lemma number_end_digits (rest : string) :
  number_end rest = true -> parse_digits rest = (Nil, rest).
Proof.
  destruct rest as [| c rest]; [reflexivity |].
  unfold number_end, is_digit. cbn [parse_digits].
  now destruct (digit_of c).
Qed.

Lemma parse_print_uint (d : uint) (rest : string) :
  number_end rest = true ->
  parse_digits (print_uint d rest) = (d, rest).
Proof.
  intros Hend.
  induction d as [| d IH | d IH | d IH | d IH | d IH | d IH | d IH | d IH
                  | d IH | d IH ];
    try (cbn [print_uint parse_digits digit_of]; now rewrite IH).
  now apply number_end_digits.
Qed.

Lemma to_uint_nonnil (n : N) : N.to_uint n <> Nil.
Proof.
  destruct n as [| p]; [discriminate |].
  apply DecimalPos.Unsigned.to_uint_nonnil.
Qed.

Lemma to_uint_canonical (n : N) : uint_beq (unorm (N.to_uint n)) (N.to_uint n) = true.
Proof.
  rewrite <- DecimalN.Unsigned.to_of, DecimalN.Unsigned.of_to.
  now apply internal_uint_dec_lb.
Qed.

Lemma number_end_fraction (rest : string) :
  number_end rest = true -> parse_fraction rest = None.
Proof.
  destruct rest as [| c rest]; [reflexivity |].
  unfold number_end, parse_fraction.
  destruct (Ascii.eqb c "."); [| reflexivity].
  rewrite !orb_true_r. discriminate.
Qed.

Lemma number_end_exponent (rest : string) :
  number_end rest = true -> parse_exponent rest = None.
Proof.
  destruct rest as [| c rest]; [reflexivity |].
  unfold number_end, parse_exponent.
  destruct (Ascii.eqb c "e"), (Ascii.eqb c "E"); try reflexivity;
    rewrite ?orb_true_r; discriminate.
Qed.

Lemma number_end_sign (rest : string) :
  number_end rest = true ->
  starts_with "-" rest = false /\ starts_with "+" rest = false.
Proof.
  destruct rest as [| c rest]; [split; reflexivity |].
  unfold number_end, starts_with.
  destruct (Ascii.eqb c "-"), (Ascii.eqb c "+"); try (split; reflexivity);
    rewrite ?orb_true_r; discriminate.
Qed.

Lemma parse_number_print (negative : bool) (n : N) (rest : string) :
  number_end rest = true ->
  parse_number negative (print_uint (N.to_uint n) rest)
  = Some (PInt (if negative then - Z.of_N n else Z.of_N n), rest).
Proof.
  intros Hend. unfold parse_number.
  rewrite parse_print_uint by assumption.
  pose proof (to_uint_nonnil n) as Hnil.
  rewrite to_uint_canonical, number_end_fraction, number_end_exponent
    by assumption.
  rewrite DecimalN.Unsigned.of_to.
  destruct (N.to_uint n); [contradiction | reflexivity ..].
Qed.

(** *** A numeral with text behind it *)

Lemma parse_digits_append (s rest : string) :
  number_end rest = true ->
  parse_digits (s ++ rest)
  = (fst (parse_digits s), snd (parse_digits s) ++ rest).
Proof.
  intros Hend. induction s as [| c s IH];
    rewrite ?append_cons, ?append_nil; cbn [parse_digits].
  - now rewrite number_end_digits.
  - destruct (digit_of c); [| reflexivity].
    rewrite IH. now destruct (parse_digits s).
Qed.

Lemma parse_fraction_append (s rest : string) :
  number_end rest = true ->
  parse_fraction (s ++ rest)
  = match parse_fraction s with
    | Some (d, s') => Some (d, s' ++ rest)
    | None => None
    end.
Proof.
  intros Hend. destruct s as [| c s]; rewrite ?append_cons, ?append_nil.
  - now apply number_end_fraction.
  - unfold parse_fraction. destruct (Ascii.eqb c "."); [| reflexivity].
    rewrite parse_digits_append by assumption.
    destruct (parse_digits s) as [d s']. cbn [fst snd].
    now destruct d.
Qed.

Lemma parse_exponent_append (s rest : string) :
  number_end rest = true ->
  parse_exponent (s ++ rest)
  = match parse_exponent s with
    | Some (x, s') => Some (x, s' ++ rest)
    | None => None
    end.
Proof.
  intros Hend. destruct s as [| c s]; rewrite ?append_cons, ?append_nil.
  - now apply number_end_exponent.
  - unfold parse_exponent.
    destruct (Ascii.eqb c "e" || Ascii.eqb c "E"); [| reflexivity].
    destruct s as [| c' s]; rewrite ?append_cons, ?append_nil;
      cbn [starts_with behead].
    + destruct (number_end_sign rest Hend) as [-> ->]. cbn [orb].
      now rewrite number_end_digits.
    + destruct (Ascii.eqb c' "-" || Ascii.eqb c' "+").
      * rewrite parse_digits_append by assumption.
        destruct (parse_digits s) as [d s']. cbn [fst snd]. now destruct d.
      * rewrite <- append_cons.
        rewrite parse_digits_append by assumption.
        destruct (parse_digits (String c' s)) as [d s']. cbn [fst snd].
        now destruct d.
Qed.

Lemma parse_number_append (negative : bool) (s rest : string) :
  number_end rest = true ->
  parse_number negative (s ++ rest)
  = match parse_number negative s with
    | Some (v, s') => Some (v, s' ++ rest)
    | None => None
    end.
Proof.
  intros Hend. unfold parse_number.
  rewrite parse_digits_append by assumption.
  destruct (parse_digits s) as [d s0]. cbn [fst snd].
  destruct d; try reflexivity;
    (destruct (negb (uint_beq _ _)); [reflexivity |]);
    rewrite parse_fraction_append by assumption;
    (destruct (parse_fraction s0) as [[fd s1] |];
     rewrite parse_exponent_append by assumption;
     [destruct (parse_exponent s1) as [[x s2] |]
     | destruct (parse_exponent s0) as [[x s2] |]]);
    reflexivity.
Qed.

(** *** Digits and the characters around them *)

Lemma is_digit_code (c : ascii) :
  is_digit c
  = N.leb 48 (N_of_ascii c) && N.leb (N_of_ascii c) 57.
Proof. destruct c as [[] [] [] [] [] [] [] []]; vm_compute; reflexivity. Qed.

Lemma digit_code (c : ascii) :
  is_digit c = true -> (48 <= N_of_ascii c <= 57)%N.
Proof.
  rewrite is_digit_code.
  intros [H1%N.leb_le H2%N.leb_le]%andb_true_iff. now split.
Qed.

Lemma digit_is_not (c c' : ascii) :
  is_digit c = true -> is_digit c' = false -> Ascii.eqb c c' = false.
Proof.
  intros Hc Hc'. apply Ascii.eqb_neq. intros ->. congruence.
Qed.

Lemma digit_skip_ws (c : ascii) (s : string) :
  is_digit c = true -> skip_ws (String c s) = String c s.
Proof.
  intros Hc%digit_code. cbn [skip_ws].
  assert (N.eqb (N_of_ascii c) 32 = false) as -> by (apply N.eqb_neq; lia).
  assert (N.eqb (N_of_ascii c) 9 = false) as -> by (apply N.eqb_neq; lia).
  assert (N.eqb (N_of_ascii c) 10 = false) as -> by (apply N.eqb_neq; lia).
  assert (N.eqb (N_of_ascii c) 13 = false) as -> by (apply N.eqb_neq; lia).
  reflexivity.
Qed.

Lemma digit_no_infinity (c : ascii) (s : string) :
  is_digit c = true -> strip_prefix "Infinity" (String c s) = None.
Proof.
  intros Hc. cbn [strip_prefix].
  now rewrite Ascii.eqb_sym, (digit_is_not c "I") by (assumption || reflexivity).
Qed.

Lemma print_uint_head (d : uint) (rest : string) :
  d <> Nil ->
  exists c s, print_uint d rest = String c s /\ is_digit c = true.
Proof.
  destruct d; [contradiction | ..]; intros _; cbn [print_uint];
    eexists; eexists; split; reflexivity.
Qed.

(** *** Floats *)

Lemma float_beq_eq (f f' : spec_float) : float_beq f f' = true -> f = f'.
Proof.
  destruct f as [s | s | | s m e], f' as [s' | s' | | s' m' e'];
    cbn [float_beq]; try discriminate; try reflexivity.
  - now intros ->%Bool.eqb_prop.
  - now intros ->%Bool.eqb_prop.
  - intros [[->%Bool.eqb_prop ->%Pos.eqb_eq]%andb_true_iff
              ->%Z.eqb_eq]%andb_true_iff.
    reflexivity.
Qed.

(** What the check [float_reads_back] says of a float that is zero or
    finite. *)
Lemma float_reads_back_magnitude (f : spec_float) :
  float_reads_back f = true ->
  match f with
  | S754_nan => True
  | S754_infinity _ => True
  | _ =>
      exists c body,
        print_magnitude f EmptyString = String c body
        /\ is_digit c = true
        /\ parse_number (float_sign f) (String c body)
           = Some (PFloat f, EmptyString)
  end.
Proof.
  destruct f as [s | s | | s m e]; cbn [float_reads_back];
    try discriminate; try (intros _; exact I).
  all: intros [Hhead Hparse]%andb_true_iff.
  all: match goal with
       | H : context [print_magnitude ?f EmptyString] |- _ =>
           destruct (print_magnitude f EmptyString) as [| c body] eqn:Hbody;
           [discriminate |]
       end.
  all: exists c, body; split; [reflexivity |]; split; [assumption |].
  all: match goal with
       | H : context [parse_number ?b ?s] |- _ =>
           destruct (parse_number b s) as [[[] []] |]; try discriminate
       end.
  all: now apply float_beq_eq in Hparse as ->.
Qed.

Lemma parse_value_float (fuel : nat) (f : spec_float) (rest : string) :
  float_reads_back f = true -> number_end rest = true ->
  parse_value (S fuel) (print_float f rest) = Some (PFloat f, rest).
Proof.
  intros Hback Hend.
  pose proof (float_reads_back_magnitude f Hback) as Hm.
  destruct f as [s | [] | | s m e]; try contradiction; try reflexivity.
  all: destruct Hm as (c & body & Hbody & Hc & Hparse).
  all: unfold print_float, float_repr; cbn [float_sign] in *.
  all: rewrite print_magnitude_append, Hbody, append_cons.
  all: pose proof (parse_number_append s (String c body) rest Hend) as Happ.
  all: rewrite Hparse, append_cons, append_nil in Happ.
  all: destruct s; cbn [parse_value].
  all: rewrite ?Hc; try (rewrite (digit_no_infinity c) by assumption).
  all: try exact Happ.
  all: change (is_digit "-") with false; cbv iota;
    change (Ascii.eqb "-" "-") with true; cbv iota; exact Happ.
Qed.

Lemma float_head (f : spec_float) (rest : string) :
  float_reads_back f = true ->
  skip_ws (print_float f rest) = print_float f rest
  /\ starts_with "]" (print_float f rest) = false.
Proof.
  intros Hback.
  pose proof (float_reads_back_magnitude f Hback) as Hm.
  destruct f as [s | [] | | s m e]; try contradiction;
    try (split; reflexivity).
  all: destruct Hm as (c & body & Hbody & Hc & Hparse).
  all: unfold print_float, float_repr; cbn [float_sign].
  all: rewrite print_magnitude_append, Hbody, append_cons.
  all: destruct s; [split; reflexivity |].
  all: split; [now apply digit_skip_ws |].
  all: cbn [starts_with]; now apply digit_is_not.
Qed.

(** *** Values *)

(** A value's text begins with a character that is neither white space
    nor the end of a list. *)
Lemma print_value_head (v : pyvalue) (rest : string) :
  reads_back v = true ->
  skip_ws (print_value v rest) = print_value v rest
  /\ starts_with "]" (print_value v rest) = false.
Proof.
  destruct v as [| [] | z | f | s | l | l | d]; try (split; reflexivity).
  - intros _. cbn [print_value]. unfold print_int.
    destruct (Z.ltb z 0); [split; reflexivity |].
    destruct (print_uint_head (N.to_uint (Z.abs_N z)) rest
                (to_uint_nonnil _)) as (c & s & -> & Hc).
    split; [now apply digit_skip_ws |].
    cbn [starts_with]. now apply digit_is_not.
  - cbn [reads_back print_value]. apply float_head.
Qed.

Lemma print_items_head (l : pylist) (rest : string) :
  reads_back_list l = true -> l <> LNil ->
  skip_ws (print_items l rest) = print_items l rest
  /\ starts_with "]" (print_items l rest) = false.
Proof.
  destruct l as [| v [| v' l']]; [contradiction | |];
    cbn [reads_back_list]; intros [Hv _]%andb_true_iff _;
    cbn [print_items]; now apply print_value_head.
Qed.

Lemma print_members_head (d : pydict) (rest : string) :
  d <> DNil ->
  skip_ws (print_members d rest) = print_members d rest
  /\ starts_with "}" (print_members d rest) = false.
Proof.
  destruct d as [| k v [| k' v' d']]; [contradiction | |]; intros _;
    split; reflexivity.
Qed.

(** Reading an integer back. *)
Lemma parse_value_int (fuel : nat) (z : Z) (rest : string) :
  number_end rest = true ->
  parse_value (S fuel) (print_int z rest) = Some (PInt z, rest).
Proof.
  intros Hend. unfold print_int.
  destruct (Z.ltb_spec z 0) as [Hneg | Hpos].
  - cbn [parse_value].
    change (is_digit "-") with false. cbv iota.
    change (Ascii.eqb "-" "-") with true. cbv iota.
    destruct (print_uint_head (N.to_uint (Z.abs_N z)) rest
                (to_uint_nonnil _)) as (c & s & Hhead & Hc).
    rewrite Hhead, digit_no_infinity, <- Hhead by assumption.
    rewrite parse_number_print by assumption.
    do 3 f_equal. lia.
  - destruct (print_uint_head (N.to_uint (Z.abs_N z)) rest
                (to_uint_nonnil _)) as (c & s & Hhead & Hc).
    rewrite Hhead. cbn [parse_value]. rewrite Hc, <- Hhead.
    rewrite parse_number_print by assumption.
    do 3 f_equal. lia.
Qed.

(** *** Dicts with strings for keys *)

Lemma key_eqb_str (s : string) (k : pykey) :
  key_eqb (KStr s) k = true <-> k = KStr s.
Proof.
  destruct k as [s' | | | |]; cbn; try (split; discriminate).
  rewrite String.eqb_eq. split; congruence.
Qed.

Lemma key_eqb_str_sym (s : string) (k : pykey) :
  key_eqb k (KStr s) = key_eqb (KStr s) k.
Proof.
  destruct k as [s' | z | f | b | ]; cbn; try reflexivity.
  - apply String.eqb_sym.
  - now destruct f.
Qed.

Lemma key_eqb_str_refl (s : string) : key_eqb (KStr s) (KStr s) = true.
Proof. now apply key_eqb_str. Qed.

Lemma dict_has_app (k : pykey) (d d' : pydict) :
  dict_has k (dict_app d d') = dict_has k d || dict_has k d'.
Proof.
  induction d as [| k0 v0 d IH]; [reflexivity |].
  cbn [dict_app dict_has]. rewrite IH. now rewrite orb_assoc.
Qed.

Lemma dict_set_fresh (k : pykey) (v : pyvalue) (d : pydict) :
  dict_has k d = false -> dict_set k v d = dict_app d (DCons k v DNil).
Proof.
  induction d as [| k0 v0 d IH]; [reflexivity |].
  cbn [dict_has dict_set dict_app]. intros [Hk Hd]%orb_false_iff.
  now rewrite Hk, IH.
Qed.

Lemma dict_app_assoc (d1 d2 d3 : pydict) :
  dict_app (dict_app d1 d2) d3 = dict_app d1 (dict_app d2 d3).
Proof.
  induction d1 as [| k v d1 IH]; [reflexivity |].
  cbn [dict_app]. now rewrite IH.
Qed.

(** The keys of a dict that is read back are strings. *)
Lemma reads_back_dict_has (d : pydict) (k : pykey) :
  reads_back_dict d = true -> dict_has k d = true ->
  exists s, k = KStr s.
Proof.
  induction d as [| k0 v0 d IH]; cbn [reads_back_dict dict_has];
    [discriminate |].
  intros [[Hk0 _]%andb_true_iff Hd]%andb_true_iff
         [Hk | Hk]%orb_true_iff; [| now apply IH].
  destruct k0 as [s0 | | | |]; try discriminate.
  rewrite key_eqb_str_sym in Hk. apply key_eqb_str in Hk. now exists s0.
Qed.

Lemma dict_update_distinct (d : pydict) :
  forall acc : pydict,
    valid_dict d = true -> reads_back_dict d = true ->
    (forall k, dict_has k d = true -> dict_has k acc = false) ->
    dict_update acc d = dict_app acc d.
Proof.
  induction d as [| k v d IH]; intros acc Hvalid Hback Hfresh.
  - cbn [dict_update]. clear. induction acc as [| k v acc IH];
      [reflexivity | cbn [dict_app]; now rewrite <- IH].
  - cbn [dict_update]. cbn [valid_dict] in Hvalid.
    apply andb_true_iff in Hvalid as [[[Hk _]%andb_true_iff Hv]%andb_true_iff
                                        Hd].
    apply negb_true_iff in Hk.
    cbn [reads_back_dict] in Hback.
    apply andb_true_iff in Hback as [[Hstr _]%andb_true_iff Hbd].
    destruct k as [s | | | |]; try discriminate.
    rewrite dict_set_fresh.
    + rewrite IH; [now rewrite dict_app_assoc | assumption | assumption |].
      intros k' Hk'. rewrite dict_has_app. cbn [dict_has].
      rewrite Hfresh by (cbn [dict_has]; rewrite Hk'; apply orb_true_r).
      rewrite orb_false_r. cbn [orb].
      destruct (key_eqb k' (KStr s)) eqn:E; [| reflexivity].
      rewrite key_eqb_str_sym in E. apply key_eqb_str in E. congruence.
    + apply Hfresh. cbn [dict_has]. now rewrite key_eqb_str_refl.
Qed.

Lemma dict_of_pairs_valid (d : pydict) :
  valid_dict d = true -> reads_back_dict d = true -> dict_of_pairs d = d.
Proof.
  intros Hvalid Hback. unfold dict_of_pairs.
  now rewrite dict_update_distinct.
Qed.

(** The text of two items or members and more, and of the last one. *)
Lemma print_items_more (v v' : pyvalue) (l : pylist) (rest : string) :
  print_items (LCons v (LCons v' l)) rest
  = print_value v (String "," (String " " (print_items (LCons v' l) rest))).
Proof. reflexivity. Qed.

Lemma print_members_last (k : pykey) (v : pyvalue) (rest : string) :
  print_members (DCons k v DNil) rest
  = String quote
      (print_chars (code_points (key_text k))
         (String quote (String ":" (String " " (print_value v rest))))).
Proof. reflexivity. Qed.

Lemma print_members_more (k k' : pykey) (v v' : pyvalue) (d : pydict)
    (rest : string) :
  print_members (DCons k v (DCons k' v' d)) rest
  = String quote
      (print_chars (code_points (key_text k))
         (String quote
            (String ":" (String " "
               (print_value v
                  (String "," (String " "
                     (print_members (DCons k' v' d) rest)))))))).
Proof. reflexivity. Qed.

(** Going past a separator [c] and the space behind it. *)
Ltac past_separator c :=
  match goal with
  | |- context [skip_ws (String c (String " " ?X))] =>
      change (skip_ws (String c (String " " X)))
        with (String c (String " " X));
      cbv iota beta;
      change (skip_ws (String " " X)) with (skip_ws X)
  end.

(** Without fuel nothing is read; a value needs some. *)
Ltac some_fuel fuel H :=
  destruct fuel as [| fuel]; [cbn in H; lia |].

(** What is written is read back: a value in front of text a number can
    stand before, the items of a list up to its bracket, the members of a
    dict up to its brace. *)
Lemma parse_print :
  (forall v : pyvalue,
      valid_value v = true -> reads_back v = true ->
      forall (fuel : nat) (rest : string),
        (need_value v <= fuel)%nat -> number_end rest = true ->
        parse_value fuel (print_value v rest) = Some (v, rest))
  /\ (forall l : pylist,
         valid_list l = true -> reads_back_list l = true -> l <> LNil ->
         forall (fuel : nat) (rest : string),
           (need_items l <= fuel)%nat ->
           parse_items fuel (print_items l (String "]" rest)) = Some (l, rest))
  /\ (forall d : pydict,
         valid_dict d = true -> reads_back_dict d = true -> d <> DNil ->
         forall (fuel : nat) (rest : string),
           (need_members d <= fuel)%nat ->
           parse_members fuel (print_members d (String "}" rest))
           = Some (d, rest)).
Proof.
  apply pyvalue_pylist_pydict_ind.
  - (* None *)
    intros _ _ fuel rest Hfuel _. some_fuel fuel Hfuel. reflexivity.
  - (* booleans *)
    intros [] _ _ fuel rest Hfuel _; some_fuel fuel Hfuel; reflexivity.
  - (* integers *)
    intros z _ _ fuel rest Hfuel Hend. some_fuel fuel Hfuel.
    now apply parse_value_int.
  - (* floats *)
    intros f _ Hback fuel rest Hfuel Hend. some_fuel fuel Hfuel.
    now apply parse_value_float.
  - (* strings *)
    intros s Hvalid Hback fuel rest Hfuel _. some_fuel fuel Hfuel.
    cbn [print_value print_str parse_value].
    change (is_digit quote) with false. cbv iota.
    change (Ascii.eqb quote "-") with false. cbv iota.
    change (Ascii.eqb quote quote) with true. cbv iota.
    now rewrite parse_print_str.
  - (* lists *)
    intros l IH Hvalid Hback fuel rest Hfuel _. some_fuel fuel Hfuel.
    cbn [need_value] in Hfuel. cbn [print_value parse_value].
    change (is_digit "[") with false. cbv iota.
    change (Ascii.eqb "[" "-") with false. cbv iota.
    change (Ascii.eqb "[" quote) with false. cbv iota.
    change (Ascii.eqb "[" "[") with true. cbv iota.
    destruct l as [| v l]; [reflexivity |].
    destruct (print_items_head (LCons v l) (String "]" rest)) as [Hws Hhd];
      [exact Hback | discriminate |].
    rewrite Hws, Hhd, IH;
      [reflexivity | exact Hvalid | exact Hback | discriminate | lia].
  - (* tuples *)
    intros l _ _ Hback. discriminate.
  - (* dicts *)
    intros d IH Hvalid Hback fuel rest Hfuel _. some_fuel fuel Hfuel.
    cbn [need_value] in Hfuel. cbn [print_value parse_value].
    change (is_digit "{") with false. cbv iota.
    change (Ascii.eqb "{" "-") with false. cbv iota.
    change (Ascii.eqb "{" quote) with false. cbv iota.
    change (Ascii.eqb "{" "[") with false. cbv iota.
    change (Ascii.eqb "{" "{") with true. cbv iota.
    destruct d as [| k v d]; [reflexivity |].
    destruct (print_members_head (DCons k v d) (String "}" rest))
      as [Hws Hhd]; [discriminate |].
    rewrite Hws, Hhd, IH; [| exact Hvalid | exact Hback | discriminate | lia].
    now rewrite dict_of_pairs_valid.
  - (* no item *)
    intros _ _ Hne. contradiction.
  - (* an item and the items behind it *)
    intros v IHv l IHl Hvalid Hback _ fuel rest Hfuel. some_fuel fuel Hfuel.
    cbn [need_items] in Hfuel. cbn [valid_list] in Hvalid.
    apply andb_true_iff in Hvalid as [Hv Hl].
    cbn [reads_back_list] in Hback.
    apply andb_true_iff in Hback as [Hbv Hbl].
    cbn [parse_items].
    destruct l as [| v' l'].
    + cbn [print_items].
      rewrite IHv; [reflexivity | assumption | assumption | lia | reflexivity].
    + rewrite print_items_more.
      rewrite IHv; [| assumption | assumption | lia | reflexivity].
      past_separator ","%char.
      destruct (print_items_head (LCons v' l') (String "]" rest)) as [Hws _];
        [assumption | discriminate |].
      rewrite Hws, IHl;
        [reflexivity | assumption | assumption | discriminate | lia].
  - (* no member *)
    intros _ _ Hne. contradiction.
  - (* a member and the members behind it *)
    intros k v IHv d IHd Hvalid Hback _ fuel rest Hfuel. some_fuel fuel Hfuel.
    cbn [need_members] in Hfuel. cbn [valid_dict] in Hvalid.
    apply andb_true_iff in Hvalid as [[[Hk Hvk]%andb_true_iff Hv]%andb_true_iff
                                        Hd].
    cbn [reads_back_dict] in Hback.
    apply andb_true_iff in Hback as [[Hbk Hbv]%andb_true_iff Hbd].
    destruct k as [s | | | |]; try discriminate.
    cbn [valid_key] in Hvk.
    destruct d as [| k' v' d'];
      [rewrite print_members_last | rewrite print_members_more];
      cbn [parse_members key_text]; change (Ascii.eqb quote quote) with true;
      cbv iota; rewrite parse_print_str by assumption;
      past_separator ":"%char;
      rewrite (proj1 (print_value_head v _ Hbv)).
    + rewrite IHv; [reflexivity | assumption | assumption | lia | reflexivity].
    + rewrite IHv; [| assumption | assumption | lia | reflexivity].
      past_separator ","%char.
      destruct (print_members_head (DCons k' v' d') (String "}" rest))
        as [Hws _]; [discriminate |].
      rewrite Hws, IHd;
        [reflexivity | assumption | assumption | discriminate | lia].
Qed.

(** *** The text is long enough to pay for the fuel *)

Lemma length_print_escape (n : N) (rest : string) :
  String.length (print_escape n rest) = (6 + String.length rest)%nat.
Proof. reflexivity. Qed.

Lemma length_print_char (n : N) (rest : string) :
  (String.length rest < String.length (print_char n rest))%nat.
Proof.
  unfold print_char.
  repeat match goal with
         | |- context [if ?b then _ else _] => destruct b
         end; rewrite ?length_print_escape; cbn [String.length]; lia.
Qed.

Lemma length_print_chars (l : list N) (rest : string) :
  (String.length rest <= String.length (print_chars l rest))%nat.
Proof.
  induction l as [| n l IH]; cbn [print_chars]; [lia |].
  pose proof (length_print_char n (print_chars l rest)). lia.
Qed.

Lemma length_print_uint (d : uint) (rest : string) :
  (String.length rest <= String.length (print_uint d rest))%nat.
Proof.
  induction d; cbn [print_uint String.length]; lia.
Qed.

Lemma length_print_int (z : Z) (rest : string) :
  (String.length rest < String.length (print_int z rest))%nat.
Proof.
  unfold print_int. pose proof (to_uint_nonnil (Z.abs_N z)) as Hnil.
  destruct (Z.ltb z 0).
  - pose proof (length_print_uint (N.to_uint (Z.abs_N z)) rest).
    cbn [String.length]. lia.
  - destruct (N.to_uint (Z.abs_N z)) as [| d | d | d | d | d | d | d | d
                                         | d | d]; [contradiction | ..];
      pose proof (length_print_uint d rest); cbn [print_uint String.length];
      lia.
Qed.

Lemma length_zeros (n : nat) (rest : string) :
  String.length (zeros n rest) = (n + String.length rest)%nat.
Proof.
  induction n as [| n IH]; [reflexivity |].
  cbn [zeros String.length]. now rewrite IH.
Qed.

Lemma length_print_exponent (x : Z) (rest : string) :
  (String.length rest < String.length (print_exponent x rest))%nat.
Proof.
  unfold print_exponent. pose proof (length_print_uint (N.to_uint (Z.abs_N x)) rest).
  destruct (Z.ltb (Z.abs x) 10); cbn [String.length]; lia.
Qed.

Lemma length_print_digits (ds : string) (point : Z) :
  (1 <= String.length (print_digits ds point EmptyString))%nat.
Proof.
  unfold print_digits.
  pose proof (length_print_exponent (point - 1) EmptyString) as Hx.
  destruct (Z.leb point (- 4) || Z.ltb 16 point).
  - destruct ds as [| d0 [| d1 ds]]; cbn [String.length]; lia.
  - destruct (Z.leb point 0); [cbn [String.length]; lia |].
    destruct (Z.leb (Z.of_nat (String.length ds)) point).
    + rewrite length_append, length_zeros. cbn [String.length]. lia.
    + rewrite length_append. cbn [String.length]. lia.
Qed.

Lemma length_print_magnitude (f : spec_float) :
  (1 <= String.length (print_magnitude f EmptyString))%nat.
Proof.
  destruct f as [s | s | | s m e]; cbn [print_magnitude String.length];
    try lia.
  destruct (shortest_digits m e) as [digits k]. apply length_print_digits.
Qed.

Lemma length_print_float (f : spec_float) (rest : string) :
  (String.length rest < String.length (print_float f rest))%nat.
Proof.
  pose proof (length_print_magnitude f) as Hm.
  destruct f as [s | [] | | s m e]; unfold print_float, float_repr;
    cbn [float_sign]; try (rewrite length_append; cbn [String.length]; lia).
  all: destruct s; rewrite print_magnitude_append; cbn [String.length];
    rewrite length_append; lia.
Qed.

Lemma need_value_pos (v : pyvalue) : (1 <= need_value v)%nat.
Proof. destruct v; cbn [need_value]; lia. Qed.

Lemma need_length :
  (forall (v : pyvalue) (rest : string),
      (need_value v + String.length rest
       <= String.length (print_value v rest))%nat)
  /\ (forall (l : pylist) (rest : string),
         (need_items l + String.length rest
          <= S (String.length (print_items l rest)))%nat)
  /\ (forall (d : pydict) (rest : string),
         (need_members d + String.length rest
          <= S (String.length (print_members d rest)))%nat).
Proof.
  apply pyvalue_pylist_pydict_ind.
  - intros rest. cbn [print_value need_value]. rewrite length_append.
    cbn [String.length]. lia.
  - intros [] rest; cbn [print_value need_value]; rewrite length_append;
      cbn [String.length]; lia.
  - intros z rest. pose proof (length_print_int z rest).
    cbn [need_value print_value]. lia.
  - intros f rest. pose proof (length_print_float f rest).
    cbn [need_value print_value]. lia.
  - intros s rest. cbn [need_value print_value print_str String.length].
    pose proof (length_print_chars (code_points s) (String quote rest)).
    cbn [String.length] in *. lia.
  - intros l IH rest. specialize (IH (String "]" rest)).
    cbn [need_value print_value String.length] in *. lia.
  - intros l IH rest. specialize (IH (String "]" rest)).
    cbn [need_value print_value String.length] in *. lia.
  - intros d IH rest. specialize (IH (String "}" rest)).
    cbn [need_value print_value String.length] in *. lia.
  - intros rest. cbn. lia.
  - intros v IHv l IHl rest. cbn [need_items].
    destruct l as [| v' l'].
    + specialize (IHv rest). cbn [print_items need_items]. lia.
    + rewrite print_items_more.
      specialize (IHv (String "," (String " "
                         (print_items (LCons v' l') rest)))).
      specialize (IHl rest). pose proof (need_value_pos v).
      cbn [String.length] in *. lia.
  - intros rest. cbn. lia.
  - intros k v IHv d IHd rest. cbn [need_members].
    destruct d as [| k' v' d'].
    + rewrite print_members_last.
      specialize (IHv rest).
      pose proof (length_print_chars (code_points (key_text k))
                    (String quote
                       (String ":" (String " " (print_value v rest))))).
      cbn [need_members String.length] in *. lia.
    + rewrite print_members_more.
      specialize (IHv (String "," (String " "
                         (print_members (DCons k' v' d') rest)))).
      specialize (IHd rest). pose proof (need_value_pos v).
      match goal with
      | |- context [print_chars ?l ?X] =>
          pose proof (length_print_chars l X)
      end.
      cbn [String.length] in *. lia.
Qed.

(** [json.loads(json.dumps(v)) == v], for a value that is read back. *)
Lemma json_loads_dumps (v : pyvalue) :
  valid_value v = true -> reads_back v = true ->
  json_loads (json_dumps v) = Some v.
Proof.
  intros Hvalid Hback. unfold json_loads, json_dumps.
  rewrite (proj1 (print_value_head v EmptyString Hback)).
  rewrite (proj1 parse_print v Hvalid Hback); [reflexivity | | reflexivity].
  pose proof (proj1 need_length v EmptyString). lia.
Qed.

(** *** Dict facts: assignments under a string *)

Lemma key_neq_str (s : string) (k : pykey) :
  k <> KStr s -> key_eqb k (KStr s) = false.
Proof.
  intros Hne. rewrite key_eqb_str_sym.
  destruct (key_eqb (KStr s) k) eqn:E; [| reflexivity].
  apply key_eqb_str in E. congruence.
Qed.

Lemma dict_get_set_same (s : string) (v : pyvalue) (d : pydict) :
  dict_get (KStr s) (dict_set (KStr s) v d) = Some v.
Proof.
  induction d as [| k' v' d IH]; cbn [dict_set dict_get].
  - now rewrite key_eqb_str_refl.
  - destruct (key_eqb (KStr s) k') eqn:E; cbn [dict_get]; now rewrite E.
Qed.

Lemma dict_get_set_other (s : string) (k0 : pykey) (v : pyvalue)
    (d : pydict) :
  k0 <> KStr s -> dict_get k0 (dict_set (KStr s) v d) = dict_get k0 d.
Proof.
  intros Hne%key_neq_str.
  induction d as [| k' v' d IH]; cbn [dict_set dict_get].
  - now rewrite Hne.
  - destruct (key_eqb (KStr s) k') eqn:E; cbn [dict_get].
    + apply key_eqb_str in E as ->. now rewrite Hne.
    + now rewrite IH.
Qed.

Lemma dict_has_set (s : string) (k0 : pykey) (v : pyvalue) (d : pydict) :
  dict_has k0 (dict_set (KStr s) v d)
  = key_eqb k0 (KStr s) || dict_has k0 d.
Proof.
  induction d as [| k' v' d IH]; cbn [dict_set dict_has].
  - reflexivity.
  - destruct (key_eqb (KStr s) k') eqn:E; cbn [dict_has].
    + apply key_eqb_str in E as ->. now destruct (key_eqb k0 (KStr s)).
    + rewrite IH. destruct (key_eqb k0 (KStr s)), (key_eqb k0 k');
        reflexivity.
Qed.

Lemma dict_has_get (k : pykey) (d : pydict) :
  dict_has k d = true <-> dict_get k d <> None.
Proof.
  induction d as [| k' v' d IH]; cbn [dict_has dict_get].
  - split; [discriminate | congruence].
  - destruct (key_eqb k k'); cbn [orb]; [split; congruence | exact IH].
Qed.

Lemma valid_dict_set (s : string) (v : pyvalue) (d : pydict) :
  valid_str s = true -> valid_value v = true -> valid_dict d = true ->
  valid_dict (dict_set (KStr s) v d) = true.
Proof.
  intros Hs Hv. induction d as [| k' v' d IH]; cbn [dict_set valid_dict].
  - intros _. cbn [dict_has valid_key negb andb]. now rewrite Hs, Hv.
  - intros [[[Hk Hvk]%andb_true_iff Hv']%andb_true_iff Hd]%andb_true_iff.
    destruct (key_eqb (KStr s) k') eqn:E; cbn [valid_dict].
    + now rewrite Hk, Hvk, Hv, Hd.
    + rewrite dict_has_set, IH, Hv', Hvk by assumption.
      apply negb_true_iff in Hk. rewrite Hk.
      rewrite key_eqb_str_sym, E. reflexivity.
Qed.

Lemma reads_back_dict_set (s : string) (v : pyvalue) (d : pydict) :
  str_reads_back s = true -> reads_back v = true ->
  reads_back_dict d = true ->
  reads_back_dict (dict_set (KStr s) v d) = true.
Proof.
  intros Hs Hv. induction d as [| k' v' d IH]; cbn [dict_set reads_back_dict].
  - intros _. now rewrite Hs, Hv.
  - intros [[Hk Hv']%andb_true_iff Hd]%andb_true_iff.
    destruct (key_eqb (KStr s) k'); cbn [reads_back_dict].
    + now rewrite Hk, Hv, Hd.
    + now rewrite Hk, Hv', IH.
Qed.

(** Writing a value a key already has changes nothing. *)
Lemma dict_set_same (s : string) (v : pyvalue) (d : pydict) :
  dict_get (KStr s) d = Some v -> dict_set (KStr s) v d = d.
Proof.
  induction d as [| k' v' d IH]; cbn [dict_get dict_set]; [discriminate |].
  destruct (key_eqb (KStr s) k').
  - now intros [= ->].
  - intros H. now rewrite IH.
Qed.

Lemma dict_set_truthy (k : pykey) (v : pyvalue) (d : pydict) :
  dict_truthy (dict_set k v d) = true.
Proof.
  destruct d as [| k' v' d]; cbn [dict_set]; [reflexivity |].
  now destruct (key_eqb k k').
Qed.

Lemma dict_keys_set (s : string) (v : pyvalue) (d : pydict) :
  dict_keys (dict_set (KStr s) v d)
  = if dict_has (KStr s) d then dict_keys d
    else (dict_keys d ++ [KStr s])%list.
Proof.
  induction d as [| k' v' d IH]; [reflexivity |].
  cbn [dict_set dict_has dict_keys].
  destruct (key_eqb (KStr s) k'); cbn [orb dict_keys]; [reflexivity |].
  rewrite IH. now destruct (dict_has (KStr s) d).
Qed.

(** *** The text of [json.dumps] is ASCII *)

Lemma ascii_text_append (a b : string) :
  ascii_text (a ++ b) = ascii_text a && ascii_text b.
Proof.
  induction a as [| c a IH]; [now rewrite append_nil |].
  rewrite append_cons. cbn [ascii_text]. rewrite IH. apply andb_assoc.
Qed.

Lemma hex_digit_ascii (n : N) : N.ltb (N_of_ascii (hex_digit n)) 128 = true.
Proof.
  destruct n as [| p]; [reflexivity |].
  do 5 (try (destruct p as [p | p |]; try reflexivity)).
Qed.

Lemma print_escape_ascii (n : N) (rest : string) :
  ascii_text rest = true -> ascii_text (print_escape n rest) = true.
Proof.
  intros Hrest. unfold print_escape. cbn [ascii_text].
  now rewrite !hex_digit_ascii, Hrest.
Qed.

Lemma print_char_ascii (n : N) (rest : string) :
  ascii_text rest = true -> ascii_text (print_char n rest) = true.
Proof.
  intros Hrest. unfold print_char.
  repeat match goal with
         | |- context [if ?b then _ else _] => destruct b eqn:?
         end;
    rewrite ?print_escape_ascii by (now rewrite ?print_escape_ascii);
    cbn [ascii_text]; rewrite ?Hrest; try reflexivity.
  match goal with
  | H : (_ && N.leb n 126)%bool = true |- _ =>
      apply andb_true_iff in H as [_ H]; apply N.leb_le in H
  end.
  rewrite N_ascii_embedding by lia.
  assert (N.ltb n 128 = true) as -> by (apply N.ltb_lt; lia).
  reflexivity.
Qed.

Lemma print_chars_ascii (l : list N) (rest : string) :
  ascii_text rest = true -> ascii_text (print_chars l rest) = true.
Proof.
  intros Hrest. induction l as [| n l IH]; [assumption |].
  cbn [print_chars]. now apply print_char_ascii.
Qed.

Lemma print_str_ascii (s rest : string) :
  ascii_text rest = true -> ascii_text (print_str s rest) = true.
Proof.
  intros Hrest. unfold print_str. cbn [ascii_text].
  change (N.ltb (N_of_ascii quote) 128) with true. cbn [andb].
  apply print_chars_ascii. cbn [ascii_text].
  change (N.ltb (N_of_ascii quote) 128) with true. now rewrite Hrest.
Qed.

Lemma print_uint_ascii (d : uint) (rest : string) :
  ascii_text rest = true -> ascii_text (print_uint d rest) = true.
Proof.
  intros Hrest. induction d; cbn [print_uint ascii_text]; try assumption;
    now rewrite IHd.
Qed.

Lemma print_int_ascii (z : Z) (rest : string) :
  ascii_text rest = true -> ascii_text (print_int z rest) = true.
Proof.
  intros Hrest. unfold print_int. destruct (Z.ltb z 0).
  - cbn [ascii_text]. now rewrite print_uint_ascii.
  - now apply print_uint_ascii.
Qed.

Lemma zeros_ascii (n : nat) (rest : string) :
  ascii_text rest = true -> ascii_text (zeros n rest) = true.
Proof.
  intros Hrest. induction n as [| n IH]; [assumption |].
  cbn [zeros ascii_text]. now rewrite IH.
Qed.

Lemma print_exponent_ascii (x : Z) (rest : string) :
  ascii_text rest = true -> ascii_text (print_exponent x rest) = true.
Proof.
  intros Hrest. unfold print_exponent.
  destruct (Z.ltb x 0), (Z.ltb (Z.abs x) 10); cbn [ascii_text];
    now rewrite print_uint_ascii.
Qed.

Lemma substring_ascii (s : string) :
  forall n m : nat,
    ascii_text s = true -> ascii_text (substring n m s) = true.
Proof.
  induction s as [| c s IH]; intros n m Hs.
  - now destruct n, m.
  - cbn [ascii_text] in Hs. apply andb_true_iff in Hs as [Hc Hs].
    destruct n as [| n]; [destruct m as [| m] |]; cbn [substring ascii_text].
    + reflexivity.
    + now rewrite Hc, IH.
    + now apply IH.
Qed.

Lemma print_digits_ascii (ds : string) (point : Z) (rest : string) :
  ascii_text ds = true -> ascii_text rest = true ->
  ascii_text (print_digits ds point rest) = true.
Proof.
  intros Hds Hrest. unfold print_digits.
  pose proof (print_exponent_ascii (point - 1) rest Hrest) as Hx.
  destruct (Z.leb point (- 4) || Z.ltb 16 point).
  - destruct ds as [| d0 [| d1 ds]]; [assumption | |].
    + cbn [ascii_text] in *. apply andb_true_iff in Hds as [-> _].
      now rewrite Hx.
    + cbn [ascii_text] in Hds. apply andb_true_iff in Hds as [Hd0 Hds].
      cbn [ascii_text]. rewrite Hd0, ascii_text_append, Hx.
      cbn [ascii_text]. now rewrite Hds.
  - destruct (Z.leb point 0).
    + cbn [ascii_text]. rewrite zeros_ascii; [reflexivity |].
      now rewrite ascii_text_append, Hds, Hrest.
    + destruct (Z.leb (Z.of_nat (String.length ds)) point).
      * rewrite ascii_text_append, Hds, zeros_ascii; [reflexivity |].
        cbn [ascii_text]. now rewrite Hrest.
      * rewrite ascii_text_append, substring_ascii by assumption.
        cbn [ascii_text]. rewrite ascii_text_append, substring_ascii
          by assumption.
        now rewrite Hrest.
Qed.

Lemma print_magnitude_ascii (f : spec_float) (rest : string) :
  ascii_text rest = true -> ascii_text (print_magnitude f rest) = true.
Proof.
  intros Hrest.
  destruct f as [s | s | | s m e]; cbn [print_magnitude ascii_text];
    rewrite ?Hrest; try reflexivity.
  destruct (shortest_digits m e) as [digits k].
  apply print_digits_ascii; [| assumption].
  now apply print_uint_ascii.
Qed.

Lemma print_float_ascii (f : spec_float) (rest : string) :
  ascii_text rest = true -> ascii_text (print_float f rest) = true.
Proof.
  intros Hrest.
  pose proof (print_magnitude_ascii f rest Hrest) as Hm.
  destruct f as [s | [] | | s m e]; unfold print_float, float_repr;
    cbn [float_sign];
    try (rewrite ascii_text_append, Hrest; reflexivity).
  all: destruct s; cbn [ascii_text]; now rewrite Hm.
Qed.

(** Separator and text behind it. *)
Lemma separator_ascii (c : ascii) (rest : string) :
  N.ltb (N_of_ascii c) 128 = true ->
  ascii_text rest = true ->
  ascii_text (String c (String " " rest)) = true.
Proof. intros Hc Hrest. cbn [ascii_text]. now rewrite Hc, Hrest. Qed.

Lemma print_ascii :
  (forall (v : pyvalue) (rest : string),
      ascii_text rest = true -> ascii_text (print_value v rest) = true)
  /\ (forall (l : pylist) (rest : string),
         ascii_text rest = true -> ascii_text (print_items l rest) = true)
  /\ (forall (d : pydict) (rest : string),
         ascii_text rest = true -> ascii_text (print_members d rest) = true).
Proof.
  apply pyvalue_pylist_pydict_ind.
  - intros rest Hrest. cbn [print_value].
    now rewrite ascii_text_append, Hrest.
  - intros [] rest Hrest; cbn [print_value];
      now rewrite ascii_text_append, Hrest.
  - intros z rest Hrest. now apply print_int_ascii.
  - intros f rest Hrest. now apply print_float_ascii.
  - intros s rest Hrest. now apply print_str_ascii.
  - intros l IH rest Hrest. cbn [print_value ascii_text].
    rewrite IH; [reflexivity |]. cbn [ascii_text]. now rewrite Hrest.
  - intros l IH rest Hrest. cbn [print_value ascii_text].
    rewrite IH; [reflexivity |]. cbn [ascii_text]. now rewrite Hrest.
  - intros d IH rest Hrest. cbn [print_value ascii_text].
    rewrite IH; [reflexivity |]. cbn [ascii_text]. now rewrite Hrest.
  - intros rest Hrest. assumption.
  - intros v IHv l IHl rest Hrest. destruct l as [| v' l'].
    + cbn [print_items]. now apply IHv.
    + rewrite print_items_more. apply IHv.
      apply separator_ascii; [reflexivity |]. now apply IHl.
  - intros rest Hrest. assumption.
  - intros k v IHv d IHd rest Hrest. destruct d as [| k' v' d'].
    + rewrite print_members_last. apply (print_str_ascii (key_text k)).
      apply separator_ascii; [reflexivity |]. now apply IHv.
    + rewrite print_members_more. apply (print_str_ascii (key_text k)).
      apply separator_ascii; [reflexivity |]. apply IHv.
      apply separator_ascii; [reflexivity |]. now apply IHd.
Qed.

Lemma json_dumps_ascii (v : pyvalue) : ascii_text (json_dumps v) = true.
Proof. now apply (proj1 print_ascii). Qed.

(** *** ASCII text and its bytes *)

(** A [str] within ASCII has its characters for bytes. *)
Lemma ascii_text_code_points (s : string) :
  ascii_text s = true ->
  str_of_code_points (code_points s) = s
  /\ Forall (fun n => (n < 128)%N) (code_points s)
  /\ length (code_points s) = String.length s.
Proof.
  induction s as [| c s IH]; [now repeat split |].
  cbn [ascii_text]. intros [Hc%N.ltb_lt Hs]%andb_true_iff.
  destruct (IH Hs) as (Hstr & Hall & Hlen).
  cbn [code_points].
  assert (N.ltb (N_of_ascii c) 192 = true) as -> by (apply N.ltb_lt; lia).
  split; [| split].
  - unfold str_of_code_points in *. cbn [fold_right]. rewrite Hstr.
    unfold utf8.
    assert (N.ltb (N_of_ascii c) 128 = true) as -> by now apply N.ltb_lt.
    now rewrite ascii_N_embedding.
  - now constructor.
  - cbn [length String.length]. now rewrite Hlen.
Qed.

Lemma ascii_text_valid (s : string) :
  ascii_text s = true -> valid_str s = true /\ str_reads_back s = true.
Proof.
  intros Hs. destruct (ascii_text_code_points s Hs) as (Hstr & Hall & _).
  unfold valid_str, str_reads_back. rewrite Hstr, String.eqb_refl.
  cbn [andb]. clear Hstr Hs. split.
  - apply forallb_forall. intros n Hn.
    rewrite List.Forall_forall in Hall. apply Hall in Hn.
    apply N.ltb_lt. lia.
  - apply negb_true_iff.
    induction Hall as [| n l Hn Hl IH]; [reflexivity |].
    cbn [surrogate_pair]. destruct l as [| n' l']; [reflexivity |].
    rewrite IH. unfold high_surrogate.
    assert (N.leb 55296 n = false) as -> by (apply N.leb_gt; lia).
    reflexivity.
Qed.

Lemma bytes_decode_encode (s : string) :
  ascii_text s = true -> bytes_decode (str_encode s) = Some s.
Proof.
  intros Hs. unfold bytes_decode, str_encode.
  rewrite string_of_list_byte_of_string.
  destruct (ascii_text_code_points s Hs) as (_ & Hall & _).
  rewrite (proj1 (ascii_text_valid s Hs)). cbn [andb].
  assert (forallb (fun n => negb (high_surrogate n || low_surrogate n))
            (code_points s) = true) as ->; [| reflexivity].
  apply forallb_forall. intros n Hn.
  rewrite List.Forall_forall in Hall. apply Hall in Hn.
  unfold high_surrogate, low_surrogate.
  assert (N.leb 55296 n = false) as -> by (apply N.leb_gt; lia).
  assert (N.leb 56320 n = false) as -> by (apply N.leb_gt; lia).
  reflexivity.
Qed.

Lemma byte_of_ascii_code (c : ascii) :
  N.eqb (Byte.to_N (byte_of_ascii c)) (N_of_ascii c) = true.
Proof. destruct c as [[] [] [] [] [] [] [] []]; vm_compute; reflexivity. Qed.

Lemma length_str_encode (s : string) :
  length (str_encode s) = String.length s.
Proof.
  unfold str_encode. induction s as [| c s IH]; [reflexivity |].
  cbn [list_byte_of_string String.length]. now rewrite <- IH.
Qed.

Lemma str_encode_ascii (s : string) :
  ascii_text s = true ->
  Forall (fun b => (Byte.to_N b < 128)%N) (str_encode s)
  /\ length (str_encode s) = length (code_points s).
Proof.
  intros Hs. destruct (ascii_text_code_points s Hs) as (_ & _ & ->).
  split; [| apply length_str_encode].
  unfold str_encode.
  induction s as [| c s IH]; [constructor |].
  cbn [ascii_text] in Hs. apply andb_true_iff in Hs as [Hc%N.ltb_lt Hs].
  pose proof (byte_of_ascii_code c) as Hb%N.eqb_eq.
  cbn [list_byte_of_string]. constructor; [lia | now apply IH].
Qed.

(** *** Examples *)

Example json_dumps_list :
  json_dumps
    (PList (LCons (PInt 1) (LCons (PInt (-20)) (LCons PNone
       (LCons (PBool true) (LCons (PList LNil) (LCons (PDict DNil)
          (LCons (PFloat one_and_a_half) (LCons (PFloat one_tenth)
             LNil)))))))))
  = "[1, -20, null, true, [], {}, 1.5, 0.1]".
Proof. vm_compute. reflexivity. Qed.

Example json_dumps_wide_text :
  json_dumps (PStr wide_text)
  = String quote ("\u20ac \ud83d\ude00" ++ String quote EmptyString).
Proof. vm_compute. reflexivity. Qed.

Example json_dumps_keys :
  json_dumps
    (PDict (DCons (KInt 3) (PTuple (LCons (PInt 1) LNil))
       (DCons (KBool true) (PFloat S754_nan) (DCons KNone PNone DNil))))
  = String "{"
      (String quote ("3" ++ String quote (": [1], "
         ++ String quote ("true" ++ String quote (": NaN, "
         ++ String quote ("null" ++ String quote ": null}")))))).
Proof. vm_compute. reflexivity. Qed.

Example float_repr_samples :
  map (fun '(digits, exponent) =>
         float_repr (float_of_decimal true (Z.to_N digits) exponent)
           EmptyString)
    [(1, 0); (1, -1); (1, 16); (1, 17); (1, -4); (1, -5); (5, -324);
     (123456789, -4); (9007199254740993, 0)]
  = ["-1.0"; "-0.1"; "-1e+16"; "-1e+17"; "-0.0001"; "-1e-05"; "-5e-324";
     "-12345.6789"; "-9007199254740992.0"].
Proof. vm_compute. reflexivity. Qed.

(** The floats of the sample numerals are read back from their text. *)
Example floats_read_back :
  forallb
    (fun '(digits, exponent) =>
       let f := float_of_decimal false (Z.to_N digits) exponent in
       valid_float f && float_reads_back f)
    float_samples
  = true.
Proof. vm_compute. reflexivity. Qed.

Example json_loads_spaced :
  json_loads " [ 1 ,-20,null , true, [ ], {}, 1.5 , 1e-1 ] "
  = Some (PList (LCons (PInt 1) (LCons (PInt (-20)) (LCons PNone
       (LCons (PBool true) (LCons (PList LNil) (LCons (PDict DNil)
          (LCons (PFloat one_and_a_half) (LCons (PFloat one_tenth)
             LNil))))))))).
Proof. vm_compute. reflexivity. Qed.

Example json_loads_rejects :
  json_loads "[01]" = None /\ json_loads "[1.]" = None
  /\ json_loads "[1, 2" = None /\ json_loads "[1] 2" = None.
Proof. vm_compute. repeat split. Qed.

(** ** The message envelope *)

Lemma deref_insert (heap : gmap nat pydict) (address : nat) (d : pydict) :
  deref (<[address := d]> heap) address = d.
Proof. unfold deref. now rewrite lookup_insert_eq. Qed.

Lemma deref_new_dict (heap : gmap nat pydict) :
  deref (snd (new_dict heap)) (fst (new_dict heap)) = DNil
  /\ heap !! fst (new_dict heap) = None.
Proof.
  unfold new_dict. cbn [fst snd]. split; [apply deref_insert |].
  apply not_elem_of_dom, is_fresh.
Qed.

(** The object [build_message] works on holds, from the assignments on,
    the envelope of what the caller passed. *)
Lemma or_new_dict_envelope (settings : Settings) (message_type : string)
    (heap : gmap nat pydict) (message : nat) (payload : pydict) :
  heap !! message = Some payload ->
  envelope settings message_type
    (deref (snd (or_new_dict (Some message) heap))
       (fst (or_new_dict (Some message) heap)))
  = envelope settings message_type payload.
Proof.
  intros Hpayload. unfold or_new_dict.
  assert (Hderef : deref heap message = payload)
    by (unfold deref; now rewrite Hpayload).
  rewrite Hderef. destruct payload as [| k v payload]; cbn [dict_truthy].
  - now rewrite (proj1 (deref_new_dict heap)).
  - cbn [fst snd]. now rewrite Hderef.
Qed.

Lemma build_message_bytes (settings : Settings) (message_type : string)
    (heap : gmap nat pydict) (message : nat) (payload : pydict) :
  heap !! message = Some payload ->
  fst (build_message settings (Some message) message_type heap)
  = str_encode (json_dumps (PDict (envelope settings message_type payload))).
Proof.
  intros Hpayload. unfold build_message.
  pose proof (or_new_dict_envelope settings message_type heap message payload
                Hpayload) as Henv.
  destruct (or_new_dict (Some message) heap) as [address heap0].
  cbn [fst snd] in *. unfold setitem.
  rewrite !deref_insert. unfold envelope in Henv. now rewrite Henv.
Qed.

Lemma valid_envelope (settings : Settings) (message_type : string)
    (payload : pydict) :
  valid_str message_type = true -> valid_str (name settings) = true ->
  valid_dict payload = true ->
  valid_dict (envelope settings message_type payload) = true.
Proof.
  intros Htype Hname Hvalid. unfold envelope.
  apply valid_dict_set; [reflexivity | exact Hname |].
  now apply valid_dict_set.
Qed.

Lemma reads_back_envelope (settings : Settings) (message_type : string)
    (payload : pydict) :
  str_reads_back message_type = true ->
  str_reads_back (name settings) = true ->
  reads_back_dict payload = true ->
  reads_back_dict (envelope settings message_type payload) = true.
Proof.
  intros Htype Hname Hback. unfold envelope.
  apply reads_back_dict_set; [reflexivity | exact Hname |].
  now apply reads_back_dict_set.
Qed.

Lemma envelope_type (settings : Settings) (message_type : string)
    (payload : pydict) :
  dict_get "type" (envelope settings message_type payload)
  = Some (PStr message_type).
Proof.
  unfold envelope. rewrite dict_get_set_other by discriminate.
  apply dict_get_set_same.
Qed.

Lemma envelope_resource (settings : Settings) (message_type : string)
    (payload : pydict) :
  dict_get "resource" (envelope settings message_type payload)
  = Some (PStr (name settings)).
Proof. unfold envelope. apply dict_get_set_same. Qed.

Lemma envelope_other (settings : Settings) (message_type : string)
    (payload : pydict) (k : pykey) :
  k <> KStr "type" -> k <> KStr "resource" ->
  dict_get k (envelope settings message_type payload) = dict_get k payload.
Proof.
  intros Ht Hr. unfold envelope.
  now rewrite !dict_get_set_other by assumption.
Qed.

Lemma envelope_idempotent (settings : Settings) (message_type : string)
    (payload : pydict) :
  envelope settings message_type (envelope settings message_type payload)
  = envelope settings message_type payload.
Proof.
  unfold envelope at 1.
  rewrite (dict_set_same "type") by apply envelope_type.
  now rewrite (dict_set_same "resource") by apply envelope_resource.
Qed.

Lemma decode_dumps (d : pydict) :
  valid_dict d = true -> reads_back_dict d = true ->
  decode (str_encode (json_dumps (PDict d))) = Some d.
Proof.
  intros Hvalid Hback. unfold decode.
  rewrite bytes_decode_encode by apply json_dumps_ascii.
  now rewrite json_loads_dumps.
Qed.

Lemma decode_envelope (settings : Settings) (message_type : string)
    (payload : pydict) :
  valid_str message_type = true -> valid_str (name settings) = true ->
  valid_dict payload = true ->
  str_reads_back message_type = true ->
  str_reads_back (name settings) = true ->
  reads_back_dict payload = true ->
  decode (str_encode
            (json_dumps (PDict (envelope settings message_type payload))))
  = Some (envelope settings message_type payload).
Proof.
  intros Htype Hname Hvalid Hbtype Hbname Hback.
  apply decode_dumps; [now apply valid_envelope | now apply reads_back_envelope].
Qed.

(** C7, as it is worded, fails for a payload that [json.loads] does not
    give back as [json.dumps] took it.  An integer for a key is written
    as a string: the decoded mapping has nothing under [3] and the value
    under ["3"].  A tuple is written as a list, and a list is what is
    decoded.  A high surrogate followed by a low one is decoded as the one
    character the two stand for. *)
Lemma build_message_not_read_back :
  (decode (fst (build_message resource_R (Some 0%nat) "data" int_key_heap))
   = Some (DCons "3" (PStr "int key")
             (DCons "type" (PStr "data") (DCons "resource" (PStr "R") DNil)))
   /\ dict_get (KInt 3) int_key_payload = Some (PStr "int key")
   /\ dict_get (KInt 3)
        (DCons "3" (PStr "int key")
           (DCons "type" (PStr "data") (DCons "resource" (PStr "R") DNil)))
      = None)
  /\ (decode (fst (build_message resource_R (Some 0%nat) "data" tuple_heap))
      = Some (DCons "pair" (PList (LCons (PInt 1) (LCons (PInt 2) LNil)))
                (DCons "type" (PStr "data")
                   (DCons "resource" (PStr "R") DNil)))
      /\ dict_get "pair" tuple_payload
         = Some (PTuple (LCons (PInt 1) (LCons (PInt 2) LNil))))
  /\ (decode (fst (build_message resource_R (Some 0%nat) "data"
                     surrogates_heap))
      = Some (DCons "text" (PStr (str_of_code_points [128512%N]))
                (DCons "type" (PStr "data")
                   (DCons "resource" (PStr "R") DNil)))
      /\ dict_get "text" surrogates_payload
         = Some (PStr (str_of_code_points [55357%N; 56832%N]))
      /\ valid_dict surrogates_payload = true).
Proof. vm_compute. repeat split. Qed.

(** C7. For a payload that is read back (its keys are strings, it holds
    no tuple and no high surrogate followed by a low one, and its floats
    are read back from their text, here and in every value nested below)
    and a message type and a resource name that are, decoding the bytes
    [build_message] makes of the payload gives a mapping with [type] bound
    to the message type ("data" when that is what was passed), [resource]
    bound to the name of the resource, and every other key bound as in the
    payload, whatever the payload said about [type] and [resource]; and
    encoding the decoded mapping again gives bytes that decode to the same
    mapping, hence to the same keys. *)
Theorem build_message_decodes (settings : Settings) (message_type : string)
    (heap : gmap nat pydict) (message : nat) (payload : pydict) :
  heap !! message = Some payload ->
  valid_dict payload = true ->
  valid_str message_type = true ->
  valid_str (name settings) = true ->
  reads_back_dict payload = true ->
  str_reads_back message_type = true ->
  str_reads_back (name settings) = true ->
  exists decoded : pydict,
    decode (fst (build_message settings (Some message) message_type heap))
    = Some decoded
    /\ dict_get "type" decoded = Some (PStr message_type)
    /\ dict_get "resource" decoded = Some (PStr (name settings))
    /\ (forall k : pykey, k <> KStr "type" -> k <> KStr "resource" ->
                          dict_get k decoded = dict_get k payload)
    /\ (forall (heap' : gmap nat pydict) (message' : nat),
           heap' !! message' = Some decoded ->
           exists again : pydict,
             decode (fst (build_message settings (Some message')
                            message_type heap'))
             = Some again
             /\ again = decoded
             /\ dict_keys again = dict_keys decoded).
Proof.
  intros Hpayload Hvalid Htype Hname Hback Hbtype Hbname.
  exists (envelope settings message_type payload).
  rewrite (build_message_bytes _ _ _ _ _ Hpayload).
  split; [now apply decode_envelope |].
  split; [apply envelope_type |].
  split; [apply envelope_resource |].
  split; [intros k; apply envelope_other |].
  intros heap' message' Hdecoded.
  exists (envelope settings message_type payload).
  rewrite (build_message_bytes _ _ _ _ _ Hdecoded), envelope_idempotent.
  split; [| split; reflexivity].
  now apply decode_envelope.
Qed.

Lemma build_message_decodes_witness :
  exists decoded : pydict,
    decode (fst (build_message resource_R (Some 0%nat) "data" wide_heap))
    = Some decoded
    /\ dict_get "type" decoded = Some (PStr "data")
    /\ dict_get "resource" decoded = Some (PStr "R")
    /\ (forall k : pykey, k <> KStr "type" -> k <> KStr "resource" ->
                          dict_get k decoded = dict_get k wide_payload)
    /\ (forall (heap' : gmap nat pydict) (message' : nat),
           heap' !! message' = Some decoded ->
           exists again : pydict,
             decode (fst (build_message resource_R (Some message') "data"
                            heap'))
             = Some again
             /\ again = decoded
             /\ dict_keys again = dict_keys decoded).
Proof.
  apply (build_message_decodes resource_R "data" wide_heap 0%nat
           wide_payload); vm_compute; reflexivity.
Defined.

(** C10, as it is worded, fails for an empty mapping: the caller's object
    is still empty after the call, with neither [type] nor [resource] in
    it; the envelope was built in a new object. *)
Lemma build_message_leaves_empty_payload :
  snd (build_message resource_R (Some 0%nat) "data" empty_payload_heap)
    !! 0%nat = Some DNil
  /\ dict_get "type"
       (deref (snd (build_message resource_R (Some 0%nat) "data"
                      empty_payload_heap)) 0%nat) = None
  /\ dict_get "resource"
       (deref (snd (build_message resource_R (Some 0%nat) "data"
                      empty_payload_heap)) 0%nat) = None.
Proof. vm_compute. repeat split. Qed.

(** C10. [build_message] works on the caller's own object when that is a
    non-empty mapping: after the call the object at the caller's address
    has [type] bound to the message type and [resource] to the name of
    the resource, every other key bound as before, and no other object
    has changed or appeared.  An empty mapping is left as it is: the
    envelope then goes to a new object and every object the caller had
    is unchanged. *)
Theorem build_message_in_place (settings : Settings) (message_type : string)
    (heap : gmap nat pydict) (message : nat) (payload : pydict) :
  heap !! message = Some payload ->
  (payload <> DNil ->
   exists after : pydict,
     snd (build_message settings (Some message) message_type heap) !! message
     = Some after
     /\ dict_get "type" after = Some (PStr message_type)
     /\ dict_get "resource" after = Some (PStr (name settings))
     /\ (forall k : pykey, k <> KStr "type" -> k <> KStr "resource" ->
                           dict_get k after = dict_get k payload)
     /\ (forall address, address <> message ->
           snd (build_message settings (Some message) message_type heap)
             !! address = heap !! address))
  /\ (payload = DNil ->
      forall address, is_Some (heap !! address) ->
        snd (build_message settings (Some message) message_type heap)
          !! address = heap !! address).
Proof.
  intros Hpayload.
  assert (Hderef : deref heap message = payload)
    by (unfold deref; now rewrite Hpayload).
  unfold build_message, or_new_dict. rewrite Hderef.
  destruct payload as [| k0 v0 payload]; cbn [dict_truthy]; split;
    try congruence.
  - intros _ address Hsome. unfold new_dict, setitem. cbn [snd].
    assert (Hne : fresh (dom heap) <> address).
    { intros <-. apply (is_fresh (dom heap)). now apply elem_of_dom. }
    now rewrite !lookup_insert_ne by assumption.
  - intros _. exists (envelope settings message_type (DCons k0 v0 payload)).
    cbn [snd]. unfold setitem.
    split.
    { rewrite lookup_insert_eq, deref_insert, Hderef. reflexivity. }
    split; [apply envelope_type |].
    split; [apply envelope_resource |].
    split; [intros k; apply envelope_other |].
    intros address Hne. now rewrite !lookup_insert_ne by congruence.
Qed.

Lemma build_message_in_place_witness :
  exists after : pydict,
    snd (build_message resource_R (Some 0%nat) "data" sample_heap) !! 0%nat
    = Some after
    /\ dict_get "type" after = Some (PStr "data")
    /\ dict_get "resource" after = Some (PStr "R")
    /\ (forall k : pykey, k <> KStr "type" -> k <> KStr "resource" ->
                          dict_get k after = dict_get k sample_payload)
    /\ (forall address, address <> 0%nat ->
          snd (build_message resource_R (Some 0%nat) "data" sample_heap)
            !! address = sample_heap !! address).
Proof.
  apply (proj1 (build_message_in_place resource_R "data" sample_heap 0%nat
                  sample_payload eq_refl)).
  discriminate.
Defined.

(** ** Topology resolver: names do not collide *)

(** What a queue name is made of. *)
Lemma build_queue_name_some (direction layer queue : string) :
  build_queue_name direction layer = Some queue ->
  layer <> EmptyString
  /\ (direction = "southbound" \/ direction = "northbound")
  /\ queue = direction ++ "." ++ layer.
Proof.
  unfold build_queue_name.
  destruct (str_truthy layer) eqn:Hl; [| discriminate].
  destruct (str_in direction constants.LAYER_ORIENTATIONS) eqn:Hd;
    [| discriminate].
  cbn [andb]. intros [= <-].
  apply str_truthy_true in Hl. apply str_in_orientations in Hd.
  repeat split; assumption.
Qed.

Lemma build_queue_name_none (direction layer : string) :
  direction = "southbound" \/ direction = "northbound" ->
  build_queue_name direction layer = None <-> layer = EmptyString.
Proof.
  intros Hd. unfold build_queue_name.
  apply str_in_orientations in Hd. rewrite Hd, andb_true_r.
  destruct layer; cbn [str_truthy]; split; congruence.
Qed.

Lemma build_exchange_name_some (direction layer exchange : string) :
  build_exchange_name direction layer = Some exchange ->
  exists queue,
    build_queue_name direction layer = Some queue
    /\ exchange = "exchange." ++ queue.
Proof.
  unfold build_exchange_name.
  destruct (build_queue_name direction layer) as [queue |]; [| discriminate].
  destruct (str_truthy queue); [| discriminate].
  intros [= <-]. now exists queue.
Qed.

Lemma same_queue_name (direction layer direction' layer' queue : string) :
  build_queue_name direction layer = Some queue ->
  build_queue_name direction' layer' = Some queue ->
  direction = direction' /\ layer = layer'.
Proof.
  intros (_ & Hd & ->)%build_queue_name_some
    (_ & Hd' & Heq)%build_queue_name_some.
  destruct Hd as [-> | ->], Hd' as [-> | ->]; cbv [String.append] in Heq;
    simplify_eq; split; reflexivity.
Qed.

(** X1. Two calls of [build_queue_name] that give the same name were made
    with the same direction and the same layer, and likewise for
    [build_exchange_name]: no two boundaries share a queue or an
    exchange. *)
Theorem names_identify_direction_and_layer
    (direction layer direction' layer' : string) :
  (forall queue,
      build_queue_name direction layer = Some queue ->
      build_queue_name direction' layer' = Some queue ->
      direction = direction' /\ layer = layer')
  /\ (forall exchange,
         build_exchange_name direction layer = Some exchange ->
         build_exchange_name direction' layer' = Some exchange ->
         direction = direction' /\ layer = layer').
Proof.
  split; [intros queue; apply same_queue_name |].
  intros exchange (queue & H1 & ->)%build_exchange_name_some
    (queue' & H2 & Heq)%build_exchange_name_some.
  cbv [String.append] in Heq. simplify_eq.
  now apply (same_queue_name _ _ _ _ queue').
Qed.

Lemma names_identify_direction_and_layer_witness :
  build_queue_name "northbound" "L0" = Some "northbound.L0"
  /\ build_exchange_name "northbound" "L0" = Some "exchange.northbound.L0"
  /\ ("northbound" = "northbound" /\ "L0" = "L0").
Proof.
  split; [reflexivity |]. split; [reflexivity |].
  apply (proj2 (names_identify_direction_and_layer
                  "northbound" "L0" "northbound" "L0")
           "exchange.northbound.L0"); reflexivity.
Defined.

(** X2. A name [build_exchange_name] gives is never a name
    [build_queue_name] gives, whatever the directions and layers. *)
Theorem exchange_name_is_no_queue_name
    (direction layer direction' layer' name : string) :
  build_exchange_name direction layer = Some name ->
  build_queue_name direction' layer' <> Some name.
Proof.
  intros (queue & _ & ->)%build_exchange_name_some
    (_ & Hd' & Heq)%build_queue_name_some.
  destruct Hd' as [-> | ->]; cbv [String.append] in Heq; discriminate.
Qed.

Lemma exchange_name_is_no_queue_name_witness :
  build_exchange_name "southbound" "L1" = Some "exchange.southbound.L1"
  /\ build_queue_name "southbound" "L1" <> Some "exchange.southbound.L1".
Proof.
  split; [reflexivity |].
  apply (exchange_name_is_no_queue_name "southbound" "L1").
  reflexivity.
Defined.

(** ** Topology resolver: what the enumeration holds *)

Lemma removelast_take {A} (l : list A) :
  removelast l = take (pred (length l)) l.
Proof.
  induction l as [| x [| y l] IH]; [reflexivity | reflexivity |].
  change (removelast (x :: y :: l)) with (x :: removelast (y :: l)).
  rewrite IH. reflexivity.
Qed.

Lemma lookup_removelast {A} (l : list A) (i : nat) :
  removelast l !! i
  = if decide (S i < length l)%nat then l !! i else None.
Proof.
  rewrite removelast_take.
  destruct (decide (S i < length l)%nat) as [Hlt | Hge].
  - apply lookup_take_lt. lia.
  - apply lookup_take_ge. lia.
Qed.

(** X3. A name is in the result of [build_all_layer_queue_names] exactly
    when it is what [build_queue_name] gives for a known orientation and
    the layer at some index for which [is_existant_layer_queue] holds. *)
Theorem build_all_layer_queue_names_elements (settings : Settings)
    (queue : option string) :
  queue ∈ build_all_layer_queue_names settings
  <-> exists (orientation : string) (idx : nat) (layer : string),
      orientation ∈ constants.LAYER_ORIENTATIONS
      /\ layers settings !! idx = Some layer
      /\ is_existant_layer_queue settings orientation (Z.of_nat idx) = true
      /\ queue = build_queue_name orientation layer.
Proof.
  rewrite build_all_layer_queue_names_closed, elem_of_app.
  rewrite !list_elem_of_fmap.
  unfold constants.LAYER_ORIENTATIONS. split.
  - intros [(layer & -> & Hin) | (layer & -> & Hin)];
      apply list_elem_of_lookup in Hin as [i Hi].
    + rewrite lookup_tail in Hi.
      exists "southbound", (S i), layer.
      split; [set_solver |]. split; [assumption |]. split; [| reflexivity].
      rewrite southbound_exists.
      destruct (Z.eqb_spec (Z.of_nat (S i)) 0); [lia | reflexivity].
    + rewrite lookup_removelast in Hi.
      destruct (decide (S i < length (layers settings))%nat); [| discriminate].
      exists "northbound", i, layer.
      split; [set_solver |]. split; [assumption |]. split; [| reflexivity].
      rewrite northbound_exists. unfold len.
      destruct (Z.eqb_spec (Z.of_nat i)
                  (Z.of_nat (length (layers settings)) - 1));
        [lia | reflexivity].
  - intros (orientation & idx & layer & Ho & Hidx & Hex & ->).
    assert (Hlt : (idx < length (layers settings))%nat)
      by (eapply lookup_lt_Some; eassumption).
    apply list_elem_of_In in Ho. cbn [In] in Ho.
    destruct Ho as [<- | [<- | []]].
    + left. exists layer. split; [reflexivity |].
      rewrite southbound_exists in Hex.
      destruct idx as [| i]; [discriminate |].
      apply list_elem_of_lookup. exists i. now rewrite lookup_tail.
    + right. exists layer. split; [reflexivity |].
      rewrite northbound_exists in Hex. unfold len in Hex.
      destruct (Z.eqb_spec (Z.of_nat idx)
                  (Z.of_nat (length (layers settings)) - 1));
        [discriminate |].
      apply list_elem_of_lookup. exists idx. rewrite lookup_removelast.
      destruct (decide (S idx < length (layers settings))%nat); [assumption |].
      lia.
Qed.

(** X5. [build_all_layer_queue_names] does not drop the [None] that
    [build_queue_name] gives for an empty layer name: the result holds
    [None] exactly when a layer other than the first, or other than the
    last, has the empty name. *)
Theorem build_all_layer_queue_names_none (settings : Settings) :
  None ∈ build_all_layer_queue_names settings
  <-> EmptyString ∈ tail (layers settings)
      \/ EmptyString ∈ removelast (layers settings).
Proof.
  rewrite build_all_layer_queue_names_closed, elem_of_app.
  rewrite !list_elem_of_fmap.
  split.
  - intros [(layer & Hnone & Hin) | (layer & Hnone & Hin)];
      symmetry in Hnone; apply build_queue_name_none in Hnone; subst;
      auto.
  - intros [Hin | Hin]; [left | right]; exists EmptyString;
      (split; [reflexivity | assumption]).
Qed.

(** X4. Over layers with distinct, non-empty names
    [build_all_layer_queue_names] gives no name twice. *)
Theorem build_all_layer_queue_names_distinct (settings : Settings) :
  NoDup (layers settings) ->
  Forall (fun layer => layer <> EmptyString) (layers settings) ->
  NoDup (build_all_layer_queue_names settings).
Proof.
  intros Hdistinct Hnames.
  assert (Hinj : forall direction,
             direction = "southbound" \/ direction = "northbound" ->
             forall l : list string,
               NoDup l -> NoDup (map (build_queue_name direction) l)).
  { intros direction Hd l Hl. apply NoDup_fmap_2_strong; [| assumption].
    intros layer layer' _ _ Heq.
    destruct (build_queue_name direction layer) as [queue |] eqn:Hq.
    - symmetry in Heq.
      now destruct (same_queue_name _ _ _ _ queue Hq Heq).
    - symmetry in Heq. apply build_queue_name_none in Hq, Heq; try assumption.
      congruence. }
  rewrite build_all_layer_queue_names_closed. apply NoDup_app.
  split; [| split].
  - apply Hinj; [now left |].
    destruct (layers settings) as [| x l]; [constructor |].
    now apply NoDup_cons in Hdistinct as [_ ?].
  - intros queue (layer & -> & Hin)%list_elem_of_fmap
      (layer' & Heq & Hin')%list_elem_of_fmap.
    destruct (build_queue_name "southbound" layer) as [queue |] eqn:Hq.
    + symmetry in Heq.
      destruct (same_queue_name _ _ _ _ queue Hq Heq) as [Hd _].
      discriminate.
    + apply build_queue_name_none in Hq; [| now left]. subst layer.
      rewrite Forall_forall in Hnames. apply (Hnames EmptyString); [| reflexivity].
      destruct (layers settings) as [| x l]; [inversion Hin |].
      now right.
  - apply Hinj; [now right |].
    rewrite removelast_take.
    eapply sublist_NoDup; [eassumption | apply sublist_take].
Qed.

Lemma build_all_layer_queue_names_distinct_witness :
  NoDup (build_all_layer_queue_names three_layers).
Proof.
  apply (build_all_layer_queue_names_distinct three_layers).
  - apply (bool_decide_unpack _). vm_compute. exact I.
  - repeat constructor; discriminate.
Defined.

(** ** Consumer-local queues: several names *)

Section LocalQueueTrafficFacts.

Context {Message : Type}.
Implicit Types (queues : gmap string (list Message)).
Implicit Types (messages queue : list Message).

Lemma pending_push_other (queue_name other : string) (message : Message)
    queues :
  other <> queue_name ->
  pending other
    (push_message_to_consumer_local_queue queue_name message queues)
  = pending other queues.
Proof.
  intros Hne.
  unfold pending, push_message_to_consumer_local_queue,
    get_consumer_local_queue.
  destruct (queues !! queue_name) as [queue |] eqn:Hq; simpl;
    now rewrite ?lookup_insert_ne by congruence.
Qed.

Lemma pending_push_each (queue_name : string)
    (pushes : list (string * Message)) :
  forall queues,
    pending queue_name (push_each pushes queues)
    = (pending queue_name queues ++ pushed_under queue_name pushes)%list.
Proof.
  unfold push_each, pushed_under.
  induction pushes as [| [name message] pushes IH]; intros queues.
  - cbn. now rewrite app_nil_r.
  - cbn [fold_left omap list_omap fst snd]. rewrite IH.
    destruct (String.eqb_spec name queue_name) as [-> | Hne].
    + rewrite pending_push, <- app_assoc. reflexivity.
    + now rewrite pending_push_other by congruence.
Qed.

(** X6. However the pushes under a name are mixed with pushes under other
    names, [get_messages_from_consumer_local_queue] returns what was
    waiting under the name followed by what was pushed under it since, in
    push order, and leaves nothing waiting under it. *)
Theorem drain_returns_all_in_order (queue_name : string)
    (pushes : list (string * Message)) queues (fuel : nat) :
  (length (pending queue_name queues)
   + length (pushed_under queue_name pushes) < fuel)%nat ->
  exists drained,
    get_messages_from_consumer_local_queue fuel queue_name
      (push_each pushes queues)
    = Returned
        ((pending queue_name queues ++ pushed_under queue_name pushes)%list,
         drained)
    /\ pending queue_name drained = [].
Proof.
  intros Hfuel. eexists. split.
  - rewrite get_messages_returns.
    + now rewrite pending_push_each.
    + rewrite pending_push_each, length_app. lia.
  - unfold pending. now rewrite lookup_insert_eq.
Qed.

(** X7. Pushing and draining under one name leave what is waiting under
    every other name as it was. *)
Theorem other_queues_untouched (queue_name other : string) queues :
  other <> queue_name ->
  (forall message,
      pending other
        (push_message_to_consumer_local_queue queue_name message queues)
      = pending other queues)
  /\ (forall fuel messages drained,
         get_messages_from_consumer_local_queue fuel queue_name queues
         = Returned (messages, drained) ->
         pending other drained = pending other queues).
Proof.
  intros Hne. split.
  - intros message. now apply pending_push_other.
  - intros fuel messages drained.
    unfold get_messages_from_consumer_local_queue, get_consumer_local_queue.
    destruct (queues !! queue_name) as [queue |] eqn:Hq;
      destruct (drain_loop fuel _ _) as [[ms q] | | |]; try discriminate;
      intros [= _ <-]; unfold pending;
      now rewrite ?lookup_insert_ne by congruence.
Qed.

(** X8. A queue comes into being on first use: under a name the dict does
    not know, [get_consumer_local_queue] and a drain both put an empty
    queue there (the drain returning no message), and a push puts a queue
    holding just the message; under a name the dict knows,
    [get_consumer_local_queue] hands out the queue that is there and
    leaves the dict as it is. *)
Theorem queue_created_on_first_use (queue_name : string) queues :
  (queues !! queue_name = None ->
   get_consumer_local_queue queue_name queues
   = ([], <[queue_name := []]> queues)
   /\ (forall fuel, (0 < fuel)%nat ->
         get_messages_from_consumer_local_queue fuel queue_name queues
         = Returned ([], <[queue_name := []]> queues))
   /\ (forall message,
         push_message_to_consumer_local_queue queue_name message queues
         = <[queue_name := [message]]> queues))
  /\ (forall queue,
         queues !! queue_name = Some queue ->
         get_consumer_local_queue queue_name queues = (queue, queues)).
Proof.
  split.
  - intros Hnone. split; [| split].
    + unfold get_consumer_local_queue. now rewrite Hnone.
    + intros fuel Hfuel. rewrite get_messages_returns.
      * unfold pending. now rewrite Hnone.
      * unfold pending. rewrite Hnone. cbn. lia.
    + intros message.
      unfold push_message_to_consumer_local_queue, get_consumer_local_queue.
      rewrite Hnone. cbn. now rewrite insert_insert_eq.
  - intros queue Hsome. unfold get_consumer_local_queue. now rewrite Hsome.
Qed.

End LocalQueueTrafficFacts.

Lemma drain_returns_all_in_order_witness :
  exists drained,
    get_messages_from_consumer_local_queue 5 "northbound.L0"
      (push_each [("northbound.L0", "b"); ("southbound.L1", "x");
                  ("northbound.L0", "c")]
         ({[ "northbound.L0" := ["a"] ]} : gmap string (list string)))
    = Returned (["a"; "b"; "c"], drained)
    /\ pending "northbound.L0" drained = [].
Proof.
  destruct (drain_returns_all_in_order "northbound.L0"
              [("northbound.L0", "b"); ("southbound.L1", "x");
               ("northbound.L0", "c")]
              ({[ "northbound.L0" := ["a"] ]} : gmap string (list string)) 5)
    as (drained & Hrun & Hempty); [vm_compute; lia |].
  exists drained. split; [exact Hrun | exact Hempty].
Defined.

Lemma other_queues_untouched_witness :
  pending "southbound.L1"
    (push_message_to_consumer_local_queue "northbound.L0" "a"
       ({[ "southbound.L1" := ["x"] ]} : gmap string (list string)))
  = pending "southbound.L1"
      ({[ "southbound.L1" := ["x"] ]} : gmap string (list string)).
Proof.
  apply (proj1 (other_queues_untouched "northbound.L0" "southbound.L1"
                  ({[ "southbound.L1" := ["x"] ]}
                   : gmap string (list string)) ltac:(discriminate))).
Defined.

Lemma queue_created_on_first_use_witness :
  get_messages_from_consumer_local_queue 1 "northbound.L0"
    (∅ : gmap string (list string))
  = Returned ([], {[ "northbound.L0" := [] ]}).
Proof.
  apply (proj1 (proj2 (proj1 (queue_created_on_first_use "northbound.L0"
                                (∅ : gmap string (list string)))
                         (lookup_empty _)))
           1%nat).
  lia.
Defined.

(** ** The retry loops: what holds of every run *)

(** One attempt of [try_queue_subscribe]. *)
Lemma subscribe_attempt_facts (a : attempt) (queue_name callback : string)
    (self : Resource) :
  exists new,
    journal (snd ((log DEBUG ;;; subscribe_attempt a queue_name callback) self))
    = (journal self ++ new)%list
    /\ caught_failures new = 0%nat
    /\ pauses new = []
    /\ recreations new = opened_by a self
    /\ match fst ((log DEBUG ;;; subscribe_attempt a queue_name callback) self)
       with
       | Ok _ =>
           attachments new
           = [(queue_name, callback,
               number (channel (snd ((log DEBUG ;;;
                         subscribe_attempt a queue_name callback) self))))]
           /\ is_closed (channel (snd ((log DEBUG ;;;
                           subscribe_attempt a queue_name callback) self)))
              = false
           /\ subscribe_ends_channel_closed a (is_closed (channel self))
              = false
       | Raise e =>
           attachments new = []
           /\ caught_by_retry e
              = subscribe_ends_channel_closed a (is_closed (channel self))
       end.
Proof.
  destruct self as [loop [cc opened] [n closed] j], a as [c l s k].
  unfold subscribe_attempt, reopen_if_closed, opened_by,
    subscribe_ends_channel_closed, queue_closed_failure.
  destruct closed, c as [| [t1 | ? ?]], l as [| [t2 | ? ?]],
    s as [| [t3 | ? ?]]; simpl.
  all: eexists; rewrite <- ?app_assoc; split; [reflexivity |].
  all: repeat split.
Qed.

(** One attempt of [try_get_exchange]. *)
Lemma exchange_attempt_facts (a : attempt) (exchange_name : string)
    (self : Resource) :
  exists new,
    journal (snd ((log DEBUG ;;; exchange_attempt a exchange_name) self))
    = (journal self ++ new)%list
    /\ caught_failures new = 0%nat
    /\ pauses new = []
    /\ recreations new = opened_by a self
    /\ attachments new = []
    /\ match fst ((log DEBUG ;;; exchange_attempt a exchange_name) self) with
       | Ok exchange =>
           exchange_name_of exchange = exchange_name
           /\ exchange_channel exchange
              = number (channel (snd ((log DEBUG ;;;
                          exchange_attempt a exchange_name) self)))
           /\ is_closed (channel (snd ((log DEBUG ;;;
                           exchange_attempt a exchange_name) self)))
              = false
           /\ exchange_ends_channel_closed a (is_closed (channel self))
              = false
       | Raise e =>
           caught_by_retry e
           = exchange_ends_channel_closed a (is_closed (channel self))
       end.
Proof.
  destruct self as [loop [cc opened] [n closed] j], a as [c l s k].
  unfold exchange_attempt, reopen_if_closed, opened_by,
    exchange_ends_channel_closed.
  destruct closed, c as [| [t1 | ? ?]], l as [| [t2 | ? ?]]; simpl.
  all: eexists; rewrite <- ?app_assoc; split; [reflexivity |].
  all: repeat split.
Qed.

(** The state the loop goes on from after a caught failure. *)
Lemma after_backoff (seconds : Z) (a : attempt) (self : Resource) :
  journal (snd (backoff seconds (broker_leaves a self)))
  = (journal self ++ [Logged WARNING; Slept seconds])%list
  /\ is_closed (channel (snd (backoff seconds (broker_leaves a self))))
     = closed_after a.
Proof.
  destruct self as [loop [cc opened] [n closed] j].
  cbn. rewrite <- app_assoc. split; reflexivity.
Qed.

Lemma reopens_and_closes_true (a : attempt) :
  reopens_and_closes a = true ->
  on_channel a = Succeeds /\ closed_after a = true.
Proof.
  unfold reopens_and_closes. destruct (on_channel a); [tauto | discriminate].
Qed.

Section RetryRunFacts.

Variable QUEUE_SUBSCRIBE_RETRY_SECONDS : Z.

(** A whole run of [try_queue_subscribe]. *)
Lemma subscribe_run_facts (script : list attempt)
    (queue_name callback : string) :
  forall self : Resource,
  exists new,
    journal (snd (try_queue_subscribe QUEUE_SUBSCRIBE_RETRY_SECONDS script
                    queue_name callback self))
    = (journal self ++ new)%list
    /\ (recreations new
        <= caught_failures new + (if is_closed (channel self) then 1 else 0))%nat
    /\ (Forall (fun a => reopens_and_closes a = true) script ->
        fst (try_queue_subscribe QUEUE_SUBSCRIBE_RETRY_SECONDS script
               queue_name callback self) <> OutOfFuel ->
        recreations new
        = (caught_failures new
           + (if is_closed (channel self) then 1 else 0))%nat)
    /\ match fst (try_queue_subscribe QUEUE_SUBSCRIBE_RETRY_SECONDS script
                    queue_name callback self) with
       | Returned _ =>
           attachments new
           = [(queue_name, callback,
               number (channel (snd (try_queue_subscribe
                                       QUEUE_SUBSCRIBE_RETRY_SECONDS script
                                       queue_name callback self))))]
           /\ is_closed (channel (snd (try_queue_subscribe
                                         QUEUE_SUBSCRIBE_RETRY_SECONDS script
                                         queue_name callback self)))
              = false
       | _ => attachments new = []
       end
    /\ (fst (try_queue_subscribe QUEUE_SUBSCRIBE_RETRY_SECONDS script
               queue_name callback self) = OutOfFuel
        <-> every_attempt subscribe_ends_channel_closed script
              (is_closed (channel self)) = true)
    /\ (fst (try_queue_subscribe QUEUE_SUBSCRIBE_RETRY_SECONDS script
               queue_name callback self) = OutOfFuel ->
        caught_failures new = length script
        /\ pauses new
           = replicate (length script) QUEUE_SUBSCRIBE_RETRY_SECONDS).
Proof.
  induction script as [| a script IH]; intros self.
  - exists []. cbn. rewrite app_nil_r.
    repeat split; try reflexivity; try lia. intros _ H. now contradiction H.
  - destruct (subscribe_attempt_facts a queue_name callback self)
      as (new1 & Hj1 & Hc1 & Hp1 & Hr1 & Hres).
    cbn [try_queue_subscribe].
    remember ((log DEBUG ;;; subscribe_attempt a queue_name callback) self)
      as r eqn:Hr.
    destruct r as [[[] | e] self1]; cbn [fst snd] in *.
    + (* the attempt succeeds *)
      destruct Hres as (Hat & Hopen & Hnever).
      exists new1. rewrite Hc1, Hr1. unfold opened_by.
      split; [assumption |]. split; [destruct (is_closed (channel self)),
        (on_channel a); lia |].
      split.
      { intros [Ha _]%Forall_cons _.
        apply reopens_and_closes_true in Ha as [-> _].
        now destruct (is_closed (channel self)). }
      split; [split; assumption |].
      cbn [every_attempt]. rewrite Hnever.
      split; [split; discriminate | discriminate].
    + destruct Hres as [Hat Hcaught].
      destruct (caught_by_retry e) eqn:He.
      * (* the failure is caught *)
        destruct (after_backoff QUEUE_SUBSCRIBE_RETRY_SECONDS a self1)
          as [Hj2 Hclosed2].
        destruct (IH (snd (backoff QUEUE_SUBSCRIBE_RETRY_SECONDS
                             (broker_leaves a self1))))
          as (new3 & Hj3 & Hbound & Hexact & Hattach & Hiff & Hforever).
        rewrite Hclosed2 in *.
        exists (new1
                ++ [Logged WARNING; Slept QUEUE_SUBSCRIBE_RETRY_SECONDS]
                ++ new3)%list.
        rewrite Hj3, Hj2, Hj1, <- !app_assoc.
        rewrite !recreations_app, !caught_failures_app, !attachments_app,
          !pauses_app, Hc1, Hr1, Hp1, Hat.
        change (recreations [Logged WARNING;
                             Slept QUEUE_SUBSCRIBE_RETRY_SECONDS]) with 0%nat.
        change (caught_failures [Logged WARNING;
                                 Slept QUEUE_SUBSCRIBE_RETRY_SECONDS])
          with 1%nat.
        change (attachments [Logged WARNING;
                             Slept QUEUE_SUBSCRIBE_RETRY_SECONDS])
          with (@nil (string * string * nat)).
        change (pauses [Logged WARNING; Slept QUEUE_SUBSCRIBE_RETRY_SECONDS])
          with [QUEUE_SUBSCRIBE_RETRY_SECONDS].
        unfold opened_by. cbn [app].
        split; [reflexivity |].
        split; [destruct (is_closed (channel self)), (on_channel a),
                  (closed_after a); lia |].
        split.
        { intros [Ha Hrest]%Forall_cons Hout.
          apply reopens_and_closes_true in Ha as [Hch Hcl].
          rewrite Hcl in Hexact. rewrite Hch.
          rewrite (Hexact Hrest Hout).
          destruct (is_closed (channel self)); lia. }
        split; [exact Hattach |].
        cbn [every_attempt]. rewrite <- Hcaught. cbn [andb].
        split; [exact Hiff |].
        intros Hout. destruct (Hforever Hout) as (Hlen & Hpauses).
        rewrite Hlen, Hpauses. split; reflexivity.
      * (* the failure goes to the caller *)
        exists new1. cbn [fst snd].
        assert (Hsame : journal (broker_leaves a self1) = journal self1)
          by now destruct self1.
        rewrite Hsame, Hc1, Hr1. unfold opened_by.
        split; [assumption |].
        split; [destruct (is_closed (channel self)), (on_channel a); lia |].
        split.
        { intros [Ha _]%Forall_cons _.
          apply reopens_and_closes_true in Ha as [-> _].
          now destruct (is_closed (channel self)). }
        split; [assumption |].
        cbn [every_attempt]. rewrite <- Hcaught. cbn [andb].
        split; [split; discriminate | discriminate].
Qed.

(** A whole run of [try_get_exchange]. *)
Lemma exchange_run_facts (script : list attempt) (exchange_name : string) :
  forall self : Resource,
  exists new,
    journal (snd (try_get_exchange QUEUE_SUBSCRIBE_RETRY_SECONDS script
                    exchange_name self))
    = (journal self ++ new)%list
    /\ (recreations new
        <= caught_failures new + (if is_closed (channel self) then 1 else 0))%nat
    /\ (Forall (fun a => reopens_and_closes a = true) script ->
        fst (try_get_exchange QUEUE_SUBSCRIBE_RETRY_SECONDS script
               exchange_name self) <> OutOfFuel ->
        recreations new
        = (caught_failures new
           + (if is_closed (channel self) then 1 else 0))%nat)
    /\ attachments new = []
    /\ match fst (try_get_exchange QUEUE_SUBSCRIBE_RETRY_SECONDS script
                    exchange_name self) with
       | Returned exchange =>
           exchange_name_of exchange = exchange_name
           /\ exchange_channel exchange
              = number (channel (snd (try_get_exchange
                                        QUEUE_SUBSCRIBE_RETRY_SECONDS script
                                        exchange_name self)))
           /\ is_closed (channel (snd (try_get_exchange
                                         QUEUE_SUBSCRIBE_RETRY_SECONDS script
                                         exchange_name self)))
              = false
       | _ => True
       end
    /\ (fst (try_get_exchange QUEUE_SUBSCRIBE_RETRY_SECONDS script
               exchange_name self) = OutOfFuel
        <-> every_attempt exchange_ends_channel_closed script
              (is_closed (channel self)) = true)
    /\ (fst (try_get_exchange QUEUE_SUBSCRIBE_RETRY_SECONDS script
               exchange_name self) = OutOfFuel ->
        caught_failures new = length script
        /\ pauses new
           = replicate (length script) QUEUE_SUBSCRIBE_RETRY_SECONDS).
Proof.
  induction script as [| a script IH]; intros self.
  - exists []. cbn. rewrite app_nil_r.
    repeat split; try reflexivity; try lia. intros _ H. now contradiction H.
  - destruct (exchange_attempt_facts a exchange_name self)
      as (new1 & Hj1 & Hc1 & Hp1 & Hr1 & Hat & Hres).
    cbn [try_get_exchange].
    remember ((log DEBUG ;;; exchange_attempt a exchange_name) self)
      as r eqn:Hr.
    destruct r as [[exchange | e] self1]; cbn [fst snd] in *.
    + (* the attempt succeeds *)
      destruct Hres as (Hname & Hon & Hopen & Hnever).
      exists new1. rewrite Hc1, Hr1. unfold opened_by.
      split; [assumption |]. split; [destruct (is_closed (channel self)),
        (on_channel a); lia |].
      split.
      { intros [Ha _]%Forall_cons _.
        apply reopens_and_closes_true in Ha as [-> _].
        now destruct (is_closed (channel self)). }
      split; [assumption |].
      split; [repeat split; assumption |].
      cbn [every_attempt]. rewrite Hnever.
      split; [split; discriminate | discriminate].
    + destruct (caught_by_retry e) eqn:He.
      * (* the failure is caught *)
        destruct (after_backoff QUEUE_SUBSCRIBE_RETRY_SECONDS a self1)
          as [Hj2 Hclosed2].
        destruct (IH (snd (backoff QUEUE_SUBSCRIBE_RETRY_SECONDS
                             (broker_leaves a self1))))
          as (new3 & Hj3 & Hbound & Hexact & Hattach & Hhandle & Hiff
              & Hforever).
        rewrite Hclosed2 in *.
        exists (new1
                ++ [Logged WARNING; Slept QUEUE_SUBSCRIBE_RETRY_SECONDS]
                ++ new3)%list.
        rewrite Hj3, Hj2, Hj1, <- !app_assoc.
        rewrite !recreations_app, !caught_failures_app, !attachments_app,
          !pauses_app, Hc1, Hr1, Hp1, Hat, Hattach.
        change (recreations [Logged WARNING;
                             Slept QUEUE_SUBSCRIBE_RETRY_SECONDS]) with 0%nat.
        change (caught_failures [Logged WARNING;
                                 Slept QUEUE_SUBSCRIBE_RETRY_SECONDS])
          with 1%nat.
        change (attachments [Logged WARNING;
                             Slept QUEUE_SUBSCRIBE_RETRY_SECONDS])
          with (@nil (string * string * nat)).
        change (pauses [Logged WARNING; Slept QUEUE_SUBSCRIBE_RETRY_SECONDS])
          with [QUEUE_SUBSCRIBE_RETRY_SECONDS].
        unfold opened_by. cbn [app].
        split; [reflexivity |].
        split; [destruct (is_closed (channel self)), (on_channel a),
                  (closed_after a); lia |].
        split.
        { intros [Ha Hrest]%Forall_cons Hout.
          apply reopens_and_closes_true in Ha as [Hch Hcl].
          rewrite Hcl in Hexact. rewrite Hch.
          rewrite (Hexact Hrest Hout).
          destruct (is_closed (channel self)); lia. }
        split; [reflexivity |].
        split; [exact Hhandle |].
        cbn [every_attempt]. rewrite <- Hres. cbn [andb].
        split; [exact Hiff |].
        intros Hout. destruct (Hforever Hout) as (Hlen & Hpauses).
        rewrite Hlen, Hpauses. split; reflexivity.
      * (* the failure goes to the caller *)
        exists new1. cbn [fst snd].
        assert (Hsame : journal (broker_leaves a self1) = journal self1)
          by now destruct self1.
        rewrite Hsame, Hc1, Hr1. unfold opened_by.
        split; [assumption |].
        split; [destruct (is_closed (channel self)), (on_channel a); lia |].
        split.
        { intros [Ha _]%Forall_cons _.
          apply reopens_and_closes_true in Ha as [-> _].
          now destruct (is_closed (channel self)). }
        split; [assumption |].
        split; [exact I |].
        cbn [every_attempt]. rewrite <- Hres. cbn [andb].
        split; [split; discriminate | discriminate].
Qed.

(** What [try_get_exchange] returns. *)
Lemma exchange_returned_handle (script : list attempt)
    (exchange_name : string) (self self' : Resource) (exchange : Exchange) :
  try_get_exchange QUEUE_SUBSCRIBE_RETRY_SECONDS script exchange_name self
  = (Returned exchange, self') ->
  exchange_name_of exchange = exchange_name
  /\ exchange_channel exchange = number (channel self')
  /\ is_closed (channel self') = false.
Proof.
  intros Hrun.
  destruct (exchange_run_facts script exchange_name self)
    as (new & _ & _ & _ & _ & Hhandle & _).
  now rewrite Hrun in Hhandle.
Qed.

(** X9. Neither loop ever gives up: the call is still looping exactly
    when every attempt so far has ended with a channel-closed failure,
    wherever in the attempt it was raised (opening the channel, the
    lookup, attaching the consumer); it has then caught one failure and
    paused once, for the configured time, per attempt, and
    [try_queue_subscribe] has attached no consumer. *)
Theorem retry_never_gives_up (script : list attempt)
    (queue_name callback exchange_name : string) (self : Resource) :
  (fst (try_queue_subscribe QUEUE_SUBSCRIBE_RETRY_SECONDS script queue_name
          callback self) = OutOfFuel
   <-> every_attempt subscribe_ends_channel_closed script
         (is_closed (channel self)) = true)
  /\ (fst (try_get_exchange QUEUE_SUBSCRIBE_RETRY_SECONDS script
             exchange_name self) = OutOfFuel
      <-> every_attempt exchange_ends_channel_closed script
            (is_closed (channel self)) = true)
  /\ (every_attempt subscribe_ends_channel_closed script
         (is_closed (channel self)) = true ->
      exists new,
        journal (snd (try_queue_subscribe QUEUE_SUBSCRIBE_RETRY_SECONDS
                        script queue_name callback self))
        = (journal self ++ new)%list
        /\ caught_failures new = length script
        /\ pauses new
           = replicate (length script) QUEUE_SUBSCRIBE_RETRY_SECONDS
        /\ attachments new = [])
  /\ (every_attempt exchange_ends_channel_closed script
         (is_closed (channel self)) = true ->
      exists new,
        journal (snd (try_get_exchange QUEUE_SUBSCRIBE_RETRY_SECONDS script
                        exchange_name self))
        = (journal self ++ new)%list
        /\ caught_failures new = length script
        /\ pauses new
           = replicate (length script) QUEUE_SUBSCRIBE_RETRY_SECONDS).
Proof.
  destruct (subscribe_run_facts script queue_name callback self)
    as (new & Hj & _ & _ & Hattach & Hiff & Hforever).
  destruct (exchange_run_facts script exchange_name self)
    as (new' & Hj' & _ & _ & _ & _ & Hiff' & Hforever').
  split; [exact Hiff |]. split; [exact Hiff' |]. split.
  - intros Hout%Hiff. destruct (Hforever Hout) as (Hlen & Hpauses).
    rewrite Hout in Hattach. exists new. repeat split; assumption.
  - intros Hout%Hiff'. destruct (Hforever' Hout) as (Hlen & Hpauses).
    exists new'. repeat split; assumption.
Qed.

(** X10. [try_queue_subscribe] attaches the callback exactly when it
    returns, and then once, on the channel the resource holds at the
    return, which is open; a run that raises or is still looping has
    attached nothing. *)
Theorem subscribe_attaches_once_on_return (script : list attempt)
    (queue_name callback : string) (self : Resource) :
  exists new,
    journal (snd (try_queue_subscribe QUEUE_SUBSCRIBE_RETRY_SECONDS script
                    queue_name callback self))
    = (journal self ++ new)%list
    /\ match fst (try_queue_subscribe QUEUE_SUBSCRIBE_RETRY_SECONDS script
                    queue_name callback self) with
       | Returned _ =>
           attachments new
           = [(queue_name, callback,
               number (channel (snd (try_queue_subscribe
                                       QUEUE_SUBSCRIBE_RETRY_SECONDS script
                                       queue_name callback self))))]
           /\ is_closed (channel (snd (try_queue_subscribe
                                         QUEUE_SUBSCRIBE_RETRY_SECONDS script
                                         queue_name callback self)))
              = false
       | _ => attachments new = []
       end.
Proof.
  destruct (subscribe_run_facts script queue_name callback self)
    as (new & Hj & _ & _ & Hattach & _).
  exists new. split; assumption.
Qed.

(** X11. The exchange [try_get_exchange] returns has the name asked for
    and lives on the channel the resource holds at the return, which is
    open; and the call attaches no consumer. *)
Theorem exchange_on_current_channel (script : list attempt)
    (exchange_name : string) (self self' : Resource) (exchange : Exchange) :
  try_get_exchange QUEUE_SUBSCRIBE_RETRY_SECONDS script exchange_name self
  = (Returned exchange, self') ->
  exchange_name_of exchange = exchange_name
  /\ exchange_channel exchange = number (channel self')
  /\ is_closed (channel self') = false
  /\ exists new,
      journal self' = (journal self ++ new)%list /\ attachments new = [].
Proof.
  intros Hrun.
  destruct (exchange_run_facts script exchange_name self)
    as (new & Hj & _ & _ & Hattach & Hhandle & _).
  rewrite Hrun in Hj, Hhandle. cbn [fst snd] in *.
  destruct Hhandle as (Hname & Hon & Hopen).
  repeat split; try assumption. exists new. split; assumption.
Qed.

(** X12. In both loops the channels opened are at most one per caught
    failure, and one more when the channel is closed at the call.  When
    every attempt gets its channel from the connection and every failed
    attempt leaves the channel closed, a call that ends has opened
    exactly that many. *)
Theorem retry_recreations (script : list attempt)
    (queue_name callback exchange_name : string) (self : Resource) :
  (exists new,
      journal (snd (try_queue_subscribe QUEUE_SUBSCRIBE_RETRY_SECONDS script
                      queue_name callback self))
      = (journal self ++ new)%list
      /\ (recreations new
          <= caught_failures new
             + (if is_closed (channel self) then 1 else 0))%nat
      /\ (Forall (fun a => reopens_and_closes a = true) script ->
          fst (try_queue_subscribe QUEUE_SUBSCRIBE_RETRY_SECONDS script
                 queue_name callback self) <> OutOfFuel ->
          recreations new
          = (caught_failures new
             + (if is_closed (channel self) then 1 else 0))%nat))
  /\ (exists new,
         journal (snd (try_get_exchange QUEUE_SUBSCRIBE_RETRY_SECONDS script
                         exchange_name self))
         = (journal self ++ new)%list
         /\ (recreations new
             <= caught_failures new
                + (if is_closed (channel self) then 1 else 0))%nat
         /\ (Forall (fun a => reopens_and_closes a = true) script ->
             fst (try_get_exchange QUEUE_SUBSCRIBE_RETRY_SECONDS script
                    exchange_name self) <> OutOfFuel ->
             recreations new
             = (caught_failures new
                + (if is_closed (channel self) then 1 else 0))%nat)).
Proof.
  split.
  - destruct (subscribe_run_facts script queue_name callback self)
      as (new & Hj & Hbound & Hexact & _).
    exists new. repeat split; assumption.
  - destruct (exchange_run_facts script exchange_name self)
      as (new & Hj & Hbound & Hexact & _).
    exists new. repeat split; assumption.
Qed.

End RetryRunFacts.

Lemma retry_never_gives_up_witness :
  fst (try_queue_subscribe 5
         [lookup_closes_channel; consume_closes_channel;
          consume_closes_channel]
         "southbound.L1" "on_message" connected) = OutOfFuel
  /\ exists new,
      journal (snd (try_queue_subscribe 5
                      [lookup_closes_channel; consume_closes_channel;
                       consume_closes_channel]
                      "southbound.L1" "on_message" connected))
      = (journal connected ++ new)%list
      /\ caught_failures new = 3%nat
      /\ pauses new = [5; 5; 5]
      /\ attachments new = [].
Proof.
  destruct (retry_never_gives_up 5
              [lookup_closes_channel; consume_closes_channel;
               consume_closes_channel]
              "southbound.L1" "on_message" "exchange.southbound.L1" connected)
    as (Hiff & _ & Hforever & _).
  split; [apply Hiff; reflexivity |].
  apply Hforever. reflexivity.
Defined.

Lemma exchange_on_current_channel_witness :
  exists (exchange : Exchange) (self' : Resource),
    try_get_exchange 5 [lookup_closes_channel; all_succeed]
      "exchange.southbound.L1" connected
    = (Returned exchange, self')
    /\ exchange_name_of exchange = "exchange.southbound.L1"
    /\ exchange_channel exchange = number (channel self')
    /\ number (channel self') = 2%nat
    /\ is_closed (channel self') = false.
Proof.
  eexists. eexists. split; [vm_compute; reflexivity |].
  match goal with
  | |- exchange_name_of ?ex = _ /\ _ = number (channel ?s) /\ _ =>
      destruct (exchange_on_current_channel 5
                  [lookup_closes_channel; all_succeed]
                  "exchange.southbound.L1" connected s ex)
        as (Hname & Hon & Hopen & _)
  end.
  - vm_compute. reflexivity.
  - repeat split; assumption.
Defined.

Lemma retry_recreations_witness :
  exists new,
    journal (snd (try_queue_subscribe 5
                    [lookup_closes_channel; lookup_closes_channel;
                     lookup_closes_channel; all_succeed_once]
                    "southbound.L1" "on_message" connected_channel_closed))
    = (journal connected_channel_closed ++ new)%list
    /\ recreations new = (caught_failures new + 1)%nat.
Proof.
  destruct (proj1 (retry_recreations 5
                     [lookup_closes_channel; lookup_closes_channel;
                      lookup_closes_channel; all_succeed_once]
                     "southbound.L1" "on_message" "exchange.southbound.L1"
                     connected_channel_closed))
    as (new & Hj & _ & Hexact).
  exists new. split; [exact Hj |].
  apply Hexact.
  - repeat constructor.
  - vm_compute. discriminate.
Defined.

(** ** Publishing *)

(** The delivery modes the constructor of the message takes, and what it
    makes of them. *)
Lemma Message_cases (message : list byte) (mode : option Z) :
  match Message message mode with
  | Ok m =>
      body m = message
      /\ (mode = None \/ mode = Some 0 \/ mode = Some 1 \/ mode = Some 2)
      /\ (delivery_mode m = PERSISTENT <-> mode = Some 2)
  | Raise e =>
      caught_by_retry e = false
      /\ exists z, mode = Some z /\ z <> 0 /\ z <> 1 /\ z <> 2
  end.
Proof.
  destruct mode as [[| [p | p |] | p] |]; cbn;
    try (split; [reflexivity |]; eexists; split; [reflexivity |];
         repeat split; discriminate).
  all: try destruct p; cbn;
    try (split; [reflexivity |]; eexists; split; [reflexivity |];
         repeat split; discriminate).
  all: split; [reflexivity |]; split; [tauto |]; split; congruence.
Qed.

Example publish_mode_0 :
  Message [] (Some 0) = Ok {| body := []; delivery_mode := NOT_PERSISTENT |}.
Proof. reflexivity. Qed.

Example publish_mode_3 :
  Message [] (Some 3)
  = Raise (OtherFailure "ValueError" "3 is not a valid DeliveryMode").
Proof. reflexivity. Qed.

Section PublishFacts.

Variable QUEUE_SUBSCRIBE_RETRY_SECONDS : Z.

(** X13. [publish_message] calls [exchange.publish] at most once, and it
    returns only when it has called it.  The call is made once the
    exchange is resolved and the message built: on the exchange of the
    name asked for, found on the channel the resource held, open, when
    the exchange was resolved; with the body given and the empty routing
    key; the delivery mode is persistent for 2 and not persistent for 1,
    0 and [None].  For any other delivery mode no call is made. *)
Theorem publish_message_sends_once (script : list attempt)
    (on_publish : answer) (exchange_name : string) (message : list byte)
    (mode : option Z) (self : Resource) (outbox : list publication) :
  let '(r, _, outbox') :=
    publish_message QUEUE_SUBSCRIBE_RETRY_SECONDS script on_publish
      exchange_name message mode self outbox in
  ((exists call self1,
       outbox' = (outbox ++ [call])%list
       /\ try_get_exchange QUEUE_SUBSCRIBE_RETRY_SECONDS script exchange_name
            self = (Returned (via call), self1)
       /\ exchange_name_of (via call) = exchange_name
       /\ exchange_channel (via call) = number (channel self1)
       /\ is_closed (channel self1) = false
       /\ routing_key call = EmptyString
       /\ body (sent call) = message
       /\ (delivery_mode (sent call) = PERSISTENT <-> mode = Some 2)
       /\ (mode = None \/ mode = Some 0 \/ mode = Some 1 \/ mode = Some 2)
       /\ (r = Returned tt <-> on_publish = Succeeds))
   \/ (outbox' = outbox /\ r <> Returned tt)).
Proof.
  unfold publish_message.
  destruct (try_get_exchange QUEUE_SUBSCRIBE_RETRY_SECONDS script
              exchange_name self) as [[exchange | e | |] self1] eqn:Hrun;
    try (right; split; [reflexivity | discriminate]).
  pose proof (Message_cases message mode) as Hm.
  destruct (Message message mode) as [m | e];
    [| right; split; [reflexivity | discriminate]].
  destruct Hm as (Hbody & Hmode & Hpersistent).
  destruct (exchange_returned_handle QUEUE_SUBSCRIBE_RETRY_SECONDS
              script exchange_name self self1 exchange Hrun)
    as (Hname & Hon & Hopen).
  assert (Hcall : exists call self2,
             (outbox ++ [{| via := exchange; sent := m;
                            routing_key := EmptyString |}])%list
             = (outbox ++ [call])%list
             /\ (Returned exchange, self1) = (Returned (via call), self2)
             /\ exchange_name_of (via call) = exchange_name
             /\ exchange_channel (via call) = number (channel self2)
             /\ is_closed (channel self2) = false
             /\ routing_key call = EmptyString
             /\ body (sent call) = message
             /\ (delivery_mode (sent call) = PERSISTENT <-> mode = Some 2)
             /\ (mode = None \/ mode = Some 0 \/ mode = Some 1
                 \/ mode = Some 2)).
  { eexists. exists self1. repeat split; try assumption; apply Hpersistent. }
  destruct Hcall as (call & self2 & H).
  destruct on_publish as [| e]; left; exists call, self2;
    repeat split; try tauto; try discriminate.
Qed.

(** X14. A channel-closed failure that [publish_message] raises comes
    from [exchange.publish] itself: the exchange had been resolved and
    the message built, [exchange.publish] has been called once, and the
    call is not tried again. *)
Theorem publish_failure_not_retried (script : list attempt)
    (on_publish : answer) (exchange_name : string) (message : list byte)
    (mode : option Z) (self self' : Resource)
    (outbox outbox' : list publication) (e : exn) :
  publish_message QUEUE_SUBSCRIBE_RETRY_SECONDS script on_publish
    exchange_name message mode self outbox
  = (Raised e, self', outbox') ->
  caught_by_retry e = true ->
  on_publish = Fails e
  /\ exists exchange self1 m,
      try_get_exchange QUEUE_SUBSCRIBE_RETRY_SECONDS script exchange_name self
      = (Returned exchange, self1)
      /\ Message message mode = Ok m
      /\ outbox'
         = (outbox ++ [{| via := exchange; sent := m;
                          routing_key := EmptyString |}])%list.
Proof.
  unfold publish_message.
  destruct (try_get_exchange QUEUE_SUBSCRIBE_RETRY_SECONDS script
              exchange_name self) as [[exchange | e' | |] self1] eqn:Hrun;
    try discriminate.
  - pose proof (Message_cases message mode) as Hm.
    destruct (Message message mode) as [m | e'].
    + destruct on_publish as [| e']; [discriminate |].
      intros [= -> -> <-] _. split; [reflexivity |].
      exists exchange, self', m. repeat split.
    + intros [= -> -> <-] Hcaught. destruct Hm as [Hm _]. congruence.
  - intros [= -> -> ->] Hcaught.
    apply exchange_raises_uncaught in Hrun. congruence.
Qed.

End PublishFacts.

Lemma publish_message_sends_once_witness :
  exists call,
    snd (publish_message 5 [lookup_closes_channel; all_succeed] Succeeds
           "exchange.southbound.L1" [] default_delivery_mode connected [])
    = [call]
    /\ exchange_name_of (via call) = "exchange.southbound.L1"
    /\ delivery_mode (sent call) = PERSISTENT
    /\ routing_key call = EmptyString.
Proof.
  pose proof (publish_message_sends_once 5
                [lookup_closes_channel; all_succeed] Succeeds
                "exchange.southbound.L1" [] default_delivery_mode connected [])
    as H.
  destruct (publish_message 5 [lookup_closes_channel; all_succeed] Succeeds
              "exchange.southbound.L1" [] default_delivery_mode connected [])
    as [[r self'] outbox'] eqn:Hrun.
  destruct H as [(call & self1 & -> & _ & Hname & _ & _ & Hkey & _ & Hmode & _)
                | [-> Hr]].
  - exists call. repeat split; try assumption. now apply Hmode.
  - vm_compute in Hrun. discriminate.
Defined.

Lemma publish_failure_not_retried_witness :
  exists self',
    publish_message 5 [all_succeed; all_succeed]
      (Fails (ChannelClosed "closed")) "exchange.southbound.L1" []
      default_delivery_mode connected []
    = (Raised (ChannelClosed "closed"), self',
       [{| via := {| exchange_name_of := "exchange.southbound.L1";
                     exchange_channel := 1 |};
           sent := {| body := []; delivery_mode := PERSISTENT |};
           routing_key := EmptyString |}])
    /\ exists exchange self1 m,
        try_get_exchange 5 [all_succeed; all_succeed]
          "exchange.southbound.L1" connected
        = (Returned exchange, self1)
        /\ Message [] default_delivery_mode = Ok m.
Proof.
  eexists. split; [vm_compute; reflexivity |].
  match goal with
  | |- exists exchange self1 m, _ = _ /\ _ =>
      destruct (publish_failure_not_retried 5 [all_succeed; all_succeed]
                  (Fails (ChannelClosed "closed")) "exchange.southbound.L1" []
                  default_delivery_mode connected _ [] _
                  (ChannelClosed "closed") eq_refl eq_refl)
        as (_ & exchange & self1 & m & Hrun & Hm & _)
  end.
  exists exchange, self1, m. split; assumption.
Defined.

(** ** Teardown: when it fails *)

(** How a [run_until_complete] that raises has ended: refused by a loop
    that is running; or with its coroutine started and either raising or
    cut short, still waiting, by a stop that was pending. *)
Lemma run_until_complete_raised (outcome_of : coroutine -> answer)
    (suspends : coroutine -> bool) (c : coroutine) (self self' : Resource)
    (e : exn) :
  run_until_complete outcome_of suspends c self = (Raise e, self') ->
  is_running (bus_loop self') = is_running (bus_loop self)
  /\ ((is_running (bus_loop self) = true
       /\ e = OtherFailure "RuntimeError" "This event loop is already running"
       /\ self' = self)
      \/ (is_running (bus_loop self) = false
          /\ journal self' = (journal self ++ [Started c])%list
          /\ (outcome_of c = Fails e
              \/ (stop_pending (bus_loop self) = true
                  /\ suspends c = true
                  /\ e = OtherFailure "RuntimeError"
                           "Event loop stopped before Future completed.")))).
Proof.
  unfold run_until_complete, run_to_end, bind, get.
  destruct (is_running (bus_loop self)) eqn:Hrun.
  - cbn. intros [= <- <-]. split; [assumption |]. left. repeat split.
  - cbn [modify record bus_loop].
    destruct (stop_pending (bus_loop self)) eqn:Hstop.
    + destruct (suspends c) eqn:Hs.
      * cbn. intros [= <- <-]. cbn. split; [reflexivity |]. right.
        repeat split. right. repeat split.
      * cbn. destruct (outcome_of c) as [| e'] eqn:Ho; [discriminate |].
        cbn. intros [= <- <-]. cbn. split; [reflexivity |]. right.
        repeat split. now left.
    + cbn. destruct (outcome_of c) as [| e'] eqn:Ho; [discriminate |].
      cbn. intros [= <- <-]. cbn. split; [reflexivity |]. right.
      repeat split. now left.
Qed.

(** The journal after one [run_until_complete] that returns. *)
Lemma run_until_complete_journal (outcome_of : coroutine -> answer)
    (suspends : coroutine -> bool) (c : coroutine) (self self' : Resource) :
  run_until_complete outcome_of suspends c self = (Ok tt, self') ->
  journal self' = (journal self ++ [Started c; Completed c])%list
  /\ is_running (bus_loop self) = false
  /\ is_running (bus_loop self') = false.
Proof.
  intros (Hrun & _ & _ & ->)%run_until_complete_returned.
  destruct c; cbn; rewrite <- app_assoc; repeat split; assumption.
Qed.

(** How a [disconnect_busses] that raises has ended: the steps it has
    gone through, in the journal, stop at the coroutine that raised or was
    cut short, or before the first one when the loop is running. *)
Lemma disconnect_busses_raises (outcome_of : coroutine -> answer)
    (suspends : coroutine -> bool) (self self' : Resource) (e : exn) :
  disconnect_busses outcome_of suspends self = (Raise e, self') ->
  is_running (bus_loop self') = is_running (bus_loop self)
  /\ exists steps,
      journal self' = (journal self ++ Logged DEBUG :: steps)%list
      /\ ((steps = []
           /\ is_running (bus_loop self) = true
           /\ e = OtherFailure "RuntimeError"
                    "This event loop is already running")
          \/ (is_running (bus_loop self) = false
              /\ exists done c,
                  (done ++ [c])%list
                  `prefix_of` [pre_disconnect; channel_close;
                               connection_close]
                  /\ steps
                     = (flat_map (fun c' => [Started c'; Completed c']) done
                        ++ [Started c])%list
                  /\ (outcome_of c = Fails e
                      \/ (suspends c = true
                          /\ e = OtherFailure "RuntimeError"
                                   "Event loop stopped before Future completed.")))).
Proof.
  unfold disconnect_busses, bind at 1. cbn [log modify].
  unfold bind at 1.
  destruct (run_until_complete outcome_of suspends pre_disconnect
              (record (Logged DEBUG) self)) as [[[] | e1] s1] eqn:H1.
  2:{ intros [= <- <-].
      apply run_until_complete_raised in H1 as (Hsame & Hcase).
      split; [exact Hsame |].
      destruct Hcase as [(Hrun & -> & ->) | (Hrun & Hj & Hwhy)].
      - exists []. split; [reflexivity |]. left. repeat split. exact Hrun.
      - exists [Started pre_disconnect].
        split; [rewrite Hj; cbn; now rewrite <- app_assoc |].
        right. split; [exact Hrun |].
        exists [], pre_disconnect.
        split; [now exists [channel_close; connection_close] |].
        split; [reflexivity |]. tauto. }
  apply run_until_complete_journal in H1 as (Hj1 & Hr0 & Hr1).
  cbn [record bus_loop journal] in Hj1, Hr0.
  unfold bind at 1.
  destruct (run_until_complete outcome_of suspends channel_close s1)
    as [[[] | e2] s2] eqn:H2.
  2:{ intros [= <- <-].
      apply run_until_complete_raised in H2 as (Hsame & Hcase).
      split; [congruence |].
      destruct Hcase as [(Hrun & _) | (_ & Hj & Hwhy)]; [congruence |].
      exists [Started pre_disconnect; Completed pre_disconnect;
              Started channel_close].
      split; [rewrite Hj, Hj1; cbn; now rewrite <- !app_assoc |].
      right. split; [exact Hr0 |].
      exists [pre_disconnect], channel_close.
      split; [now exists [connection_close] |].
      split; [reflexivity |]. tauto. }
  apply run_until_complete_journal in H2 as (Hj2 & _ & Hr2).
  unfold bind at 1.
  destruct (run_until_complete outcome_of suspends connection_close s2)
    as [[[] | e3] s3] eqn:H3.
  2:{ intros [= <- <-].
      apply run_until_complete_raised in H3 as (Hsame & Hcase).
      split; [congruence |].
      destruct Hcase as [(Hrun & _) | (_ & Hj & Hwhy)]; [congruence |].
      exists [Started pre_disconnect; Completed pre_disconnect;
              Started channel_close; Completed channel_close;
              Started connection_close].
      split; [rewrite Hj, Hj2, Hj1; cbn; now rewrite <- !app_assoc |].
      right. split; [exact Hr0 |].
      exists [pre_disconnect; channel_close], connection_close.
      split; [now exists [] |].
      split; [reflexivity |]. tauto. }
  unfold call_soon_threadsafe, bind, get, log. cbn [modify]. discriminate.
Qed.

(** X15. When [disconnect_busses] raises, the stop of the loop has not
    been posted, and the journal shows how far the teardown got: not a
    step when the loop is running, which refuses the first coroutine;
    otherwise up to the start of the coroutine that raised, or that was
    still waiting when a stop pending on the loop cut it short, every
    coroutine before it having run to its end, and none after it having
    been started. *)
Theorem disconnect_raises_before_stop (outcome_of : coroutine -> answer)
    (suspends : coroutine -> bool) (self self' : Resource) (e : exn) :
  disconnect_busses outcome_of suspends self = (Raise e, self') ->
  exists steps,
    journal self' = (journal self ++ Logged DEBUG :: steps)%list
    /\ ~ In (Posted loop_stop) steps
    /\ ((steps = []
         /\ is_running (bus_loop self) = true
         /\ e = OtherFailure "RuntimeError"
                  "This event loop is already running")
        \/ (is_running (bus_loop self) = false
            /\ exists done c,
                (done ++ [c])%list
                `prefix_of` [pre_disconnect; channel_close; connection_close]
                /\ steps
                   = (flat_map (fun c' => [Started c'; Completed c']) done
                      ++ [Started c])%list
                /\ (outcome_of c = Fails e
                    \/ (suspends c = true
                        /\ e = OtherFailure "RuntimeError"
                                 "Event loop stopped before Future completed.")))).
Proof.
  intros (_ & steps & Hj & Hcase)%disconnect_busses_raises.
  exists steps. split; [exact Hj |]. split; [| exact Hcase].
  destruct Hcase as [(-> & _) | (_ & done & c & _ & -> & _)];
    [intros [] |].
  rewrite in_app_iff, in_flat_map.
  intros [(c' & _ & [Hc | [Hc | []]]) | [Hc | []]]; discriminate.
Qed.

Lemma disconnect_raises_before_stop_witness :
  exists self',
    disconnect_busses channel_close_fails broker_io connected
    = (Raise (OtherFailure "ConnectionError" "reset"), self')
    /\ journal self'
       = [Logged DEBUG; Started pre_disconnect; Completed pre_disconnect;
          Started channel_close].
Proof.
  eexists. split; [vm_compute; reflexivity |].
  match goal with
  | |- journal ?s = _ =>
      destruct (disconnect_raises_before_stop channel_close_fails
                  broker_io connected s
                  (OtherFailure "ConnectionError" "reset"))
        as (steps & Hj & _)
  end.
  - vm_compute. reflexivity.
  - reflexivity.
Defined.

(** X16. Called while the bus loop is running, [disconnect_busses] raises
    the [RuntimeError] of its first [run_until_complete] and does
    nothing else: no coroutine runs, nothing is closed, no stop is
    posted. *)
Theorem disconnect_refused_while_running (outcome_of : coroutine -> answer)
    (suspends : coroutine -> bool) (self : Resource) :
  is_running (bus_loop self) = true ->
  exists self',
    disconnect_busses outcome_of suspends self
    = (Raise (OtherFailure "RuntimeError" "This event loop is already running"),
       self')
    /\ journal self' = (journal self ++ [Logged DEBUG])%list
    /\ bus_loop self' = bus_loop self
    /\ connection self' = connection self
    /\ channel self' = channel self.
Proof.
  destruct self as [[running stop rdy] [cc opened] [n closed] j].
  cbn [is_running bus_loop]. intros ->.
  eexists. split; [reflexivity |]. repeat split.
Qed.

Lemma disconnect_refused_while_running_witness :
  exists self',
    disconnect_busses all_complete broker_io
      (set_bus_loop {| is_running := true; stopping := false; ready := [] |}
         connected)
    = (Raise (OtherFailure "RuntimeError" "This event loop is already running"),
       self')
    /\ is_closed (channel self') = false
    /\ connection_is_closed (connection self') = false.
Proof.
  destruct (disconnect_refused_while_running all_complete broker_io
              (set_bus_loop
                 {| is_running := true; stopping := false; ready := [] |}
                 connected) eq_refl)
    as (self' & Hrun & _ & _ & Hconnection & Hchannel).
  exists self'. split; [exact Hrun |].
  rewrite Hconnection, Hchannel. split; reflexivity.
Defined.

(** ** The service around the bus *)

Section ShutdownFacts.

Variable outcome_of : coroutine -> answer.
Variable suspends : coroutine -> bool.
Variable on_stop : answer.

(** X17. [stop_resource] calls [stop_endpoint] at most once, and only
    after the teardown of the bus has gone through: when
    [disconnect_busses] raises, [stop_resource] raises the same exception
    and [stop_endpoint] has not been called.  So it is on a service whose
    bus loop is running: [stop_resource] raises the [RuntimeError] of the
    loop and leaves the endpoint alone.  And [stop_resource] returns only
    when [stop_endpoint] has been called and has returned. *)
Theorem stop_resource_order (service service' : Service) (r : result unit) :
  stop_resource outcome_of suspends on_stop service = (r, service') ->
  let before :=
    record (Logged DEBUG) (record (Logged INFO) (resource service)) in
  (forall e self',
      disconnect_busses outcome_of suspends before = (Raise e, self') ->
      r = Raise e
      /\ resource service' = self'
      /\ endpoint_stops service' = endpoint_stops service)
  /\ (forall self',
         disconnect_busses outcome_of suspends before = (Ok tt, self') ->
         endpoint_stops service' = S (endpoint_stops service)
         /\ (r = Ok tt <-> on_stop = Succeeds))
  /\ (is_running (bus_loop (resource service)) = true ->
      r = Raise (OtherFailure "RuntimeError"
                   "This event loop is already running")
      /\ endpoint_stops service' = endpoint_stops service)
  /\ (r = Ok tt -> endpoint_stops service' = S (endpoint_stops service)).
Proof.
  unfold stop_resource, shutdown_service, sbind, on_resource.
  cbn [log modify fst snd resource endpoint_stops].
  destruct (disconnect_busses outcome_of suspends
              (record (Logged DEBUG) (record (Logged INFO)
                                        (resource service))))
    as [[[] | e] self1] eqn:Hrun.
  - unfold stop_endpoint. cbn [resource endpoint_stops].
    destruct on_stop as [| e] eqn:Hstop; intros [= <- <-];
      cbn [resource endpoint_stops].
    + split; [discriminate |]. split; [now intros ? _ |].
      split; [| reflexivity].
      intros Hrunning.
      apply disconnect_busses_returned in Hrun as (Hr & _).
      cbn [record bus_loop] in Hr. congruence.
    + split; [discriminate |].
      split; [intros ? _; split; [reflexivity |]; split; discriminate |].
      split; [| discriminate].
      intros Hrunning.
      apply disconnect_busses_returned in Hrun as (Hr & _).
      cbn [record bus_loop] in Hr. congruence.
  - intros [= <- <-]. cbn [resource endpoint_stops].
    split; [intros e' self' [= <- <-]; repeat split |].
    split; [discriminate |].
    split; [| discriminate].
    intros Hrunning.
    apply disconnect_busses_raises in Hrun
      as (_ & steps & _ & [(_ & _ & ->) | (Hr & _)]).
    + split; reflexivity.
    + cbn [record bus_loop] in Hr. congruence.
Qed.

End ShutdownFacts.

Lemma stop_resource_order_witness :
  exists service',
    stop_resource all_complete broker_io Succeeds running_service
    = (Raise (OtherFailure "RuntimeError" "This event loop is already running"),
       service')
    /\ endpoint_stops service' = 0%nat.
Proof.
  eexists. split; [vm_compute; reflexivity |].
  match goal with
  | |- endpoint_stops ?s = _ =>
      destruct (stop_resource_order all_complete broker_io Succeeds
                  running_service s
                  (Raise (OtherFailure "RuntimeError"
                            "This event loop is already running")))
        as (_ & _ & Hrunning & _)
  end.
  - vm_compute. reflexivity.
  - now destruct (Hrunning eq_refl) as [_ ->].
Defined.

(** ** The status mapping *)

Lemma lookup_deref (heap : gmap nat pydict) (address : nat) (d : pydict) :
  heap !! address = Some d -> deref heap address = d.
Proof. unfold deref. now intros ->. Qed.

(** The object [message or {}] settles on: the caller's when it is a
    non-empty mapping, a new one otherwise. *)
Lemma or_new_dict_cases (data : option nat) (heap : gmap nat pydict) :
  (dict_truthy (status_data data heap) = true
   /\ data = Some (fst (or_new_dict data heap))
   /\ snd (or_new_dict data heap) = heap)
  \/ (dict_truthy (status_data data heap) = false
      /\ heap !! fst (or_new_dict data heap) = None
      /\ snd (or_new_dict data heap)
         = <[fst (or_new_dict data heap) := DNil]> heap).
Proof.
  unfold or_new_dict, status_data.
  destruct data as [address |].
  - destruct (dict_truthy (deref heap address)) eqn:Ht.
    + left. repeat split.
    + right. split; [reflexivity |]. split; [| reflexivity].
      apply (proj2 (deref_new_dict heap)).
  - right. split; [reflexivity |]. split; [| reflexivity].
    apply (proj2 (deref_new_dict heap)).
Qed.

Lemma or_new_dict_deref (data : option nat) (heap : gmap nat pydict) :
  deref (snd (or_new_dict data heap)) (fst (or_new_dict data heap))
  = status_data data heap.
Proof.
  destruct (or_new_dict_cases data heap) as [(Ht & Hd & ->) | (Ht & Hf & ->)].
  - rewrite Hd at 2. reflexivity.
  - rewrite deref_insert. destruct (status_data data heap); [reflexivity |].
    discriminate.
Qed.

(** X18. [return_status] returns a mapping with [up] bound to the flag
    and every other key bound as in the mapping passed.  A non-empty
    mapping passed is itself the mapping returned, changed in place; with
    no mapping or an empty one the mapping returned is a new object.  No
    other object changes. *)
Theorem return_status_aliases (up : pyvalue) (data : option nat)
    (heap : gmap nat pydict) :
  let status := fst (return_status up data heap) in
  let heap' := snd (return_status up data heap) in
  dict_get "up" (deref heap' status) = Some up
  /\ (forall k : pykey, k <> KStr "up" ->
        dict_get k (deref heap' status)
        = dict_get k (status_data data heap))
  /\ (forall other, other <> status -> heap' !! other = heap !! other)
  /\ (dict_truthy (status_data data heap) = true -> data = Some status)
  /\ (dict_truthy (status_data data heap) = false -> heap !! status = None).
Proof.
  unfold return_status.
  pose proof (or_new_dict_deref data heap) as Hderef.
  pose proof (or_new_dict_cases data heap) as Hcases.
  destruct (or_new_dict data heap) as [address heap0].
  cbn [fst snd] in *. unfold setitem. rewrite deref_insert, Hderef.
  split; [apply dict_get_set_same |].
  split; [intros k Hk; now apply dict_get_set_other |].
  split.
  { intros other Hother. rewrite lookup_insert_ne by congruence.
    destruct Hcases as [(_ & _ & ->) | (_ & _ & ->)]; [reflexivity |].
    now rewrite lookup_insert_ne by congruence. }
  split.
  - intros Ht. destruct Hcases as [(_ & Hd & _) | (Hf & _)];
      [assumption | congruence].
  - intros Hf. destruct Hcases as [(Ht & _) | (_ & Hfresh & _)];
      [congruence | assumption].
Qed.

Lemma return_status_aliases_witness :
  fst (return_status (PBool true) (Some 0%nat) status_heap) = 0%nat
  /\ dict_get "up"
       (deref (snd (return_status (PBool true) (Some 0%nat) status_heap))
          0%nat) = Some (PBool true)
  /\ dict_get "queue_depth"
       (deref (snd (return_status (PBool true) (Some 0%nat) status_heap))
          0%nat) = Some (PInt 3).
Proof.
  destruct (return_status_aliases (PBool true) (Some 0%nat) status_heap)
    as (Hup & Hother & _ & Hsame & _).
  assert (Hstatus : fst (return_status (PBool true) (Some 0%nat) status_heap)
                    = 0%nat).
  { vm_compute. reflexivity. }
  rewrite Hstatus in Hup, Hother.
  split; [exact Hstatus |]. split; [exact Hup |].
  rewrite (Hother (KStr "queue_depth")) by discriminate. reflexivity.
Defined.

(** ** The message envelope: more cases *)

(** X19. Without a payload [build_message] sends just the two keys,
    [type] first: the bytes are the text of the mapping of [type] and
    [resource], and decode to that mapping when the message type and the
    name of the resource are read back; every object the caller had is as
    before; and an empty payload gives the same bytes as none. *)
Theorem build_message_no_payload (settings : Settings) (message_type : string)
    (heap : gmap nat pydict) :
  fst (build_message settings None message_type heap)
  = str_encode
      (json_dumps
         (PDict (DCons "type" (PStr message_type)
                   (DCons "resource" (PStr (name settings)) DNil))))
  /\ (valid_str message_type = true -> valid_str (name settings) = true ->
      str_reads_back message_type = true ->
      str_reads_back (name settings) = true ->
      decode (fst (build_message settings None message_type heap))
      = Some (DCons "type" (PStr message_type)
                (DCons "resource" (PStr (name settings)) DNil)))
  /\ (forall address, is_Some (heap !! address) ->
        snd (build_message settings None message_type heap) !! address
        = heap !! address)
  /\ (forall address, heap !! address = Some DNil ->
        fst (build_message settings (Some address) message_type heap)
        = fst (build_message settings None message_type heap)).
Proof.
  assert (Hbytes : fst (build_message settings None message_type heap)
                   = str_encode (json_dumps
                       (PDict (envelope settings message_type DNil)))).
  { unfold build_message, or_new_dict, new_dict, setitem. cbn [fst snd].
    now rewrite !deref_insert. }
  split; [exact Hbytes |]. split; [| split].
  - intros Htype Hname Hbtype Hbname. rewrite Hbytes.
    now rewrite decode_envelope.
  - intros address Hsome.
    unfold build_message, or_new_dict, new_dict, setitem. cbn [fst snd].
    assert (Hne : fresh (dom heap) <> address).
    { intros <-. apply (is_fresh (dom heap)). now apply elem_of_dom. }
    now rewrite !lookup_insert_ne by assumption.
  - intros address Hempty.
    now rewrite (build_message_bytes _ _ _ _ _ Hempty), Hbytes.
Qed.

Lemma build_message_no_payload_witness :
  decode (fst (build_message resource_R None "data" empty_payload_heap))
  = Some (DCons "type" (PStr "data") (DCons "resource" (PStr "R") DNil))
  /\ fst (build_message resource_R (Some 0%nat) "data" empty_payload_heap)
     = fst (build_message resource_R None "data" empty_payload_heap).
Proof.
  destruct (build_message_no_payload resource_R "data" empty_payload_heap)
    as (_ & Hdecode & _ & Hsame).
  split; [now apply Hdecode | now apply Hsame].
Defined.

(** X21. In the message the keys of a payload that is read back stand in
    the order the payload had them, a [type] or [resource] of the caller
    keeping its place; [type] and then [resource] are added at the end
    when the payload did not have them. *)
Theorem build_message_key_order (settings : Settings) (message_type : string)
    (heap : gmap nat pydict) (message : nat) (payload : pydict) :
  heap !! message = Some payload ->
  valid_dict payload = true ->
  valid_str message_type = true ->
  valid_str (name settings) = true ->
  reads_back_dict payload = true ->
  str_reads_back message_type = true ->
  str_reads_back (name settings) = true ->
  exists decoded : pydict,
    decode (fst (build_message settings (Some message) message_type heap))
    = Some decoded
    /\ dict_keys decoded
       = (dict_keys payload
          ++ (if dict_has "type" payload then [] else [KStr "type"])
          ++ (if dict_has "resource" payload then []
              else [KStr "resource"]))%list.
Proof.
  intros Hpayload Hvalid Htype Hname Hback Hbtype Hbname.
  exists (envelope settings message_type payload).
  rewrite (build_message_bytes _ _ _ _ _ Hpayload).
  split; [now apply decode_envelope |].
  unfold envelope. rewrite !dict_keys_set, dict_has_set.
  change (key_eqb (KStr "resource") (KStr "type")) with false. cbn [orb].
  destruct (dict_has "type" payload), (dict_has "resource" payload);
    cbn [app]; rewrite ?app_nil_r, <- ?app_assoc; reflexivity.
Qed.

Lemma build_message_key_order_witness :
  exists decoded : pydict,
    decode (fst (build_message resource_R (Some 0%nat) "data" sample_heap))
    = Some decoded
    /\ dict_keys decoded
       = [KStr "text"; KStr "type"; KStr "meta"; KStr "resource"].
Proof.
  apply (build_message_key_order resource_R "data" sample_heap 0%nat
           sample_payload); vm_compute; reflexivity.
Defined.

(** X22. Sending the same non-empty mapping a second time gives the same
    bytes and changes nothing any more. *)
Theorem build_message_again (settings : Settings) (message_type : string)
    (heap : gmap nat pydict) (message : nat) (payload : pydict) :
  heap !! message = Some payload ->
  payload <> DNil ->
  build_message settings (Some message) message_type
    (snd (build_message settings (Some message) message_type heap))
  = build_message settings (Some message) message_type heap.
Proof.
  intros Hpayload Hne.
  assert (Hfirst : build_message settings (Some message) message_type heap
                   = (str_encode (json_dumps
                        (PDict (envelope settings message_type payload))),
                      <[message := envelope settings message_type payload]>
                        heap)).
  { unfold build_message, or_new_dict.
    rewrite (lookup_deref _ _ _ Hpayload).
    destruct payload as [| k v payload]; [contradiction |].
    cbn [dict_truthy]. unfold setitem.
    rewrite !deref_insert, (lookup_deref _ _ _ Hpayload), insert_insert_eq.
    reflexivity. }
  rewrite Hfirst. cbn [snd].
  unfold build_message, or_new_dict. rewrite deref_insert.
  assert (Ht : dict_truthy (envelope settings message_type payload) = true)
    by apply dict_set_truthy.
  rewrite Ht. unfold setitem. rewrite !deref_insert.
  rewrite (dict_set_same "type") by apply envelope_type.
  rewrite (dict_set_same "resource") by apply envelope_resource.
  now rewrite !insert_insert_eq.
Qed.

Lemma build_message_again_witness :
  build_message resource_R (Some 0%nat) "data"
    (snd (build_message resource_R (Some 0%nat) "data" sample_heap))
  = build_message resource_R (Some 0%nat) "data" sample_heap.
Proof.
  apply (build_message_again resource_R "data" sample_heap 0%nat
           sample_payload).
  - reflexivity.
  - discriminate.
Defined.

(** ** The message envelope: the bytes are ASCII *)

Example build_message_wide_bytes :
  fst (build_message resource_R (Some 0%nat) "data" wide_heap)
  = str_encode
      (String "{"
         (String quote ("ratio" ++ String quote (": 1.5, "
          ++ String quote ("tenth" ++ String quote (": 0.1, "
          ++ String quote ("caf\u00e9" ++ String quote (": "
          ++ String quote ("\u20ac \ud83d\ude00" ++ String quote (", "
          ++ String quote ("items" ++ String quote (": [-3, null], "
          ++ String quote ("type" ++ String quote (": "
          ++ String quote ("data" ++ String quote (", "
          ++ String quote ("resource" ++ String quote (": "
          ++ String quote ("R" ++ String quote "}"))))))))))))))))))).
Proof. vm_compute. reflexivity. Qed.

(** X20. For every payload [json.dumps] has an encoding for (text beyond
    ASCII, floats, keys that are not strings and tuples included), the
    bytes [build_message] returns are all below 128, one byte for each
    character of the [json] text, and they decode to that text. *)
Theorem build_message_bytes_ascii (settings : Settings)
    (message : option nat) (message_type : string) (heap : gmap nat pydict) :
  Forall (fun b => (Byte.to_N b < 128)%N)
    (fst (build_message settings message message_type heap))
  /\ exists text,
      fst (build_message settings message message_type heap) = str_encode text
      /\ length (fst (build_message settings message message_type heap))
         = length (code_points text)
      /\ bytes_decode (fst (build_message settings message message_type heap))
         = Some text.
Proof.
  unfold build_message.
  destruct (or_new_dict message heap) as [address heap0]. cbn [fst].
  match goal with
  | |- context [str_encode (json_dumps ?v)] =>
      destruct (str_encode_ascii (json_dumps v) (json_dumps_ascii v))
        as [Hall Hlen];
      pose proof (bytes_decode_encode (json_dumps v) (json_dumps_ascii v))
        as Hdecode
  end.
  split; [assumption |]. eexists. split; [reflexivity |].
  split; assumption.
Qed.
